(** * SYSTEM agent: the session orchestrator of [cloudflare-agent/src/server.ts]

    A shallow embedding of the Cloudflare agent (class [SystemAgent] and the
    helper [timingSafeEqual]) together with the properties of its
    specification.

    Conventions of the embedding.
    - A JavaScript string is the list of its UTF-16 code units ([jsstring]).
    - JavaScript numbers that hold counters and millisecond timestamps are
      integers of [Z].  A [Date] is given by the integer its time value is
      computed from; beyond the range of [Date] it is an Invalid Date (see
      [getTime]).
    - Values coming out of [JSON.parse] are trees of type [json]; [undefined]
      is [None] of [jsval].
    - The agent's methods run in a small state-and-exception monad [M] over a
      [World]: the durable [SystemState], the live connections and the trace
      of calls made to the outside (completion service, bridge, scheduler,
      clock, sockets).  What the outside answers is given by an [Env] whose
      answers may depend on the whole trace so far. *)

From Stdlib Require Import ZArith List Bool Lia String Ascii Arith.
Import ListNotations.
Local Open Scope Z_scope.

(* ================================================================== *)
(** * Part I: the model *)
(* ================================================================== *)

(** ** Strings *)

Definition jsstring := list Z.

(** An ASCII literal as a JavaScript string. *)
Definition js (s : string) : jsstring :=
  map (fun a => Z.of_nat (nat_of_ascii a)) (list_ascii_of_string s).

(** Every element is a UTF-16 code unit. *)
Definition wf_string (s : jsstring) : Prop :=
  Forall (fun c => 0 <= c < 65536) s.

Definition str_eqb (a b : jsstring) : bool :=
  if list_eq_dec Z.eq_dec a b then true else false.

Definition dquote : jsstring := [34].

(** [s.length] *)
Definition jslength (s : jsstring) : nat := List.length s.

(** [s.charCodeAt(i)]; out of range the source gets [NaN], which the
    bitwise operators read as 0. *)
Definition charCodeAt (s : jsstring) (i : nat) : Z := nth i s 0.

(** [ToInt32]: the wrap-around of the bitwise operators. *)
Definition ToInt32 (z : Z) : Z := (z + 2 ^ 31) mod 2 ^ 32 - 2 ^ 31.

Definition js_xor (a b : Z) : Z := Z.lxor (ToInt32 a) (ToInt32 b).
Definition js_or (a b : Z) : Z := Z.lor (ToInt32 a) (ToInt32 b).

(** ** Security helper: [timingSafeEqual] *)

(** The loop [for (i = 0; i < a.length; i++) mismatch |= a[i] ^ b[i]],
    with [n] iterations left. *)
Fixpoint timingSafeEqual_loop (n i : nat) (a b : jsstring) (mismatch : Z) : Z :=
  match n with
  | O => mismatch
  | S n' =>
      timingSafeEqual_loop n' (S i) a b
        (js_or mismatch (js_xor (charCodeAt a i) (charCodeAt b i)))
  end.

Definition timingSafeEqual (a b : jsstring) : bool :=
  if negb (Nat.eqb (jslength a) (jslength b)) then false
  else Z.eqb (timingSafeEqual_loop (jslength a) 0 a b 0) 0.

(** ** Character classes and string helpers *)

Definition is_digit (c : Z) : bool := (48 <=? c) && (c <=? 57).

(** [\s]: WhiteSpace and LineTerminator code points. *)
Definition is_space (c : Z) : bool :=
  ((9 <=? c) && (c <=? 13)) || (c =? 32) || (c =? 160) || (c =? 5760)
  || ((8192 <=? c) && (c <=? 8202)) || (c =? 8232) || (c =? 8233)
  || (c =? 8239) || (c =? 8287) || (c =? 12288) || (c =? 65279).

(** [.] without the [s] flag: anything but a line terminator. *)
Definition is_dot (c : Z) : bool :=
  negb ((c =? 10) || (c =? 13) || (c =? 8232) || (c =? 8233)).

Definition is_any (c : Z) : bool := true.

Definition one_of (l : list Z) (c : Z) : bool := existsb (Z.eqb c) l.

Fixpoint trimStart (s : jsstring) : jsstring :=
  match s with
  | c :: s' => if is_space c then trimStart s' else s
  | [] => []
  end.

(** [s.trim()] *)
Definition trim (s : jsstring) : jsstring :=
  rev (trimStart (rev (trimStart s))).

(** Lower-casing of the ASCII letters.  The source calls [toLowerCase] only
    on text matched by ASCII alternatives of a regular expression, and
    before looking for the ASCII word [error]; no code unit outside ASCII
    lower-cases to a letter of that word, so the two agree there. *)
Definition lower (c : Z) : Z :=
  if (65 <=? c) && (c <=? 90) then c + 32 else c.

Definition toLowerCase (s : jsstring) : jsstring := map lower s.

Fixpoint startsWith (p s : jsstring) : bool :=
  match p, s with
  | [], _ => true
  | a :: p', b :: s' => (a =? b) && startsWith p' s'
  | _ :: _, [] => false
  end.

Definition endsWith (p s : jsstring) : bool := startsWith (rev p) (rev s).

(** [s.includes(p)] *)
Fixpoint includes (p s : jsstring) : bool :=
  startsWith p s || match s with [] => false | _ :: s' => includes p s' end.

(** [s.substring(a, b)] for [a <= b]. *)
Definition substring (a b : nat) (s : jsstring) : jsstring :=
  firstn (b - a) (skipn a s).

(** [l.slice(-n)]: the last [n] elements. *)
Definition slice_last {A} (n : nat) (l : list A) : list A :=
  skipn (List.length l - n) l.

(** The decimal digits of a natural number, as [String(n)] prints them. *)
Fixpoint digits_fuel (fuel : nat) (n : Z) (acc : jsstring) : jsstring :=
  match fuel with
  | O => acc
  | S f =>
      let acc' := (48 + n mod 10) :: acc in
      if n <? 10 then acc' else digits_fuel f (n / 10) acc'
  end.

Definition string_of_Z (n : Z) : jsstring :=
  digits_fuel (S (Z.to_nat (Z.log2 n))) n [].

(** [parseInt] on a non-empty run of decimal digits. *)
Definition parseInt (ds : jsstring) : Z :=
  fold_left (fun acc d => acc * 10 + (d - 48)) ds 0.

(** ** Regular expressions

    The fragment of JavaScript regular expressions the source uses, with the
    backtracking semantics of the language: alternatives are tried left to
    right, a greedy quantifier tries the longest repetition first and a lazy
    one the shortest, and the first complete match wins.  Every starred
    sub-expression of the source is a single character class. *)

Inductive regex : Type :=
| Chr (c : Z)                            (* a literal character *)
| Cls (p : Z -> bool)                    (* a class: [\d], [\s], [[...]], [.] *)
| Seq (r1 r2 : regex)
| Alt (r1 r2 : regex)
| Opt (r : regex)                        (* [r?], greedy *)
| Star (greedy : bool) (p : Z -> bool)   (* [p*] and [p*?] *)
| Group (n : nat) (r : regex)            (* the [n]-th capturing group *)
| Bol                                    (* [^] *)
| Eol.                                   (* [$] *)

(** [p+] and [p+?] *)
Definition Plus (greedy : bool) (p : Z -> bool) : regex :=
  Seq (Cls p) (Star greedy p).

(** A literal word. *)
Fixpoint Lit (w : jsstring) : regex :=
  match w with
  | [] => Opt (Cls (fun _ => false))
  | [c] => Chr c
  | c :: w' => Seq (Chr c) (Lit w')
  end.

Definition Word (w : string) : regex := Lit (js w).

(** [(w1|w2|...)] without the group. *)
Fixpoint Alts (rs : list regex) : regex :=
  match rs with
  | [] => Cls (fun _ => false)
  | [r] => r
  | r :: rs' => Alt r (Alts rs')
  end.

(** Canonicalisation under the [i] flag.  The patterns of the source are
    ASCII; a code unit outside ASCII never canonicalises into ASCII, so
    folding the ASCII letters is exact for them. *)
Definition canon (ci : bool) (c : Z) : Z :=
  if ci && (97 <=? c) && (c <=? 122) then c - 32 else c.

(** Captures: group number, start and end offsets in the input. *)
Definition captures := list (nat * (nat * nat)).

Definition orelse {A} (a b : option A) : option A :=
  match a with Some _ => a | None => b end.

(** The repetition of a class [p] from offset [pos] on, followed by [k]:
    greedy, it tries one more character first and backs off to [k];
    lazy, it tries [k] first. *)
Fixpoint star_loop {R} (greedy : bool) (p : Z -> bool)
    (k : jsstring -> nat -> option R) (s : jsstring) (pos : nat) : option R :=
  match s with
  | d :: s' =>
      if p d then
        if greedy then orelse (star_loop greedy p k s' (S pos)) (k s pos)
        else orelse (k s pos) (star_loop greedy p k s' (S pos))
      else k s pos
  | [] => k s pos
  end.

(** [rmatch ci r s pos cs k]: match [r] at offset [pos], where [s] is the
    rest of the input, then continue with [k]. *)
Fixpoint rmatch {R} (ci : bool) (r : regex) (s : jsstring) (pos : nat)
    (cs : captures) (k : jsstring -> nat -> captures -> option R) : option R :=
  match r with
  | Chr c =>
      match s with
      | d :: s' => if canon ci c =? canon ci d then k s' (S pos) cs else None
      | [] => None
      end
  | Cls p =>
      match s with
      | d :: s' => if p d then k s' (S pos) cs else None
      | [] => None
      end
  | Seq r1 r2 =>
      rmatch ci r1 s pos cs (fun s' pos' cs' => rmatch ci r2 s' pos' cs' k)
  | Alt r1 r2 => orelse (rmatch ci r1 s pos cs k) (rmatch ci r2 s pos cs k)
  | Opt r1 => orelse (rmatch ci r1 s pos cs k) (k s pos cs)
  | Star greedy p => star_loop greedy p (fun s' pos' => k s' pos' cs) s pos
  | Group n r1 =>
      rmatch ci r1 s pos cs (fun s' pos' cs' => k s' pos' ((n, (pos, pos')) :: cs'))
  | Bol => if Nat.eqb pos 0 then k s pos cs else None
  | Eol => match s with [] => k s pos cs | _ :: _ => None end
  end.

(** A match: offsets of the whole match and the captures. *)
Record rmatch_result := { m_start : nat; m_end : nat; m_caps : captures }.

Definition match_at (ci : bool) (r : regex) (s : jsstring) (pos : nat)
  : option rmatch_result :=
  rmatch ci r s pos []
    (fun _ e cs => Some {| m_start := pos; m_end := e; m_caps := cs |}).

(** The leftmost match at or after [pos]; [s] is the input from [pos] on. *)
Fixpoint search (ci : bool) (r : regex) (s : jsstring) (pos : nat)
  : option rmatch_result :=
  match match_at ci r s pos with
  | Some m => Some m
  | None =>
      match s with
      | [] => None
      | _ :: s' => search ci r s' (S pos)
      end
  end.

(** [re.exec(s)] / [s.match(re)] without the [g] flag. *)
Definition regex_exec (ci : bool) (r : regex) (s : jsstring) : option rmatch_result :=
  search ci r s 0.

(** [re.test(s)] *)
Definition regex_test (ci : bool) (r : regex) (s : jsstring) : bool :=
  match regex_exec ci r s with Some _ => true | None => false end.

Fixpoint lookup_cap (n : nat) (cs : captures) : option (nat * nat) :=
  match cs with
  | [] => None
  | (m, se) :: cs' => if Nat.eqb n m then Some se else lookup_cap n cs'
  end.

(** [match[n]]: the text of group [n], [undefined] when it took no part. *)
Definition group (s : jsstring) (m : rmatch_result) (n : nat) : option jsstring :=
  match lookup_cap n (m_caps m) with
  | Some (a, b) => Some (substring a b s)
  | None => None
  end.

(** [match[0]] *)
Definition matched (s : jsstring) (m : rmatch_result) : jsstring :=
  substring (m_start m) (m_end m) s.

(** All the matches of a global regular expression, left to right, as the
    loop [while ((m = re.exec(s)) !== null)] and [replace] with the [g] flag
    visit them.  After an empty match the scan moves one character on. *)
Fixpoint matches_from (fuel : nat) (ci : bool) (r : regex) (s : jsstring)
    (pos : nat) : list rmatch_result :=
  match fuel with
  | O => []
  | S f =>
      match search ci r s pos with
      | None => []
      | Some m =>
          let e := if Nat.eqb (m_end m) (m_start m) then S (m_end m) else m_end m in
          m :: matches_from f ci r (skipn (e - pos) s) e
      end
  end.

Definition regex_matches (ci : bool) (r : regex) (s : jsstring) : list rmatch_result :=
  matches_from (S (List.length s)) ci r s 0.

(** The input with the matches [ms] (at or after [pos]) cut out. *)
Fixpoint cut_out (s : jsstring) (pos : nat) (ms : list rmatch_result) : jsstring :=
  match ms with
  | [] => skipn pos s
  | m :: ms' => substring pos (m_start m) s ++ cut_out s (m_end m) ms'
  end.

(** [s.replace(re, "")] with the [g] flag. *)
Definition remove_all (ci : bool) (r : regex) (s : jsstring) : jsstring :=
  cut_out s 0 (regex_matches ci r s).

(** [s.replace(re, "")] without the [g] flag. *)
Definition remove_first (ci : bool) (r : regex) (s : jsstring) : jsstring :=
  match regex_exec ci r s with
  | None => s
  | Some m => cut_out s 0 [m]
  end.

(** What a match of [r] looks like, whatever the order in which the
    alternatives were tried: [den ci r s1 s2] says that [r] can match the
    text [s1] when [s2] is what follows it in the input. *)
Fixpoint den (ci : bool) (r : regex) (s1 s2 : jsstring) : Prop :=
  match r with
  | Chr c => exists d, s1 = [d] /\ canon ci c = canon ci d
  | Cls p => exists d, s1 = [d] /\ p d = true
  | Seq a b => exists x y, s1 = x ++ y /\ den ci a x (y ++ s2) /\ den ci b y s2
  | Alt a b => den ci a s1 s2 \/ den ci b s1 s2
  | Opt a => den ci a s1 s2 \/ s1 = []
  | Star _ p => Forall (fun d => p d = true) s1
  | Group _ a => den ci a s1 s2
  | Bol => s1 = []
  | Eol => s1 = [] /\ s2 = []
  end.

(** Regular expressions made of literal characters, without classes and
    stars, match finitely many words up to the case of letters: [lang r]
    lists them, canonicalised. *)
Fixpoint simple (r : regex) : bool :=
  match r with
  | Chr _ | Bol | Eol => true
  | Seq a b | Alt a b => simple a && simple b
  | Opt a | Group _ a => simple a
  | Cls _ | Star _ _ => false
  end.

Fixpoint lang (r : regex) : list jsstring :=
  match r with
  | Chr c => [[canon true c]]
  | Seq a b => flat_map (fun x => map (app x) (lang b)) (lang a)
  | Alt a b => lang a ++ lang b
  | Opt a => lang a ++ [[]]
  | Group _ a => lang a
  | Bol | Eol => [[]]
  | Cls _ | Star _ _ => []
  end.

(** Every match of [r] ends at the end of the input. *)
Fixpoint ends_with_eol (r : regex) : bool :=
  match r with
  | Eol => true
  | Seq _ b => ends_with_eol b
  | Alt a b => ends_with_eol a && ends_with_eol b
  | Group _ a => ends_with_eol a
  | _ => false
  end.

Fixpoint Seqs (rs : list regex) : regex :=
  match rs with
  | [] => Opt (Cls (fun _ => false))
  | [r] => r
  | r :: rs' => Seq r (Seqs rs')
  end.

Definition OptChr (c : string) : regex := Opt (Word c).

(** ** The confirmation and cancellation grammars *)

(** [/^(yes|yeah|yep|yup|sure|ok|okay|do it|send it|confirm|go ahead|please|y)\.?!?$/i] *)
Definition re_confirmation : regex :=
  Seqs [Bol;
        Group 1 (Alts (map Word
          ["yes"; "yeah"; "yep"; "yup"; "sure"; "ok"; "okay"; "do it";
           "send it"; "confirm"; "go ahead"; "please"; "y"]%string));
        OptChr "."; OptChr "!"; Eol].

(** [/^(no|nope|cancel|stop|don't|nevermind|never mind|abort|n)\.?!?$/i] *)
Definition re_cancellation : regex :=
  Seqs [Bol;
        Group 1 (Alts (map Word
          ["no"; "nope"; "cancel"; "stop"; "don't"; "nevermind";
           "never mind"; "abort"; "n"]%string));
        OptChr "."; OptChr "!"; Eol].

(** The words of the two grammars, in upper case. *)
Definition confirmation_words : list jsstring :=
  Eval vm_compute in lang re_confirmation.

Definition cancellation_words : list jsstring :=
  Eval vm_compute in lang re_cancellation.

Definition isConfirmation (message : jsstring) : bool :=
  regex_test true re_confirmation (trim message).

Definition isCancellation (message : jsstring) : bool :=
  regex_test true re_cancellation (trim message).

(** ** The temporal parser: [parseWhen] *)

(** [[\d\*\/\-\,]] *)
Definition is_cron_char (c : Z) : bool :=
  is_digit c || one_of [42; 47; 45; 44] c.

(** [/^[\d\*\/\-\,]+\s+[\d\*\/\-\,]+\s+[\d\*\/\-\,]+\s+[\d\*\/\-\,]+\s+[\d\*\/\-\,]+$/] *)
Definition re_cron : regex :=
  Seqs [Bol;
        Plus true is_cron_char; Plus true is_space;
        Plus true is_cron_char; Plus true is_space;
        Plus true is_cron_char; Plus true is_space;
        Plus true is_cron_char; Plus true is_space;
        Plus true is_cron_char; Eol].

(** The tail shared by the daily and the weekday forms (in these comments
    a star before a closing parenthesis is followed by a space):
    [\s*(?:at\s* )?(\d{1,2})(?::(\d{2}))?\s*(am|pm)?] *)
Definition re_at_time : list regex :=
  [Star true is_space;
   Opt (Seq (Word "at") (Star true is_space));
   Group 1 (Seq (Cls is_digit) (Opt (Cls is_digit)));
   Opt (Seq (Word ":") (Group 2 (Seq (Cls is_digit) (Cls is_digit))));
   Star true is_space;
   Opt (Group 3 (Alt (Word "am") (Word "pm")))].

(** [/every\s*day\s*(?:at\s* )?(\d{1,2})(?::(\d{2}))?\s*(am|pm)?/i] *)
Definition re_daily : regex :=
  Seqs ([Word "every"; Star true is_space; Word "day"] ++ re_at_time).

(** [/every\s*hour/i], [/every\s*morning/i], [/every\s*evening/i] *)
Definition re_every (w : string) : regex :=
  Seqs [Word "every"; Star true is_space; Word w].

(** [/every\s*(\d+)\s*hours?/i] *)
Definition re_every_hours : regex :=
  Seqs [Word "every"; Star true is_space; Group 1 (Plus true is_digit);
        Star true is_space; Word "hour"; OptChr "s"].

(** [/every\s*weekday\s*(?:at\s* )?(\d{1,2})(?::(\d{2}))?\s*(am|pm)?/i] *)
Definition re_weekday : regex :=
  Seqs ([Word "every"; Star true is_space; Word "weekday"] ++ re_at_time).

(** [/in\s+(\d+)\s*(second|minute|hour|day)s?/i] *)
Definition re_relative : regex :=
  Seqs [Word "in"; Plus true is_space; Group 1 (Plus true is_digit);
        Star true is_space;
        Group 2 (Alts (map Word ["second"; "minute"; "hour"; "day"]%string));
        OptChr "s"].

(** What [parseWhen] returns: a cron string, or a [Date].  [WDate t] is the
    object [new Date(v)] for the number [v] that the source computes where
    the embedding computes the integer [t].  When [t] lies in the range of
    [Date] the two agree and the date is the instant [t]; when it does not,
    [v] lies outside the range as well and the date is an Invalid Date,
    whatever [t] is (see [getTime]).  This is so for a clock that reads a
    time after the epoch: the numbers of the source are then exact up to
    the end of the range, below 2^53, and nothing it computes from a sum
    beyond the range falls back into it. *)
Inductive When : Type :=
| WCron (cron : jsstring)
| WDate (t : Z).

Definition MAX_DATE : Z := 8640000000000000.

(** [d.getTime()], [None] for [NaN]. *)
Definition getTime (t : Z) : option Z :=
  if Z.abs t <=? MAX_DATE then Some t else None.

Definition group_text (s : jsstring) (m : rmatch_result) (n : nat) : jsstring :=
  match group s m n with Some g => g | None => [] end.

(** [m[n]?.toLowerCase() === w] *)
Definition group_is (s : jsstring) (m : rmatch_result) (n : nat) (w : string) : bool :=
  match group s m n with
  | Some g => str_eqb (toLowerCase g) (js w)
  | None => false
  end.

(** [m[2] ? parseInt(m[2]) : 0] *)
Definition minute_of (s : jsstring) (m : rmatch_result) : Z :=
  match group s m 2 with
  | Some (c :: g) => parseInt (c :: g)
  | _ => 0
  end.

(** [mult[unit]] *)
Definition mult (unit : jsstring) : Z :=
  if str_eqb unit (js "second") then 1000
  else if str_eqb unit (js "minute") then 60000
  else if str_eqb unit (js "hour") then 3600000
  else 86400000.

(** The units of the relative form. *)
Definition time_units : list jsstring :=
  [js "second"; js "minute"; js "hour"; js "day"].

(** The units with their lengths in milliseconds. *)
Definition unit_lengths : list (jsstring * Z) :=
  [(js "second", 1000); (js "minute", 60 * 1000); (js "hour", 60 * 60 * 1000);
   (js "day", 24 * 60 * 60 * 1000)].

(** The instant a result of [parseWhen] stands for: the time value of a
    [Date] that is valid.  A cron expression and an Invalid Date stand for
    none. *)
Definition instant (w : When) : option Z :=
  match w with
  | WCron _ => None
  | WDate t => getTime t
  end.

Section ParseWhen.

(** [Date.parse] on free text is implementation-defined: it is a parameter.
    [None] is [NaN]. *)
Variable Date_parse : jsstring -> option Z.

Definition parseWhen (now : Z) (when : jsstring) : When :=
  (* Cron syntax *)
  if regex_test false re_cron (trim when) then WCron (trim when) else
  (* "every day at X" *)
  match regex_exec true re_daily when with
  | Some dailyMatch =>
      let hour := parseInt (group_text when dailyMatch 1) in
      let minute := minute_of when dailyMatch in
      let hour := if group_is when dailyMatch 3 "pm" && (hour <? 12) then hour + 12 else hour in
      let hour := if group_is when dailyMatch 3 "am" && (hour =? 12) then 0 else hour in
      WCron (string_of_Z minute ++ js " " ++ string_of_Z hour ++ js " * * *")
  | None =>
  if regex_test true (re_every "hour") when then WCron (js "0 * * * *") else
  if regex_test true (re_every "morning") when then WCron (js "0 7 * * *") else
  if regex_test true (re_every "evening") when then WCron (js "0 18 * * *") else
  match regex_exec true re_every_hours when with
  | Some everyHours =>
      WCron (js "0 */" ++ group_text when everyHours 1 ++ js " * * *")
  | None =>
  match regex_exec true re_weekday when with
  | Some weekday =>
      let hour := parseInt (group_text when weekday 1) in
      let minute := minute_of when weekday in
      let hour := if group_is when weekday 3 "pm" && (hour <? 12) then hour + 12 else hour in
      WCron (string_of_Z minute ++ js " " ++ string_of_Z hour ++ js " * * 1-5")
  | None =>
  (* "in X minutes/hours" *)
  match regex_exec true re_relative when with
  | Some relative =>
      WDate (now + parseInt (group_text when relative 1)
                   * mult (toLowerCase (group_text when relative 2)))
  | None =>
  match Date_parse when with
  | None => WDate (now + 60000)
  | Some parsed => WDate parsed
  end end end end end.

End ParseWhen.

(** ** Objects

    An object is the list of its own properties in the order in which
    [Object.entries], the spread [{...o}] and [JSON.stringify] visit them:
    the array indices first, in ascending order, then the other keys in
    the order of their creation. *)

(** An array index: the canonical decimal spelling of an integer below
    [2^32 - 1]. *)
Definition array_index (k : jsstring) : option Z :=
  match k with
  | [] => None
  | c :: r =>
      if forallb is_digit k
         && (negb (c =? 48) || Nat.eqb (List.length r) 0)
         && Nat.leb (List.length k) 10
         && (parseInt k <? 4294967295)
      then Some (parseInt k)
      else None
  end.

(** A new key [k] is listed before the own key [k']. *)
Definition key_before (k k' : jsstring) : bool :=
  match array_index k, array_index k' with
  | Some i, Some j => i <? j
  | Some _, None => true
  | None, _ => false
  end.

(** [k in o], for own properties. *)
Fixpoint obj_has {V} (k : jsstring) (o : list (jsstring * V)) : bool :=
  match o with
  | [] => false
  | (k', _) :: o' => str_eqb k k' || obj_has k o'
  end.

(** An own property takes a new value and keeps its place. *)
Fixpoint obj_replace {V} (k : jsstring) (v : V) (o : list (jsstring * V))
  : list (jsstring * V) :=
  match o with
  | [] => []
  | (k', v') :: o' =>
      if str_eqb k k' then (k, v) :: o' else (k', v') :: obj_replace k v o'
  end.

(** A new property takes its place: an array index among the indices, any
    other key last. *)
Fixpoint obj_insert {V} (k : jsstring) (v : V) (o : list (jsstring * V))
  : list (jsstring * V) :=
  match o with
  | [] => [(k, v)]
  | (k', v') :: o' =>
      if key_before k k' then (k, v) :: o else (k', v') :: obj_insert k v o'
  end.

(** [{...o, [k]: v}] and [o[k] = v]. *)
Definition obj_set {V} (k : jsstring) (v : V) (o : list (jsstring * V))
  : list (jsstring * V) :=
  if obj_has k o then obj_replace k v o else obj_insert k v o.

(** ** JSON values and [JSON.parse] *)

(** [JNum m e] is the number written [m * 10^e]. *)
#[warnings="-register-all"]
Inductive json : Type :=
| JNull
| JBool (b : bool)
| JNum (m e : Z)
| JStr (s : jsstring)
| JArr (l : list json)
| JObj (l : list (jsstring * json)).

(** A JavaScript value read out of JSON; [None] is [undefined]. *)
Definition jsval := option json.

Definition is_json_ws (c : Z) : bool :=
  (c =? 32) || (c =? 9) || (c =? 10) || (c =? 13).

Fixpoint skip_ws (s : jsstring) : jsstring :=
  match s with
  | c :: s' => if is_json_ws c then skip_ws s' else s
  | [] => []
  end.

Definition hex_digit (c : Z) : option Z :=
  if is_digit c then Some (c - 48)
  else if (97 <=? c) && (c <=? 102) then Some (c - 87)
  else if (65 <=? c) && (c <=? 70) then Some (c - 55)
  else None.

Definition hex4 (a b c d : Z) : option Z :=
  match hex_digit a, hex_digit b, hex_digit c, hex_digit d with
  | Some x, Some y, Some z, Some w => Some (((x * 16 + y) * 16 + z) * 16 + w)
  | _, _, _, _ => None
  end.

(** The characters of a string literal after its opening quote; [acc] holds
    the decoded characters, last first. *)
Fixpoint parse_string_body (s acc : jsstring) : option (jsstring * jsstring) :=
  match s with
  | [] => None
  | c :: r =>
      if c =? 34 then Some (rev acc, r)
      else if c =? 92 then
        match r with
        | [] => None
        | e :: r' =>
            if e =? 34 then parse_string_body r' (34 :: acc)
            else if e =? 92 then parse_string_body r' (92 :: acc)
            else if e =? 47 then parse_string_body r' (47 :: acc)
            else if e =? 98 then parse_string_body r' (8 :: acc)
            else if e =? 102 then parse_string_body r' (12 :: acc)
            else if e =? 110 then parse_string_body r' (10 :: acc)
            else if e =? 114 then parse_string_body r' (13 :: acc)
            else if e =? 116 then parse_string_body r' (9 :: acc)
            else if e =? 117 then
              match r' with
              | h1 :: h2 :: h3 :: h4 :: r'' =>
                  match hex4 h1 h2 h3 h4 with
                  | Some u => parse_string_body r'' (u :: acc)
                  | None => None
                  end
              | _ => None
              end
            else None
        end
      else if c <? 32 then None
      else parse_string_body r (c :: acc)
  end.

(** A maximal run of digits and what follows it. *)
Fixpoint span_digits (s : jsstring) : jsstring * jsstring :=
  match s with
  | c :: s' =>
      if is_digit c then let (ds, r) := span_digits s' in (c :: ds, r)
      else ([], s)
  | [] => ([], [])
  end.

(** A number literal: an optional minus sign, an integer part without a
    leading zero, an optional fraction and an optional exponent. *)
Definition parse_number (s : jsstring) : option (json * jsstring) :=
  let (neg, s1) := match s with 45 :: r => (true, r) | _ => (false, s) end in
  let (ip, s2) := span_digits s1 in
  match ip with
  | [] => None
  | d :: ip' =>
      if (d =? 48) && negb (Nat.eqb (List.length ip') 0) then None else
      let frac :=
        match s2 with
        | 46 :: r =>
            let (fp, s3) := span_digits r in
            match fp with [] => None | _ => Some (fp, s3) end
        | _ => Some ([], s2)
        end in
      match frac with
      | None => None
      | Some (fp, s3) =>
          let expo :=
            match s3 with
            | c :: r =>
                if (c =? 101) || (c =? 69) then
                  let (eneg, r1) :=
                    match r with
                    | 45 :: r' => (true, r')
                    | 43 :: r' => (false, r')
                    | _ => (false, r)
                    end in
                  let (ep, s4) := span_digits r1 in
                  match ep with
                  | [] => None
                  | _ => Some ((if eneg then - parseInt ep else parseInt ep), s4)
                  end
                else Some (0, s3)
            | [] => Some (0, s3)
            end in
          match expo with
          | None => None
          | Some (ex, s4) =>
              let m := parseInt (ip ++ fp) in
              Some (JNum (if neg then - m else m)
                         (ex - Z.of_nat (List.length fp)), s4)
          end
      end
  end.

Fixpoint parse_value (fuel : nat) (s : jsstring) : option (json * jsstring) :=
  match fuel with
  | O => None
  | S f =>
      let s := skip_ws s in
      if startsWith (js "null") s then Some (JNull, skipn 4 s)
      else if startsWith (js "true") s then Some (JBool true, skipn 4 s)
      else if startsWith (js "false") s then Some (JBool false, skipn 5 s)
      else
        match s with
        | [] => None
        | c :: r =>
            if c =? 34 then
              match parse_string_body r [] with
              | Some (str, r') => Some (JStr str, r')
              | None => None
              end
            else if c =? 91 then
              match skip_ws r with
              | 93 :: r' => Some (JArr [], r')
              | _ => parse_elements f r []
              end
            else if c =? 123 then
              match skip_ws r with
              | 125 :: r' => Some (JObj [], r')
              | _ => parse_members f r []
              end
            else parse_number s
        end
  end
with parse_elements (fuel : nat) (s : jsstring) (acc : list json)
  : option (json * jsstring) :=
  match fuel with
  | O => None
  | S f =>
      match parse_value f s with
      | None => None
      | Some (v, r) =>
          match skip_ws r with
          | 44 :: r' => parse_elements f r' (v :: acc)
          | 93 :: r' => Some (JArr (rev (v :: acc)), r')
          | _ => None
          end
      end
  end
with parse_members (fuel : nat) (s : jsstring) (acc : list (jsstring * json))
  : option (json * jsstring) :=
  (* [acc]: the members read so far; a repeated key overwrites *)
  match fuel with
  | O => None
  | S f =>
      match skip_ws s with
      | 34 :: r =>
          match parse_string_body r [] with
          | None => None
          | Some (key, r1) =>
              match skip_ws r1 with
              | 58 :: r2 =>
                  match parse_value f r2 with
                  | None => None
                  | Some (v, r3) =>
                      match skip_ws r3 with
                      | 44 :: r4 => parse_members f r4 (obj_set key v acc)
                      | 125 :: r4 => Some (JObj (obj_set key v acc), r4)
                      | _ => None
                      end
                  end
              | _ => None
              end
          end
      | _ => None
      end
  end.

(** [JSON.parse(text)]; [None] when it throws a [SyntaxError]. *)
Definition JSON_parse (text : jsstring) : option json :=
  match parse_value (S (2 * List.length text)) text with
  | Some (v, r) => match skip_ws r with [] => Some v | _ :: _ => None end
  | None => None
  end.

(** [o[k]] *)
Fixpoint obj_get (k : jsstring) (o : list (jsstring * json)) : jsval :=
  match o with
  | [] => None
  | (k', v) :: o' => if str_eqb k k' then Some v else obj_get k o'
  end.

(** [v.k] for a value [v] that is neither [null] nor [undefined]: only
    objects carry the properties the source reads. *)
Definition get_prop (v : json) (k : string) : jsval :=
  match v with
  | JObj o => obj_get (js k) o
  | _ => None
  end.

(** A number read by [JSON.parse] is zero when it rounds to zero: it is
    written with a zero mantissa or lies within 2^-1075 of zero. *)
Definition num_is_zero (m e : Z) : bool :=
  (m =? 0) || ((e <? 0) && (Z.abs m * 2 ^ 1075 <=? 10 ^ (- e))).

(** [Boolean(v)] *)
Definition truthy (v : jsval) : bool :=
  match v with
  | None => false
  | Some JNull => false
  | Some (JBool b) => b
  | Some (JNum m e) => negb (num_is_zero m e)
  | Some (JStr s) => negb (Nat.eqb (List.length s) 0)
  | Some (JArr _) => true
  | Some (JObj _) => true
  end.

(** ** Session state *)

Inductive Role : Type := user | assistant.

Record Message : Type := { role : Role; content : jsstring }.

Record PendingAction : Type := {
  pa_tool : jsstring;
  pa_args : list (jsstring * json);
  pa_context : jsstring;
  pa_originalRequest : jsstring
}.

Record RateLimit : Type := { count : Z; resetAt : Z }.

Inductive ScheduleType : Type := one_time | recurring.

(** The fields [tool], [args] and [description] come out of [JSON.parse]
    unchecked: they are kept as the values they are. *)
Record ScheduleRecord : Type := {
  sr_id : jsstring;
  sr_when : jsstring;
  sr_tool : jsval;
  sr_args : jsval;
  sr_description : jsval;
  sr_createdAt : Z;
  sr_type : ScheduleType
}.

Record SystemState : Type := {
  history : list Message;
  preferences : list (jsstring * jsval);
  lastActive : Z;
  pendingAction : option PendingAction;
  rateLimit : option RateLimit;
  scheduleRegistry : list ScheduleRecord
}.

Record ScheduledAction : Type := {
  sa_tool : jsval;
  sa_args : jsval;
  sa_description : jsval
}.

(** The agent's [initialState]; [t0] is [Date.now()] when the agent object
    was built. *)
Definition initialState (t0 : Z) : SystemState :=
  {| history := []; preferences := []; lastActive := t0;
     pendingAction := None; rateLimit := None; scheduleRegistry := [] |}.

Definition RATE_LIMIT : Z := 60.
Definition RATE_WINDOW : Z := 60 * 1000.

(** Functional record updates, [{...s, field: v}]. *)
Definition with_history (h : list Message) (s : SystemState) : SystemState :=
  {| history := h; preferences := preferences s; lastActive := lastActive s;
     pendingAction := pendingAction s; rateLimit := rateLimit s;
     scheduleRegistry := scheduleRegistry s |}.

Definition with_preferences (p : list (jsstring * jsval)) (s : SystemState) : SystemState :=
  {| history := history s; preferences := p; lastActive := lastActive s;
     pendingAction := pendingAction s; rateLimit := rateLimit s;
     scheduleRegistry := scheduleRegistry s |}.

Definition with_lastActive (t : Z) (s : SystemState) : SystemState :=
  {| history := history s; preferences := preferences s; lastActive := t;
     pendingAction := pendingAction s; rateLimit := rateLimit s;
     scheduleRegistry := scheduleRegistry s |}.

Definition with_pendingAction (p : option PendingAction) (s : SystemState) : SystemState :=
  {| history := history s; preferences := preferences s; lastActive := lastActive s;
     pendingAction := p; rateLimit := rateLimit s;
     scheduleRegistry := scheduleRegistry s |}.

Definition with_rateLimit (r : option RateLimit) (s : SystemState) : SystemState :=
  {| history := history s; preferences := preferences s; lastActive := lastActive s;
     pendingAction := pendingAction s; rateLimit := r;
     scheduleRegistry := scheduleRegistry s |}.

Definition with_scheduleRegistry (r : list ScheduleRecord) (s : SystemState) : SystemState :=
  {| history := history s; preferences := preferences s; lastActive := lastActive s;
     pendingAction := pendingAction s; rateLimit := rateLimit s;
     scheduleRegistry := r |}.

(** ** The rate limiter: [checkRateLimit] *)

Record RateCheck : Type := { allowed : bool; remaining : Z; resetIn : Z }.

(** [checkRateLimit()] with [now] the value [Date.now()] returned: the
    answer and the state after [setState]. *)
Definition checkRateLimit_at (now : Z) (st : SystemState) : RateCheck * SystemState :=
  let rl :=
    match rateLimit st with
    | None => {| count := 0; resetAt := now + RATE_WINDOW |}
    | Some rl =>
        if now >=? resetAt rl
        then {| count := 0; resetAt := now + RATE_WINDOW |}
        else rl
    end in
  let rl := {| count := count rl + 1; resetAt := resetAt rl |} in
  ({| allowed := count rl <=? RATE_LIMIT;
      remaining := Z.max 0 (RATE_LIMIT - count rl);
      resetIn := Z.max 0 (resetAt rl - now) |},
   with_rateLimit (Some rl) st).

(** The answers of successive calls made at the times [times]. *)
Fixpoint checkRateLimit_calls (times : list Z) (st : SystemState)
  : list RateCheck * SystemState :=
  match times with
  | [] => ([], st)
  | now :: times' =>
      let (r, st1) := checkRateLimit_at now st in
      let (rs, st2) := checkRateLimit_calls times' st1 in
      (r :: rs, st2)
  end.


(** ** The outside world *)

(** Every value the source throws is an [Error] object. *)
Record exn : Type := { exn_name : jsstring; exn_message : jsstring }.

Definition TypeError (msg : string) : exn :=
  {| exn_name := js "TypeError"; exn_message := js msg |}.

Definition Error (msg : jsstring) : exn :=
  {| exn_name := js "Error"; exn_message := msg |}.

(** What the bridge's [/execute] answers, after the source's casts. *)
Record BridgeResult : Type := {
  success : bool;
  result : option jsstring;
  error : option jsstring;
  image : option json
}.

Inductive BridgeOutcome : Type :=
| BridgeReply (data : BridgeResult)   (* [fetch] and [res.json()] succeed *)
| BridgeAbort                         (* the 30 s timer aborted the request *)
| BridgeFailure.                      (* anything else thrown *)

Inductive ClaudeOutcome : Type :=
| ClaudeReply (text : option jsstring) (* [response.ok]; [data.content[0]?.text] *)
| ClaudeStatus (status : Z)            (* [!response.ok] *)
| ClaudeFailure (e : exn).             (* [fetch] or [response.json()] throws *)

Record ActionResult : Type := {
  ar_tool : jsval;
  ar_args : jsval;
  ar_result : option jsstring;
  ar_success : bool;
  ar_image : option json
}.

Record ScheduledInfo : Type := {
  si_id : jsstring;
  si_when : jsval;
  si_description : jsval
}.

(** What [processChat] resolves to. *)
Record ChatResult : Type := {
  cr_message : jsstring;
  cr_action : option ActionResult;
  cr_actions : option (list ActionResult);
  cr_scheduled : option ScheduledInfo
}.

Inductive WSPayload : Type :=
| PNotification (title message : jsstring)
| PPong
| PChat (r : ChatResult)
| PScheduledResult (description tool args : jsval) (res : option jsstring)
    (ok : bool) (img : option json).

Inductive WSType : Type :=
| ws_notification | ws_scheduled_result | ws_bridge_status | ws_chat | ws_ping.

(** [timestamp] holds the clock value [new Date().toISOString()] prints. *)
Record WSMessage : Type := {
  ws_type : WSType;
  ws_payload : WSPayload;
  ws_timestamp : Z
}.

(** The calls the agent makes to the outside, in the order made. *)
Inductive Event : Type :=
| EvNow (t : Z)                                        (* [Date.now()], [new Date()] *)
| EvFetchTools                                         (* [GET /tools] on the bridge *)
| EvClaude (system : jsstring) (messages : list Message) (* the completion service *)
| EvBridge (tool args : jsval)                         (* [POST /execute] on the bridge *)
| EvSchedule (when : When) (payload : ScheduledAction) (* [this.schedule] *)
| EvCancelSchedule (id : jsstring)                     (* [this.cancelSchedule] *)
| EvSend (conn : nat) (msg : WSMessage).               (* [connection.send] *)

(** The answers of the outside; each may depend on everything that happened
    before (the trace, latest event first).  [fetch_tools] is the body of
    the bridge's answer to [GET /tools] as [res.json()] reads it, [None]
    when [fetch] or [res.json()] throws.  The last three fields are parts
    of the JavaScript runtime that the embedding leaves open: free-text
    date parsing, and the printing and comparison of numbers. *)
Record Env : Type := {
  clock : list Event -> Z;
  fetch_tools : list Event -> option json;
  claude : list Event -> jsstring -> list Message -> ClaudeOutcome;
  bridge : list Event -> jsval -> jsval -> BridgeOutcome;
  sdk_schedule : list Event -> When -> ScheduledAction -> exn + jsstring;
  socket_send : list Event -> nat -> WSMessage -> bool;
  API_SECRET : jsstring;
  Date_parse : jsstring -> option Z;
  Number_toString : Z -> Z -> jsstring;
  Number_eqb : Z -> Z -> Z -> Z -> bool
}.

(** ** The monad of the agent's methods *)

Record World : Type := {
  state : SystemState;
  connections : list nat;
  trace : list Event
}.

Inductive Outcome (A : Type) : Type :=
| Return (a : A)
| Throw (e : exn).
Arguments Return {A} a.
Arguments Throw {A} e.

Definition M (A : Type) : Type := World -> Outcome A * World.

Definition ret {A} (a : A) : M A := fun w => (Return a, w).

Definition bind {A B} (c : M A) (f : A -> M B) : M B :=
  fun w =>
    match c w with
    | (Return a, w') => f a w'
    | (Throw e, w') => (Throw e, w')
    end.

Definition throw {A} (e : exn) : M A := fun w => (Throw e, w).

(** [try { c } catch (e) { h e }] *)
Definition try_catch {A} (c : M A) (h : exn -> M A) : M A :=
  fun w =>
    match c w with
    | (Return a, w') => (Return a, w')
    | (Throw e, w') => h e w'
    end.

Declare Scope agent_scope.
Delimit Scope agent_scope with agent.
Notation "x <- c ;; k" := (bind c (fun x => k))
  (at level 61, c at next level, right associativity) : agent_scope.
Notation "c ;; k" := (bind c (fun _ => k))
  (at level 61, right associativity) : agent_scope.

(** [this.state] *)
Definition getState : M SystemState := fun w => (Return (state w), w).

(** [this.setState(s)] *)
Definition setState (s : SystemState) : M unit :=
  fun w => (Return tt, {| state := s; connections := connections w; trace := trace w |}).

Definition emit (e : Event) : M unit :=
  fun w => (Return tt, {| state := state w; connections := connections w;
                          trace := e :: trace w |}).

Definition getTrace : M (list Event) := fun w => (Return (trace w), w).

Definition getConnections : M (list nat) := fun w => (Return (connections w), w).

Definition setConnections (cs : list nat) : M unit :=
  fun w => (Return tt, {| state := state w; connections := cs; trace := trace w |}).

(** ** Pure computations that may throw *)

Definition and_then {A B} (x : exn + A) (f : A -> exn + B) : exn + B :=
  match x with
  | inl e => inl e
  | inr a => f a
  end.

Notation "x <-- c ;; k" := (and_then c (fun x => k))
  (at level 61, c at next level, right associativity) : agent_scope.

(** [l.map(f)], [l.filter(f)] and [l.some(f)]: the callback runs on the
    elements in order, and the first exception ends the loop. *)
Fixpoint map_throwing {A B} (f : A -> exn + B) (l : list A) : exn + list B :=
  match l with
  | [] => inr []
  | a :: l' =>
      and_then (f a) (fun b =>
      and_then (map_throwing f l') (fun bs => inr (b :: bs)))
  end.

Fixpoint filter_throwing {A} (f : A -> exn + bool) (l : list A) : exn + list A :=
  match l with
  | [] => inr []
  | a :: l' =>
      and_then (f a) (fun b =>
      and_then (filter_throwing f l') (fun r => inr (if b then a :: r else r)))
  end.

Fixpoint some_throwing {A} (f : A -> exn + bool) (l : list A) : exn + bool :=
  match l with
  | [] => inr false
  | a :: l' => and_then (f a) (fun b => if b then inr true else some_throwing f l')
  end.

(** A pure computation run inside a method. *)
Definition lift {A} (x : exn + A) : M A :=
  match x with
  | inl e => throw e
  | inr a => ret a
  end.

(** [l.join(sep)] *)
Fixpoint join (sep : jsstring) (l : list jsstring) : jsstring :=
  match l with
  | [] => []
  | x :: l' =>
      match l' with
      | [] => x
      | _ :: _ => x ++ sep ++ join sep l'
      end
  end.

(** ** Regular expressions of the chat flow *)

(** The fence of a directive block, [/```name\n?([\s\S]*?)\n?```/]. *)
Definition re_block (name : string) : regex :=
  Seqs [Word ("```" ++ name); Opt (Chr 10); Group 1 (Star false is_any);
        Opt (Chr 10); Word "```"].

(** [[\s\-\.]] *)
Definition is_sep (c : Z) : bool := is_space c || one_of [45; 46] c.

(** [/[\+]?1?[\s\-\.]?\(?\d{3}\)?[\s\-\.]?\d{3}[\s\-\.]?\d{4}/] *)
Definition re_phone : regex :=
  Seqs [OptChr "+"; OptChr "1"; Opt (Cls is_sep); OptChr "(";
        Cls is_digit; Cls is_digit; Cls is_digit; OptChr ")"; Opt (Cls is_sep);
        Cls is_digit; Cls is_digit; Cls is_digit; Opt (Cls is_sep);
        Cls is_digit; Cls is_digit; Cls is_digit; Cls is_digit].

(** [/[\s\-\.\(\)]/g] *)
Definition re_phone_noise : regex :=
  Cls (fun c => is_space c || one_of [45; 46; 40; 41] c).

(** A double or a single quote. *)
Definition is_quote (c : Z) : bool := one_of [34; 39] c.

(** [/(?:saying|say)\s+[quote]?(.+?)[quote]?$/i] and
    [/(?:that|to say)\s+[quote]?(.+?)[quote]?$/i] *)
Definition re_saying (w1 w2 : string) : regex :=
  Seqs [Alt (Word w1) (Word w2); Plus true is_space; Opt (Cls is_quote);
        Group 1 (Plus false is_dot); Opt (Cls is_quote); Eol].

Definition message_patterns : list regex :=
  [re_saying "saying" "say"; re_saying "that" "to say"].

(** [/^[quote]|[quote]$/g] *)
Definition re_outer_quotes : regex :=
  Alt (Seq Bol (Cls is_quote)) (Seq (Cls is_quote) Eol).

(** [/make\s*up|create|write|generate/i] *)
Definition re_make_up : regex :=
  Alts [Seqs [Word "make"; Star true is_space; Word "up"];
        Word "create"; Word "write"; Word "generate"].

(** [/\/schedules\/[^/]+$/] *)
Definition re_schedule_path : regex :=
  Seqs [Word "/schedules/"; Plus true (fun c => negb (c =? 47)); Eol].

(** [path.split('/').pop()] *)
Fixpoint last_segment_rev (r : jsstring) : jsstring :=
  match r with
  | [] => []
  | c :: r' => if c =? 47 then [] else c :: last_segment_rev r'
  end.

Definition last_segment (path : jsstring) : jsstring :=
  rev (last_segment_rev (rev path)).

(** The well-formed action directives of a completion, in order: the body of
    each [action] block that [JSON.parse] accepts and whose [tool] is truthy. *)
Definition parse_action (content : jsstring) (m : rmatch_result) : list json :=
  match JSON_parse (group_text content m 1) with
  | Some action => if truthy (get_prop action "tool") then [action] else []
  | None => []
  end.

Definition parse_actions (content : jsstring) : list json :=
  flat_map (parse_action content) (regex_matches false (re_block "action") content).

Definition show_opt (o : option jsstring) : jsstring :=
  match o with Some s => s | None => js "undefined" end.

(** [text || "Done!"] *)
Definition or_done (text : jsstring) : jsstring :=
  match text with [] => js "Done!" | _ => text end.

Record ParsedResponse : Type := {
  pr_text : jsstring;
  pr_actions : list json;
  pr_schedule : jsval
}.

(** ** The text of the system prompt

    The template of [buildSystemPrompt], line by line. *)

(** The lines of the prompt up to the preferences. *)
Definition prompt_head : list jsstring :=
  [js "You are SYSTEM, a personal AI assistant that controls a Mac remotely. Be helpful and concise.";
   [];
   js "USER PREFERENCES:";
   []].

(** The lines between the preferences and the tools. *)
Definition prompt_middle : list jsstring :=
  [[];
   [];
   js "AVAILABLE TOOLS:";
   []].

(** The lines after the tools. *)
Definition prompt_tail : list jsstring :=
  [[];
   [];
   js "IMPORTANT: For Raycast extensions, use the EXACT tool name from the list above (like "
    ++ dquote ++ js "slack_send_message" ++ dquote ++ js ", " ++ dquote
    ++ js "linear_create_issue" ++ dquote ++ js "). Do NOT use the generic " ++ dquote
    ++ js "raycast" ++ dquote ++ js " tool - use the specific extension tools instead.";
   [];
   js "===== QUICK REFERENCE =====";
   [];
   js "MUSIC: music_play, music_pause, music_next, music_previous, music_current";
   js "VOLUME: volume_up, volume_down, volume_set, volume_mute, volume_get";
   js "MESSAGING (iMessage/SMS):";
   js "  " ++ [9888; 65039] ++ js " ONLY way to send messages: use search_contacts tool";
   js "  " ++ [9888; 65039]
    ++ js " NEVER use applescript to send messages - it won't work!";
   js "  ";
   js "  Flow:";
   js "  1. If user uses a nickname (wife, mom, boss), check USER PREFERENCES for the real name";
   js "  2. Call search_contacts with the real name AND the message to send";
   js "  3. System handles confirmation and sending automatically";
   js "  ";
   js "  IMPORTANT: Rewrite the message from the sender's perspective!";
   js "  - " ++ dquote ++ js "tell her I love her" ++ dquote ++ js " " ++ [8594]
    ++ js " " ++ dquote ++ js "I love you" ++ dquote
    ++ js " (speaking TO her, not about her)";
   js "  - " ++ dquote ++ js "let him know I'm running late" ++ dquote ++ js " "
    ++ [8594] ++ js " " ++ dquote ++ js "I'm running late" ++ dquote;
   js "  - " ++ dquote ++ js "ask her if she wants dinner" ++ dquote ++ js " " ++ [8594]
    ++ js " " ++ dquote ++ js "Do you want dinner?" ++ dquote;
   js "  ";
   js "  Example: " ++ dquote ++ js "text my wife and tell her I love her" ++ dquote;
   js "  - Check USER PREFERENCES: wife -> (stored name)";
   js "  - Rewrite message for recipient: " ++ dquote ++ js "I love you" ++ dquote;
   js "  - Call: {" ++ dquote ++ js "tool" ++ dquote ++ js ": " ++ dquote
    ++ js "search_contacts" ++ dquote ++ js ", " ++ dquote ++ js "args" ++ dquote
    ++ js ": {" ++ dquote ++ js "query" ++ dquote ++ js ": " ++ dquote ++ js "(name)"
    ++ dquote ++ js ", " ++ dquote ++ js "message" ++ dquote ++ js ": " ++ dquote
    ++ js "I love you" ++ dquote ++ js "}}";
   js "CALENDAR: calendar_today, calendar_upcoming, calendar_next, calendar_create";
   js "REMINDERS: reminders_list, reminders_create, reminders_complete";
   js "SYSTEM: battery_status, wifi_status, storage_status, running_apps, front_app";
   js "DISPLAY: brightness_set, dark_mode_toggle, dark_mode_status, dnd_toggle";
   js "SCREEN: lock_screen, sleep_display, sleep_mac";
   js "NOTES: notes_list, notes_search, notes_create, notes_read, notes_append";
   js "FILES: finder_search, finder_downloads, finder_desktop, finder_reveal, finder_trash";
   js "SHORTCUTS: shortcut_run, shortcut_list";
   js "BROWSER: browser_url, browser_tabs";
   js "APPS: open_app, open_url";
   js "OTHER: screenshot, notify, say, clipboard_get, clipboard_set";
   [];
   js "===== ACTION FORMAT =====";
   [];
   js "```action";
   js "{" ++ dquote ++ js "tool" ++ dquote ++ js ": " ++ dquote ++ js "music_play"
    ++ dquote ++ js ", " ++ dquote ++ js "args" ++ dquote ++ js ": {" ++ dquote
    ++ js "query" ++ dquote ++ js ": " ++ dquote ++ js "Resonance" ++ dquote ++ js "}}";
   js "```";
   [];
   js "Multiple actions (separate blocks):";
   js "```action";
   js "{" ++ dquote ++ js "tool" ++ dquote ++ js ": " ++ dquote ++ js "open_app"
    ++ dquote ++ js ", " ++ dquote ++ js "args" ++ dquote ++ js ": {" ++ dquote
    ++ js "name" ++ dquote ++ js ": " ++ dquote ++ js "Chrome" ++ dquote ++ js "}}";
   js "```";
   js "```action";
   js "{" ++ dquote ++ js "tool" ++ dquote ++ js ": " ++ dquote ++ js "battery_status"
    ++ dquote ++ js ", " ++ dquote ++ js "args" ++ dquote ++ js ": {}}";
   js "```";
   [];
   js "Raycast extensions with arguments:";
   js "```action";
   js "{" ++ dquote ++ js "tool" ++ dquote ++ js ": " ++ dquote
    ++ js "linear_create_issue_for_myself" ++ dquote ++ js ", " ++ dquote ++ js "args"
    ++ dquote ++ js ": {" ++ dquote ++ js "title" ++ dquote ++ js ": " ++ dquote
    ++ js "Fix the bug" ++ dquote ++ js "}}";
   js "```";
   js "```action";
   js "{" ++ dquote ++ js "tool" ++ dquote ++ js ": " ++ dquote
    ++ js "spotify_player_justPlay" ++ dquote ++ js ", " ++ dquote ++ js "args" ++ dquote
    ++ js ": {" ++ dquote ++ js "query" ++ dquote ++ js ": " ++ dquote
    ++ js "Bohemian Rhapsody" ++ dquote ++ js "}}";
   js "```";
   [];
   js "===== SCHEDULING =====";
   [];
   js "For future tasks, use schedule blocks (not action blocks):";
   [];
   js "```schedule";
   js "{" ++ dquote ++ js "when" ++ dquote ++ js ": " ++ dquote ++ js "in 5 minutes"
    ++ dquote ++ js ", " ++ dquote ++ js "tool" ++ dquote ++ js ": " ++ dquote
    ++ js "notify" ++ dquote ++ js ", " ++ dquote ++ js "args" ++ dquote ++ js ": {"
    ++ dquote ++ js "message" ++ dquote ++ js ": " ++ dquote ++ js "Hi" ++ dquote
    ++ js "}, " ++ dquote ++ js "description" ++ dquote ++ js ": " ++ dquote
    ++ js "Reminder" ++ dquote ++ js "}";
   js "```";
   [];
   js "```schedule";
   js "{" ++ dquote ++ js "when" ++ dquote ++ js ": " ++ dquote ++ js "every day at 5pm"
    ++ dquote ++ js ", " ++ dquote ++ js "tool" ++ dquote ++ js ": " ++ dquote
    ++ js "music_play" ++ dquote ++ js ", " ++ dquote ++ js "args" ++ dquote ++ js ": {"
    ++ dquote ++ js "query" ++ dquote ++ js ": " ++ dquote ++ js "chill" ++ dquote
    ++ js "}, " ++ dquote ++ js "description" ++ dquote ++ js ": " ++ dquote
    ++ js "Daily music" ++ dquote ++ js "}";
   js "```";
   [];
   js "Supported: " ++ dquote ++ js "in X minutes/hours" ++ dquote ++ js ", " ++ dquote
    ++ js "every day at Xpm" ++ dquote ++ js ", " ++ dquote ++ js "every morning/evening"
    ++ dquote ++ js ", " ++ dquote ++ js "every hour" ++ dquote ++ js ", " ++ dquote
    ++ js "every weekday at X" ++ dquote ++ js ", cron syntax";
   [];
   js "===== PREFERENCES =====";
   js "```preference";
   js "{" ++ dquote ++ js "key" ++ dquote ++ js ": " ++ dquote ++ js "name" ++ dquote
    ++ js ", " ++ dquote ++ js "value" ++ dquote ++ js ": " ++ dquote ++ js "value"
    ++ dquote ++ js "}";
   js "```";
   [];
   js "Be brief. Don't explain - just do it."].

(** The template with its three holes filled. *)
Definition prompt_text (prefs coreDesc extDesc : jsstring) : jsstring :=
  join [10] prompt_head ++ prefs ++ join [10] prompt_middle
  ++ coreDesc ++ extDesc ++ join [10] prompt_tail.

(** ** The tools offered to the completion service *)

Record Tool : Type := {
  tool_name : jsstring;
  tool_description : jsstring;
  tool_inputSchema : option json
}.

Definition core_prefixes : list jsstring :=
  map js ["music_"; "volume_"; "calendar_"; "reminders_"; "battery_"; "wifi_";
          "storage_"; "running_"; "front_"; "brightness_"; "dark_mode_"; "dnd_";
          "lock_"; "sleep_"; "notes_"; "finder_"; "shortcut_"; "browser_";
          "clipboard_"; "search_"]%string.

(** The filter of [coreTools] in [buildSystemPrompt]. *)
Definition is_core_tool (t : Tool) : bool :=
  negb (str_eqb (tool_name t) (js "send_imessage"))
  && (negb (includes (js "_") (tool_name t))
      || existsb (fun p => startsWith p (tool_name t)) core_prefixes).

Definition coreTools (tools : list Tool) : list Tool := filter is_core_tool tools.

(** The filter of [extensionTools].  [coreTools.includes(t)] looks for the
    object [t] itself among the objects that passed the first filter: it
    holds exactly when [t] passed it. *)
Definition extensionTools (tools : list Tool) : list Tool :=
  filter (fun t => negb (is_core_tool t)
                   && includes (js "_") (tool_name t)
                   && negb (str_eqb (tool_name t) (js "send_imessage"))) tools.

(** ** The agent *)

Section Agent.

Variable E : Env.

Local Open Scope agent_scope.

(** [String(v)], as template literals and property keys apply it.  An
    array is converted by [join], which converts its elements in turn.  An
    object read from JSON inherits [toString] from [Object.prototype] and
    prints as [[object Object]], unless it has an own property [toString]:
    that one is not callable, [valueOf] does not give a primitive either,
    and the conversion throws. *)
Fixpoint ToString_json (v : json) : exn + jsstring :=
  match v with
  | JNull => inr (js "null")
  | JBool true => inr (js "true")
  | JBool false => inr (js "false")
  | JNum m e => inr (Number_toString E m e)
  | JStr s => inr s
  | JArr l =>
      (fix join_elements (l : list json) : exn + jsstring :=
         match l with
         | [] => inr []
         | x :: l' =>
             and_then (match x with JNull => inr [] | _ => ToString_json x end)
               (fun sx =>
                  match l' with
                  | [] => inr sx
                  | _ :: _ =>
                      and_then (join_elements l') (fun r => inr (sx ++ js "," ++ r))
                  end)
         end) l
  | JObj o =>
      if obj_has (js "toString") o
      then inl (TypeError "Cannot convert object to primitive value")
      else inr (js "[object Object]")
  end.

Definition ToString (v : jsval) : exn + jsstring :=
  match v with
  | None => inr (js "undefined")
  | Some j => ToString_json j
  end.

(** [a === b]; the two sides are never the same object. *)
Definition strict_eq (a b : jsval) : bool :=
  match a, b with
  | None, None => true
  | Some JNull, Some JNull => true
  | Some (JBool x), Some (JBool y) => Bool.eqb x y
  | Some (JNum m e), Some (JNum m' e') => Number_eqb E m e m' e'
  | Some (JStr x), Some (JStr y) => str_eqb x y
  | _, _ => false
  end.

(** The pending action still lacks its text:
    [pending.args.message === '' && pending.tool === 'send_imessage']. *)
Definition awaiting_clarification (pending : PendingAction) : bool :=
  strict_eq (obj_get (js "message") (pa_args pending)) (Some (JStr []))
  && str_eqb (pa_tool pending) (js "send_imessage").

(** [v.k]: reading a property of [null] throws. *)
Definition read_prop (v : json) (k : string) : exn + jsval :=
  match v with
  | JNull => inl (TypeError ("Cannot read properties of null (reading '" ++ k ++ "')"))
  | _ => inr (get_prop v k)
  end.

(** [v.includes(p)] for a string [p]: a method of strings and of arrays,
    missing from every other value. *)
Definition js_includes (receiver : string) (v : jsval) (p : jsstring) : exn + bool :=
  match v with
  | Some (JStr s) => inr (includes p s)
  | Some (JArr l) =>
      inr (existsb (fun x => match x with JStr s => str_eqb s p | _ => false end) l)
  | None => inl (TypeError "Cannot read properties of undefined (reading 'includes')")
  | Some JNull => inl (TypeError "Cannot read properties of null (reading 'includes')")
  | Some _ => inl (TypeError (receiver ++ ".includes is not a function"))
  end.

(** [v.startsWith(p)]: a method of strings only. *)
Definition js_startsWith (receiver : string) (v : jsval) (p : jsstring) : exn + bool :=
  match v with
  | Some (JStr s) => inr (startsWith p s)
  | None => inl (TypeError "Cannot read properties of undefined (reading 'startsWith')")
  | Some JNull => inl (TypeError "Cannot read properties of null (reading 'startsWith')")
  | Some _ => inl (TypeError (receiver ++ ".startsWith is not a function"))
  end.

(** ** The system prompt: [buildSystemPrompt]

    The tools are what the bridge listed, unchecked: an entry may be any
    JSON value, and so may its fields. *)

(** [tools.filter]: only an array has the method. *)
Definition tool_entries (tools : json) : exn + list json :=
  match tools with
  | JArr l => inr l
  | _ => inl (TypeError "tools.filter is not a function")
  end.

(** [name !== 'send_imessage'] *)
Definition not_send_imessage (name : jsval) : bool :=
  negb (strict_eq name (Some (JStr (js "send_imessage")))).

(** The callback of the filter of [coreTools]. *)
Definition is_core (t : json) : exn + bool :=
  name <-- read_prop t "name" ;;
  if not_send_imessage name then
    underscore <-- js_includes "t.name" name (js "_") ;;
    if negb underscore then inr true
    else some_throwing (js_startsWith "t.name" name) core_prefixes
  else inr false.

(** The callback of the filter of [extensionTools].  [coreTools.includes(t)]
    looks for the object [t] itself among the objects that passed the first
    filter: it holds exactly when [t] passed it. *)
Definition is_extension (t : json) : exn + bool :=
  core <-- is_core t ;;
  if negb core then
    name <-- read_prop t "name" ;;
    underscore <-- js_includes "t.name" name (js "_") ;;
    inr (underscore && not_send_imessage name)
  else inr false.

(** [`- ${t.name}: ${t.description}`] *)
Definition core_line (t : json) : exn + jsstring :=
  name <-- ToString (get_prop t "name") ;;
  description <-- ToString (get_prop t "description") ;;
  inr (js "- " ++ name ++ js ": " ++ description).

(** [schema?.k || d] *)
Definition schema_part (schema : jsval) (k : string) (d : json) : json :=
  match schema with
  | None | Some JNull => d
  | Some s =>
      match get_prop s k with
      | Some v => if truthy (Some v) then v else d
      | None => d
      end
  end.

(** The elements of an array or the characters of a string with their
    indices, from [i] on. *)
Fixpoint indexed (i : Z) (l : list json) : list (jsstring * json) :=
  match l with
  | [] => []
  | x :: l' => (string_of_Z i, x) :: indexed (i + 1) l'
  end.

(** [Object.entries(v)] for a value [v] other than [null]. *)
Definition entries (v : json) : list (jsstring * json) :=
  match v with
  | JObj o => o
  | JArr l => indexed 0 l
  | JStr s => indexed 0 (map (fun c => JStr [c]) s)
  | _ => []
  end.

(** [`${k}${required.includes(k) ? '*' : ''}: ${v.description || k}`] *)
Definition argument_text (required : json) (kv : jsstring * json) : exn + jsstring :=
  let (k, v) := kv in
  star <-- js_includes "required" (Some required) k ;;
  description <-- read_prop v "description" ;;
  text <-- (if truthy description then ToString description else inr k) ;;
  inr (k ++ (if star then js "*" else []) ++ js ": " ++ text).

(** The line of an extension tool, with its arguments other than [text]. *)
Definition extension_line (t : json) : exn + jsstring :=
  let schema := get_prop t "inputSchema" in
  let props := schema_part schema "properties" (JObj []) in
  let required := schema_part schema "required" (JArr []) in
  texts <-- map_throwing (argument_text required)
              (filter (fun kv => negb (str_eqb (fst kv) (js "text"))) (entries props)) ;;
  let args := join (js ", ") texts in
  name <-- ToString (get_prop t "name") ;;
  inr (js "- " ++ name
       ++ match args with
          | [] => []
          | _ :: _ => js " (" ++ args ++ js ")"
          end).

(** [`- ${k}: ${v}`] *)
Definition preference_line (kv : jsstring * jsval) : exn + jsstring :=
  let (k, v) := kv in
  text <-- ToString v ;;
  inr (js "- " ++ k ++ js ": " ++ text).

(** [preferences] is [this.state.preferences]. *)
Definition buildSystemPrompt (tools : json) (preferences : list (jsstring * jsval))
  : exn + jsstring :=
  (* Separate core tools from extension tools *)
  tools <-- tool_entries tools ;;
  coreTools <-- filter_throwing is_core tools ;;
  extensionTools <-- filter_throwing is_extension tools ;;
  coreLines <-- map_throwing core_line coreTools ;;
  let coreDesc := join [10] coreLines in
  (* For extension tools, include argument info *)
  extLines <-- map_throwing extension_line extensionTools ;;
  let extDesc :=
    match extensionTools with
    | [] => []
    | _ :: _ =>
        [10; 10] ++ js "RAYCAST EXTENSIONS (use these exact tool names):" ++ [10]
        ++ join [10] extLines
    end in
  prefLines <-- map_throwing preference_line preferences ;;
  let prefs :=
    match join [10] prefLines with
    | [] => js "None"
    | c :: p => c :: p
    end in
  inr (prompt_text prefs coreDesc extDesc).

(** [Date.now()] and [new Date()] *)
Definition Date_now : M Z :=
  tr <- getTrace ;;
  let t := clock E tr in
  emit (EvNow t) ;;
  ret t.

Definition checkRateLimit : M RateCheck :=
  now <- Date_now ;;
  st <- getState ;;
  let (r, st') := checkRateLimit_at now st in
  setState st' ;;
  ret r.

Definition callClaude (systemPrompt : jsstring) (messages : list Message) : M jsstring :=
  tr <- getTrace ;;
  emit (EvClaude systemPrompt messages) ;;
  match claude E tr systemPrompt messages with
  | ClaudeStatus status => throw (Error (js "Claude API error: " ++ string_of_Z status))
  | ClaudeFailure e => throw e
  | ClaudeReply (Some (c :: t)) => ret (c :: t)
  | ClaudeReply _ => ret (js "No response")
  end.

(** What [fetchTools] resolves to, [data] being the body of the bridge's
    answer: [data.tools || []], and [[]] when anything throws -- reading
    [tools] off [null] does. *)
Definition listed_tools (data : option json) : json :=
  match data with
  | None | Some JNull => JArr []
  | Some data =>
      match get_prop data "tools" with
      | Some tools => if truthy (Some tools) then tools else JArr []
      | None => JArr []
      end
  end.

Definition fetchTools : M json :=
  tr <- getTrace ;;
  emit EvFetchTools ;;
  ret (listed_tools (fetch_tools E tr)).

Definition callBridge (tool args : jsval) : M BridgeResult :=
  tr <- getTrace ;;
  emit (EvBridge tool args) ;;
  match bridge E tr tool args with
  | BridgeReply data => ret data
  | BridgeAbort =>
      ret {| success := false; result := None;
             error := Some (js "Timeout"); image := None |}
  | BridgeFailure =>
      ret {| success := false; result := None;
             error := Some (js "Bridge unreachable"); image := None |}
  end.

Definition sendToConnection (connection : nat) (message : WSMessage) : M unit :=
  tr <- getTrace ;;
  emit (EvSend connection message) ;;
  if socket_send E tr connection message then ret tt
  else cs <- getConnections ;;
       setConnections (List.remove Nat.eq_dec connection cs).

Fixpoint broadcast_loop (message : WSMessage) (cs : list nat) : M unit :=
  match cs with
  | [] => ret tt
  | c :: cs' => sendToConnection c message ;; broadcast_loop message cs'
  end.

Definition broadcastToClients (message : WSMessage) : M unit :=
  cs <- getConnections ;;
  broadcast_loop message cs.

Definition parseResponse (content : jsstring) : M ParsedResponse :=
  (* Extract action blocks *)
  let actions := parse_actions content in
  let text := trim (remove_all false (re_block "action") content) in
  (* Extract schedule block *)
  let '(schedule, text) :=
    match regex_exec false (re_block "schedule") content with
    | Some scheduleMatch =>
        match JSON_parse (group_text content scheduleMatch 1) with
        | Some v => (Some v, trim (remove_first false (re_block "schedule") text))
        | None => (None, text)
        end
    | None => (None, text)
    end in
  (* Extract preference block *)
  text <-
    match regex_exec false (re_block "preference") content with
    | Some prefMatch =>
        match JSON_parse (group_text content prefMatch 1) with
        | Some pref =>
            let text := trim (remove_first false (re_block "preference") text) in
            try_catch
              (if truthy (Some pref) then
                 st <- getState ;;
                 key <- lift (ToString (get_prop pref "key")) ;;
                 setState (with_preferences
                             (obj_set key (get_prop pref "value") (preferences st)) st)
               else ret tt)
              (fun _ => ret tt) ;;
            ret text
        | None => ret text
        end
    | None => ret text
    end ;;
  ret {| pr_text := or_done text;
         pr_actions := actions;
         pr_schedule := schedule |}.

Definition scheduleAction (schedule : json) : M jsstring :=
  now <- Date_now ;;
  match get_prop schedule "when" with
  | Some (JStr w) =>
      let when := parseWhen (Date_parse E) now w in
      let payload := {| sa_tool := get_prop schedule "tool";
                        sa_args := get_prop schedule "args";
                        sa_description := get_prop schedule "description" |} in
      tr <- getTrace ;;
      emit (EvSchedule when payload) ;;
      match sdk_schedule E tr when payload with
      | inl e => throw e
      | inr id =>
          let isRecurring :=
            match when with WCron c => includes (js "*") c | WDate _ => false end in
          createdAt <- Date_now ;;
          let record :=
            {| sr_id := id;
               sr_when := match when with WCron c => c | WDate _ => w end;
               sr_tool := get_prop schedule "tool";
               sr_args := get_prop schedule "args";
               sr_description := get_prop schedule "description";
               sr_createdAt := createdAt;
               sr_type := if isRecurring then recurring else one_time |} in
          st <- getState ;;
          setState (with_scheduleRegistry (scheduleRegistry st ++ [record]) st) ;;
          ret id
      end
  | _ => throw (TypeError "when.trim is not a function")
  end.

Definition user_msg (content : jsstring) : Message :=
  {| role := user; content := content |}.

Definition assistant_msg (content : jsstring) : Message :=
  {| role := assistant; content := content |}.

(** [success ? result.result : result.error] *)
Definition result_text (r : BridgeResult) : option jsstring :=
  if success r then result r else error r.

(** The fallback of the contact flow: the first pattern that finds a message
    in the user's request gives it, trimmed and without outer quotes. *)
Fixpoint extract_message (patterns : list regex) (message : jsstring) : option jsstring :=
  match patterns with
  | [] => None
  | pattern :: rest =>
      match regex_exec true pattern message with
      | Some m =>
          match group message m 1 with
          | Some (c :: g) => Some (remove_all false re_outer_quotes (trim (c :: g)))
          | _ => extract_message rest message
          end
      | None => extract_message rest message
      end
  end.

(** [phoneMatch ? phoneMatch[0].replace(/[\s\-\.\(\)]/g, '') : null], with
    [None] for [null]. *)
Definition find_phone (text : jsstring) : option jsstring :=
  match regex_exec false re_phone text with
  | Some phoneMatch => Some (remove_all false re_phone_noise (matched text phoneMatch))
  | None => None
  end.

(** The loop [for (const action of actions)] of [processChat]: [inl] is an
    early [return] from the contact flow, [inr] the results when the loop
    runs to its end. *)
Fixpoint run_actions (message : jsstring) (actions : list json)
    (actionResults : list ActionResult) : M (ChatResult + list ActionResult) :=
  match actions with
  | [] => ret (inr actionResults)
  | action :: rest =>
      res <- callBridge (get_prop action "tool") (get_prop action "args") ;;
      let actionResult :=
        {| ar_tool := get_prop action "tool"; ar_args := get_prop action "args";
           ar_result := result_text res; ar_success := success res;
           ar_image := image res |} in
      let actionResults := actionResults ++ [actionResult] in
      (* Contact search -> message flow (human-in-the-loop) *)
      match result res with
      | Some (c :: found) =>
          let found := c :: found in
          if strict_eq (get_prop action "tool") (Some (JStr (js "search_contacts")))
             && success res
             && negb (includes (js "error") (toLowerCase found))
          then
            match find_phone found with
            | Some (p :: phone) =>
                let phone := p :: phone in
                match get_prop action "args" with
                | None | Some JNull =>
                    throw (TypeError "Cannot read properties of undefined (reading 'message')")
                | Some args =>
                    let intendedMessage :=
                      if truthy (get_prop args "message")
                      then match get_prop args "message" with
                           | Some v => v
                           | None => JStr []
                           end
                      else match extract_message message_patterns message with
                           | Some s => JStr s
                           | None => JStr []
                           end in
                    if regex_test true re_make_up message then
                      generated <- callClaude
                        (js "Write a short, friendly message. Just the text, nothing else.")
                        [user_msg (js "Write: " ++ dquote ++ message ++ dquote)] ;;
                      st <- getState ;;
                      setState (with_pendingAction
                        (Some {| pa_tool := js "send_imessage";
                                 pa_args := [(js "to", JStr phone);
                                             (js "message", JStr (trim generated))];
                                 pa_context := found;
                                 pa_originalRequest := message |}) st) ;;
                      ret (inl {| cr_message :=
                                    js "Found: **" ++ found ++ js "**" ++ [10; 10]
                                    ++ js "> " ++ dquote ++ trim generated ++ dquote
                                    ++ [10; 10] ++ js "Send? *(yes/no)*";
                                  cr_action := None;
                                  cr_actions := Some actionResults;
                                  cr_scheduled := None |})
                    else
                      st <- getState ;;
                      setState (with_history
                        (slice_last 50 (history st ++ [user_msg message]))
                        (with_pendingAction
                          (Some {| pa_tool := js "send_imessage";
                                   pa_args := [(js "to", JStr phone);
                                               (js "message", intendedMessage)];
                                   pa_context := found;
                                   pa_originalRequest := message |}) st)) ;;
                      reply <-
                        (if truthy (Some intendedMessage)
                         then text <- lift (ToString_json intendedMessage) ;;
                              ret (js "Found: **" ++ found ++ js "**" ++ [10; 10]
                                   ++ js "Send " ++ dquote ++ text ++ dquote
                                   ++ js "? *(yes/no)*")
                         else ret (js "Found: **" ++ found ++ js "**" ++ [10; 10]
                                   ++ js "What message?")) ;;
                      ret (inl {| cr_message := reply;
                                  cr_action := None;
                                  cr_actions := Some actionResults;
                                  cr_scheduled := None |})
                end
            | _ => run_actions message rest actionResults
            end
          else run_actions message rest actionResults
      | _ => run_actions message rest actionResults
      end
  end.

(** [processChat] from the comment [// Process with Claude] on. *)
Definition processChat_main (message : jsstring) : M ChatResult :=
  tools <- fetchTools ;;
  st <- getState ;;
  let messages := slice_last 40 (history st) ++ [user_msg message] in
  systemPrompt <- lift (buildSystemPrompt tools (preferences st)) ;;
  response <- callClaude systemPrompt messages ;;
  parsed <- parseResponse response ;;
  scheduledTask <-
    (if truthy (pr_schedule parsed) then
       match pr_schedule parsed with
       | Some schedule =>
           id <- scheduleAction schedule ;;
           ret (Some {| si_id := id;
                        si_when := get_prop schedule "when";
                        si_description := get_prop schedule "description" |})
       | None => ret None
       end
     else ret None) ;;
  (* Execute actions *)
  looped <- run_actions message (pr_actions parsed) [] ;;
  match looped with
  | inl early => ret early
  | inr actionResults =>
      st <- getState ;;
      now <- Date_now ;;
      setState (with_lastActive now
        (with_history
           (slice_last 50 (history st ++ [user_msg message; assistant_msg response]))
           st)) ;;
      ret {| cr_message := pr_text parsed;
             cr_action := hd_error actionResults;
             cr_actions := Some actionResults;
             cr_scheduled := scheduledTask |}
  end.

(** Main chat processing *)
Definition processChat (message : jsstring) : M ChatResult :=
  st <- getState ;;
  match pendingAction st with
  | Some pending =>
      (* Handle pending actions (human-in-the-loop) *)
      if isConfirmation message then
        res <- callBridge (Some (JStr (pa_tool pending))) (Some (JObj (pa_args pending))) ;;
        st <- getState ;;
        now <- Date_now ;;
        setState (with_lastActive now
          (with_history
             (slice_last 50
                (history st ++ [user_msg message;
                                assistant_msg (if success res then js "Sent!" else js "Failed.")]))
             (with_pendingAction None st))) ;;
        ret {| cr_message := if success res then js "Sent!"
                             else js "Failed: " ++ show_opt (error res);
               cr_action := Some {| ar_tool := Some (JStr (pa_tool pending));
                                    ar_args := Some (JObj (pa_args pending));
                                    ar_result := result_text res;
                                    ar_success := success res;
                                    ar_image := None |};
               cr_actions := None;
               cr_scheduled := None |}
      else if isCancellation message then
        now <- Date_now ;;
        setState (with_lastActive now
          (with_history
             (slice_last 50
                (history st ++ [user_msg message; assistant_msg (js "Cancelled.")]))
             (with_pendingAction None st))) ;;
        ret {| cr_message := js "Cancelled."; cr_action := None;
               cr_actions := None; cr_scheduled := None |}
      else if awaiting_clarification pending then
        now <- Date_now ;;
        setState (with_lastActive now
          (with_history
             (slice_last 50 (history st ++ [user_msg message]))
             (with_pendingAction
                (Some {| pa_tool := pa_tool pending;
                         pa_args := obj_set (js "message") (JStr message) (pa_args pending);
                         pa_context := pa_context pending;
                         pa_originalRequest := pa_originalRequest pending |}) st))) ;;
        to <- lift (ToString (obj_get (js "to") (pa_args pending))) ;;
        ret {| cr_message := js "Send " ++ dquote ++ message ++ dquote ++ js " to "
                             ++ to ++ js "? *(yes/no)*";
               cr_action := None; cr_actions := None; cr_scheduled := None |}
      else
        setState (with_pendingAction None st) ;;
        processChat_main message
  | None => processChat_main message
  end.

Definition executeScheduledAction (payload : ScheduledAction) : M unit :=
  res <- callBridge (sa_tool payload) (sa_args payload) ;;
  st <- getState ;;
  let registry := scheduleRegistry st in
  let scheduleRecord :=
    find (fun s => strict_eq (sr_tool s) (sa_tool payload)
                   && strict_eq (sr_description s) (sa_description payload)) registry in
  description <- lift (ToString (sa_description payload)) ;;
  let historyEntry :=
    assistant_msg (js "[Scheduled: " ++ description ++ js "]"
                   ++ [10] ++ show_opt (result_text res)) in
  match scheduleRecord with
  | Some {| sr_id := id; sr_type := one_time |} =>
      setState (with_scheduleRegistry
                  (filter (fun s => negb (str_eqb (sr_id s) id)) registry)
                  (with_history (slice_last 50 (history st ++ [historyEntry])) st))
  | _ =>
      setState (with_history (slice_last 50 (history st ++ [historyEntry])) st)
  end ;;
  now <- Date_now ;;
  broadcastToClients
    {| ws_type := ws_scheduled_result;
       ws_payload := PScheduledResult (sa_description payload) (sa_tool payload)
                       (sa_args payload) (result_text res) (success res) (image res);
       ws_timestamp := now |}.

(** ** The HTTP and WebSocket surface *)

(** The JSON body of a request, read at the type the handler casts it to;
    [BodyNone] is a body on which [request.json()] rejects. *)
Inductive RequestBody : Type :=
| BodyNone
| BodyChat (message : jsstring)
| BodyExecute (tool args : jsval).

Record Request : Type := {
  req_path : jsstring;
  req_method : jsstring;
  req_body : RequestBody
}.

Inductive ResponseBody : Type :=
| ROnline (timestamp : Z)
| RAwake (timestamp : Z) (schedules : nat)
| RError (message : jsstring)
| RChat (r : ChatResult)
| RBridge (r : BridgeResult)
| RSuccess (message : option jsstring)
| RState (historyLength : nat) (prefs : list (jsstring * jsval))
    (pending : option PendingAction) (active : Z)
| RSchedules (schedules : list ScheduleRecord)
| RHistory (h : list Message) (active : Z).

(** [rate_reset] is the header [X-RateLimit-Reset]. *)
Record Response : Type := {
  status : Z;
  body : ResponseBody;
  rate_reset : option Z
}.

Definition json_response (b : ResponseBody) : Response :=
  {| status := 200; body := b; rate_reset := None |}.

Definition error_response (code : Z) (msg : jsstring) : Response :=
  {| status := code; body := RError msg; rate_reset := None |}.

Definition handleChat (request : Request) : M Response :=
  try_catch
    (match req_body request with
     | BodyChat message =>
         r <- processChat message ;;
         ret (json_response (RChat r))
     | _ => throw {| exn_name := js "SyntaxError";
                     exn_message := js "Unexpected end of JSON input" |}
     end)
    (fun e => ret (error_response 500 (exn_message e))).

Definition handleExecute (request : Request) : M Response :=
  try_catch
    (match req_body request with
     | BodyExecute tool args =>
         r <- callBridge tool args ;;
         ret (json_response (RBridge r))
     | _ => throw {| exn_name := js "SyntaxError";
                     exn_message := js "Unexpected end of JSON input" |}
     end)
    (fun e => ret (error_response 500 (exn_message e))).

(** [this.cancelSchedule(id)] inside [try { } catch {}]. *)
Definition cancelSchedule (id : jsstring) : M unit :=
  emit (EvCancelSchedule id).

(** The branch [// Reset state (keeps preferences)] of [onRequest]; [t0] is
    the [lastActive] of the agent's [initialState]. *)
Definition handleReset (t0 : Z) : M Response :=
  st <- getState ;;
  let prefs := preferences st in
  now <- Date_now ;;
  setState (with_lastActive now (with_preferences prefs (initialState t0))) ;;
  ret (json_response (RSuccess (Some (js "History cleared, preferences kept")))).

Definition is_route (suffix method : string) (request : Request) : bool :=
  endsWith (js suffix) (req_path request) && str_eqb (req_method request) (js method).

(** [t0] is the [lastActive] of the agent's [initialState]. *)
Definition onRequest (t0 : Z) (request : Request) : M Response :=
  let path := req_path request in
  (* Root - status *)
  if str_eqb path (js "/") && str_eqb (req_method request) (js "GET") then
    now <- Date_now ;;
    ret (json_response (ROnline now))
  (* Health check *)
  else if endsWith (js "/health") path then
    now <- Date_now ;;
    st <- getState ;;
    ret (json_response (RAwake now (List.length (scheduleRegistry st))))
  else
    (* Rate limiting *)
    rc <- checkRateLimit ;;
    if negb (allowed rc) then
      ret {| status := 429; body := RError (js "Rate limit exceeded");
             rate_reset := Some ((resetIn rc + 999) / 1000) |}
    (* Chat *)
    else if is_route "/chat" "POST" request then handleChat request
    (* Reset state (keeps preferences) *)
    else if is_route "/reset" "POST" request then handleReset t0
    (* Get state (debug) *)
    else if is_route "/state" "GET" request then
      st <- getState ;;
      ret (json_response (RState (List.length (history st)) (preferences st)
                            (pendingAction st) (lastActive st)))
    (* Execute tool directly *)
    else if is_route "/execute" "POST" request then handleExecute request
    (* Get schedules *)
    else if is_route "/schedules" "GET" request then
      st <- getState ;;
      ret (json_response (RSchedules (scheduleRegistry st)))
    (* Delete schedule *)
    else if regex_test false re_schedule_path path
            && str_eqb (req_method request) (js "DELETE") then
      match last_segment path with
      | c :: id =>
          let scheduleId := c :: id in
          cancelSchedule scheduleId ;;
          st <- getState ;;
          setState (with_scheduleRegistry
                      (filter (fun s => negb (str_eqb (sr_id s) scheduleId))
                              (scheduleRegistry st)) st) ;;
          ret (json_response (RSuccess None))
      | [] => ret (error_response 400 (js "Invalid schedule ID"))
      end
    (* Get history *)
    else if is_route "/history" "GET" request then
      st <- getState ;;
      ret (json_response (RHistory (history st) (lastActive st)))
    (* Clear history *)
    else if is_route "/clear" "POST" request then
      st <- getState ;;
      setState (with_history [] st) ;;
      ret (json_response (RSuccess None))
    else ret (error_response 404 (js "Not found")).

(** A text frame of the real-time channel after [JSON.parse], read at the
    type of the client protocol [{type, token, message}]. *)
Inductive WSData : Type :=
| DataPing
| DataChat (token message : jsstring)
| DataOther.

Inductive WSFrame : Type :=
| FrameBinary                      (* an [ArrayBuffer] *)
| FrameText (data : option WSData). (* [None]: [JSON.parse] throws *)

Definition nonempty (s : jsstring) : bool :=
  match s with [] => false | _ :: _ => true end.

(** [connections] lists the keys of the [Map] in the order of their
    insertion; [set] on a key that is there keeps its place. *)
Definition onConnect (connection : nat) : M unit :=
  cs <- getConnections ;;
  setConnections (if existsb (Nat.eqb connection) cs then cs else cs ++ [connection]) ;;
  now <- Date_now ;;
  sendToConnection connection
    {| ws_type := ws_notification;
       ws_payload := PNotification (js "Connected") (js "Real-time updates enabled");
       ws_timestamp := now |}.

Definition onMessage (connection : nat) (message : WSFrame) : M unit :=
  match message with
  | FrameBinary => ret tt
  | FrameText None => ret tt
  | FrameText (Some data) =>
      try_catch
        (match data with
         | DataPing =>
             now <- Date_now ;;
             sendToConnection connection
               {| ws_type := ws_ping; ws_payload := PPong; ws_timestamp := now |}
         | DataChat token msg =>
             if nonempty token && nonempty msg then
               if negb (timingSafeEqual token (API_SECRET E)) then
                 now <- Date_now ;;
                 sendToConnection connection
                   {| ws_type := ws_notification;
                      ws_payload := PNotification (js "Error") (js "Invalid token");
                      ws_timestamp := now |}
               else
                 r <- processChat msg ;;
                 now <- Date_now ;;
                 sendToConnection connection
                   {| ws_type := ws_chat; ws_payload := PChat r; ws_timestamp := now |}
             else ret tt
         | DataOther => ret tt
         end)
        (fun _ => ret tt)
  end.

Definition onClose (connection : nat) : M unit :=
  cs <- getConnections ;;
  setConnections (List.remove Nat.eq_dec connection cs).

(** The worker's check on [/agents/] routes:
    [!token || !timingSafeEqual(token, env.API_SECRET)] with [token] the
    bearer token of the [Authorization] header ([None]: no header). *)
Definition authorized (token : option jsstring) : bool :=
  match token with
  | Some (c :: t) => timingSafeEqual (c :: t) (API_SECRET E)
  | _ => false
  end.

End Agent.

(** ** Sequences of operations on a session *)

Inductive Operation : Type :=
| OpRequest (request : Request)               (* an HTTP request *)
| OpConnect (connection : nat)                (* a listener connects *)
| OpMessage (connection : nat) (frame : WSFrame) (* a frame on the channel *)
| OpClose (connection : nat)                  (* a listener leaves *)
| OpScheduled (payload : ScheduledAction).    (* a scheduled firing *)

Definition run_operation (E : Env) (t0 : Z) (op : Operation) (w : World) : World :=
  match op with
  | OpRequest request => snd (onRequest E t0 request w)
  | OpConnect connection => snd (onConnect E connection w)
  | OpMessage connection frame => snd (onMessage E connection frame w)
  | OpClose connection => snd (onClose connection w)
  | OpScheduled payload => snd (executeScheduledAction E payload w)
  end.

Definition run_operations (E : Env) (t0 : Z) (ops : list Operation) (w : World) : World :=
  fold_left (fun w op => run_operation E t0 op w) ops w.

(** A session as it is created: the agent's [initialState], no listener,
    nothing done yet. *)
Definition new_session (t0 : Z) : World :=
  {| state := initialState t0; connections := []; trace := [] |}.

(** What a chat turn with [message] appends to the history: the message
    alone (the contact flow, a clarification), or the message and the
    assistant's entry. *)
Definition turn_entries (message : jsstring) (a : list Message) : Prop :=
  a = [user_msg message]
  \/ exists reply, a = [user_msg message; assistant_msg reply].

(** How a chat turn with [message] that ends in [o] changes the state [st]
    into [st']: the entries of the turn are appended to the history and
    the last 50 entries kept; the history stays as it is only when the turn
    throws, or when the contact flow stages a text of its own making for a
    request that asks for one. *)
Definition chat_step (message : jsstring) (o : Outcome ChatResult)
    (st st' : SystemState) : Prop :=
  (history st' = history st
   /\ ((exists e, o = Throw e)
       \/ (regex_test true re_make_up message = true /\ pendingAction st' <> None)))
  \/ exists a, turn_entries message a
               /\ history st' = slice_last 50 (history st ++ a).

(** What an operation may append to the history: a chat request or frame
    the entries of its turn, a scheduled firing its one entry, anything
    else nothing. *)
Definition recorded_by (op : Operation) (a : list Message) : Prop :=
  match op with
  | OpRequest request =>
      match req_body request with
      | BodyChat message => turn_entries message a
      | _ => False
      end
  | OpMessage _ (FrameText (Some (DataChat _ message))) => turn_entries message a
  | OpScheduled _ => exists entry, a = [assistant_msg entry]
  | _ => False
  end.

(** How the operation [op] may change the history [h] into [h']: not at
    all, by emptying it, or by appending its entries and keeping the last
    50. *)
Definition history_step (op : Operation) (h h' : list Message) : Prop :=
  h' = h \/ h' = [] \/ exists a, recorded_by op a /\ h' = slice_last 50 (h ++ a).

(** [wp c w Q]: running [c] from the world [w] ends in an outcome and a
    world that satisfy [Q]. *)
Definition wp {A} (c : M A) (w : World) (Q : Outcome A -> World -> Prop) : Prop :=
  Q (fst (c w)) (snd (c w)).

(** The world after one more call to the outside. *)
Definition after_event (e : Event) (w : World) : World :=
  {| state := state w; connections := connections w; trace := e :: trace w |}.

(** The world after [setState]. *)
Definition with_state (s : SystemState) (w : World) : World :=
  {| state := s; connections := connections w; trace := trace w |}.

(** The exception a failed completion call raises, [None] when it replies. *)
Definition claude_error (o : ClaudeOutcome) : option exn :=
  match o with
  | ClaudeReply _ => None
  | ClaudeStatus status => Some (Error (js "Claude API error: " ++ string_of_Z status))
  | ClaudeFailure e => Some e
  end.

(** A chat turn gets as far as the completion service: no action is pending,
    or the message neither confirms, nor cancels, nor supplies a missing
    text. *)
Definition reaches_completion (E : Env) (st : SystemState) (message : jsstring) : bool :=
  match pendingAction st with
  | None => true
  | Some pending =>
      negb (isConfirmation message) && negb (isCancellation message)
      && negb (awaiting_clarification E pending)
  end.

Definition chat_request (message : jsstring) : Request :=
  {| req_path := js "/chat"; req_method := js "POST"; req_body := BodyChat message |}.

Definition reset_request : Request :=
  {| req_path := js "/reset"; req_method := js "POST"; req_body := BodyNone |}.

(** ** Completions as documents

    A completion laid out as prose and fenced directive blocks, each block
    being [```kind], a line break, the body, a line break and [```]. *)

Inductive Kind : Type := KAction | KSchedule | KPreference.

Definition kind_name (k : Kind) : string :=
  match k with
  | KAction => "action"
  | KSchedule => "schedule"
  | KPreference => "preference"
  end.

Definition kind_eqb (a b : Kind) : bool :=
  match a, b with
  | KAction, KAction | KSchedule, KSchedule | KPreference, KPreference => true
  | _, _ => false
  end.

Inductive Seg : Type :=
| Prose (s : jsstring)
| Fence (k : Kind) (body : jsstring).

Definition opener (k : Kind) : jsstring := js ("```" ++ kind_name k) ++ [10].

Definition closer : jsstring := 10 :: js "```".

Definition fence (k : Kind) (body : jsstring) : jsstring :=
  opener k ++ body ++ closer.

Definition render_seg (seg : Seg) : jsstring :=
  match seg with
  | Prose s => s
  | Fence k body => fence k body
  end.

Definition render (d : list Seg) : jsstring := flat_map render_seg d.

Definition no_backtick (s : jsstring) : bool :=
  forallb (fun c => negb (c =? 96)) s.

(** The character does not begin the name of a directive. *)
Definition not_kind_letter (c : Z) : bool :=
  negb (one_of [97; 115; 112] c).

(** What follows a closing fence does not go on, after the backticks it
    may begin with, with the first letter of a directive name -- so that
    the closing fence cannot be taken for an opening one. *)
Definition safe_after (rest : jsstring) : bool :=
  match rest with
  | [] => true
  | c1 :: r1 =>
      not_kind_letter c1
      && (negb (c1 =? 96)
          || match r1 with
             | [] => true
             | c2 :: r2 =>
                 not_kind_letter c2
                 && (negb (c2 =? 96)
                     || match r2 with
                        | [] => true
                        | c3 :: _ => not_kind_letter c3
                        end)
             end)
  end.

(** Prose and bodies hold no backtick, and no closing fence can be taken
    for an opening one. *)
Fixpoint wf_doc (d : list Seg) : bool :=
  match d with
  | [] => true
  | Prose s :: d' => no_backtick s && wf_doc d'
  | Fence _ body :: d' => no_backtick body && safe_after (render d') && wf_doc d'
  end.

(** The body of the first block of kind [k]. *)
Fixpoint first_body (k : Kind) (d : list Seg) : option jsstring :=
  match d with
  | [] => None
  | Fence k' body :: d' => if kind_eqb k k' then Some body else first_body k d'
  | Prose _ :: d' => first_body k d'
  end.

(** The document without its blocks of kind [k]. *)
Fixpoint drop_all (k : Kind) (d : list Seg) : list Seg :=
  match d with
  | [] => []
  | Fence k' body :: d' =>
      if kind_eqb k k' then drop_all k d' else Fence k' body :: drop_all k d'
  | Prose s :: d' => Prose s :: drop_all k d'
  end.

(** The document without its first block of kind [k]. *)
Fixpoint drop_first (k : Kind) (d : list Seg) : list Seg :=
  match d with
  | [] => []
  | Fence k' body :: d' =>
      if kind_eqb k k' then d' else Fence k' body :: drop_first k d'
  | Prose s :: d' => Prose s :: drop_first k d'
  end.

(** The first block of kind [k] is dropped when it parses. *)
Definition drop_parsed (k : Kind) (d : list Seg) : list Seg :=
  match first_body k d with
  | Some body =>
      match JSON_parse body with
      | Some _ => drop_first k d
      | None => d
      end
  | None => d
  end.

(** The first block of kind [k], if there is one, parses. *)
Definition first_parses (k : Kind) (d : list Seg) : bool :=
  match first_body k d with
  | Some body => match JSON_parse body with Some _ => true | None => false end
  | None => true
  end.

(** The directive of the first block of kind [k]. *)
Definition first_directive (k : Kind) (d : list Seg) : jsval :=
  match first_body k d with
  | Some body => JSON_parse body
  | None => None
  end.

(** The well-formed action directives of a document, in order. *)
Definition actions_of (d : list Seg) : list json :=
  flat_map
    (fun seg =>
       match seg with
       | Fence KAction body =>
           match JSON_parse body with
           | Some action => if truthy (get_prop action "tool") then [action] else []
           | None => []
           end
       | _ => []
       end) d.

(** Where the first block of kind [k] lies when the document starts at
    offset [pos]: the match of the block's pattern. *)
Fixpoint locate (k : Kind) (d : list Seg) (pos : nat) : option rmatch_result :=
  match d with
  | [] => None
  | Prose s :: d' => locate k d' (pos + List.length s)
  | Fence k' body :: d' =>
      if kind_eqb k k' then
        Some {| m_start := pos;
                m_end := pos + List.length (fence k' body);
                m_caps := [(1%nat, ((pos + List.length (opener k'))%nat,
                                    (pos + List.length (opener k')
                                     + List.length body)%nat))] |}
      else locate k d' (pos + List.length (fence k' body))
  end.

(** ** Where the blocks of a document lie *)

(** The first letter of a directive's name. *)
Definition initial (k : Kind) : Z :=
  match k with KAction => 97 | KSchedule => 115 | KPreference => 112 end.

(** The match of the pattern of kind [k] on a block with body [body] that
    starts at offset [pos]. *)
Definition located (k : Kind) (body : jsstring) (pos : nat) : rmatch_result :=
  {| m_start := pos;
     m_end := pos + List.length (fence k body);
     m_caps := [(1%nat, ((pos + List.length (opener k))%nat,
                         (pos + List.length (opener k) + List.length body)%nat))] |}.

(** The blocks of kind [k] of a document that starts at offset [pos]. *)
Fixpoint locate_all (k : Kind) (d : list Seg) (pos : nat) : list rmatch_result :=
  match d with
  | [] => []
  | Prose s :: d' => locate_all k d' (pos + List.length s)
  | Fence k' body :: d' =>
      if kind_eqb k k'
      then located k' body pos :: locate_all k d' (pos + List.length (fence k' body))
      else locate_all k d' (pos + List.length (fence k' body))
  end.

(** The preferences after the first preference block of a document has been
    taken into account. *)
Definition learn_preference (E : Env) (d : list Seg) (st : SystemState) : SystemState :=
  match first_directive KPreference d with
  | Some pref =>
      if truthy (Some pref) then
        match ToString E (get_prop pref "key") with
        | inr key =>
            with_preferences (obj_set key (get_prop pref "value") (preferences st)) st
        | inl _ => st
        end
      else st
  | None => st
  end.

(** The document as it is displayed: without its action blocks, and without
    the first schedule block and the first preference block when they
    parse. *)
Definition displayed (d : list Seg) : list Seg :=
  drop_parsed KPreference (drop_parsed KSchedule (drop_all KAction d)).

(** ** Phone numbers *)

(** Ten digits, or eleven that begin with 1. *)
Definition phone_digits (s : jsstring) : bool :=
  forallb is_digit s
  && (Nat.eqb (List.length s) 10
      || (Nat.eqb (List.length s) 11 && match s with c :: _ => c =? 49 | [] => false end)).

(** A phone number as the contact flow stores it: an optional [+] and the
    digits. *)
Definition normal_phone (s : jsstring) : bool :=
  match s with
  | c :: r => if c =? 43 then phone_digits r else phone_digits s
  | [] => false
  end.

(** ** What holds of every session *)

(** A pending action of the contact flow: a message to send to a phone
    number. *)
Definition is_pending_send (p : PendingAction) : bool :=
  str_eqb (pa_tool p) (js "send_imessage")
  && match pa_args p with
     | [(k1, JStr phone); (k2, _)] =>
         str_eqb k1 (js "to") && normal_phone phone && str_eqb k2 (js "message")
     | _ => false
     end.

Definition pending_ok (st : SystemState) : bool :=
  match pendingAction st with
  | None => true
  | Some p => is_pending_send p
  end.

(** A call to the completion service with at most 41 messages. *)
Definition bounded_call (e : Event) : bool :=
  match e with
  | EvClaude _ messages => Nat.leb (List.length messages) 41
  | _ => true
  end.

Definition session_ok (w : World) : bool :=
  pending_ok (state w) && forallb bounded_call (trace w).

(** ** The worker's entry point *)

(** [s.replace(pat, "")] with a string pattern: the first occurrence of
    [pat] is taken out. *)
Fixpoint remove_literal (pat s : jsstring) : jsstring :=
  if startsWith pat s then skipn (List.length pat) s
  else match s with
       | [] => []
       | c :: s' => c :: remove_literal pat s'
       end.

(** [authHeader?.replace("Bearer ", "")]; [None] is a missing header. *)
Definition bearer_token (authHeader : option jsstring) : option jsstring :=
  match authHeader with
  | Some h => Some (remove_literal (js "Bearer ") h)
  | None => None
  end.

(** [url.pathname.startsWith(prefix) ? url.pathname.slice(prefix.length) || "/" : "/"] *)
Definition agentPath (pathname : jsstring) : jsstring :=
  if startsWith (js "/agents/system-agent") pathname then
    match skipn (List.length (js "/agents/system-agent")) pathname with
    | [] => js "/"
    | c :: p => c :: p
    end
  else js "/".

(** What the worker's [fetch] does with a request. *)
Inductive WorkerAnswer : Type :=
| WServeUI                    (* the chat page *)
| WApiInfo                    (* the description of the API *)
| WUnauthorized               (* status 401 *)
| WToAgent (path : jsstring)  (* [agent.fetch] with the path rewritten *)
| WToRouter.                  (* [routeAgentRequest], then 404 *)

Definition worker_fetch (E : Env) (pathname method : jsstring)
    (authHeader : option jsstring) : WorkerAnswer :=
  (* Serve UI *)
  if str_eqb pathname (js "/") && str_eqb method (js "GET") then WServeUI
  (* API info *)
  else if str_eqb pathname (js "/api") && str_eqb method (js "GET") then WApiInfo
  (* Agent routes *)
  else if startsWith (js "/agents/") pathname then
    if negb (authorized E (bearer_token authHeader)) then WUnauthorized
    else WToAgent (agentPath pathname)
  else WToRouter.

(** A tool of the declared type [Tool] as the JSON value the bridge lists. *)
Definition tool_json (t : Tool) : json :=
  JObj ([(js "name", JStr (tool_name t));
         (js "description", JStr (tool_description t))]
        ++ match tool_inputSchema t with
           | Some schema => [(js "inputSchema", schema)]
           | None => []
           end).

(** ** The words of the confirmation and cancellation grammars *)

Definition confirmation_vocabulary : list jsstring :=
  map js ["yes"; "yeah"; "yep"; "yup"; "sure"; "ok"; "okay"; "do it"; "send it";
          "confirm"; "go ahead"; "please"; "y"]%string.

Definition cancellation_vocabulary : list jsstring :=
  map js ["no"; "nope"; "cancel"; "stop"; "don't"; "nevermind"; "never mind";
          "abort"; "n"]%string.

(** What may follow the word: nothing, a full stop, an exclamation mark, or
    the two in this order. *)
Definition closings : list jsstring := [[]; js "."; js "!"; js ".!"].

Definition phrases (vocabulary : list jsstring) : list jsstring :=
  flat_map (fun word => map (app word) closings) vocabulary.

(** The spellings of a lower-case text: each letter in either case. *)
Fixpoint spellings (u : jsstring) : list jsstring :=
  match u with
  | [] => [[]]
  | c :: u' =>
      flat_map (fun d => map (cons d) (spellings u'))
               (if (97 <=? c) && (c <=? 122) then [c; c - 32] else [c])
  end.

(** ** Sample sessions

    A concrete outside world and a few session states, for the examples. *)

(** The bridge answers every call with success; the completion service
    gives [completion]; the clock advances by one millisecond per call. *)
Definition sample_env (completion : ClaudeOutcome) : Env :=
  {| clock := fun tr => 1000 + Z.of_nat (List.length tr);
     fetch_tools := fun _ => Some (JObj [(js "tools", JArr [])]);
     claude := fun _ _ _ => completion;
     bridge := fun _ _ _ =>
       BridgeReply {| success := true; result := Some (js "ok");
                      error := None; image := None |};
     sdk_schedule := fun _ _ _ => inr (js "schedule-1");
     socket_send := fun _ _ _ => true;
     API_SECRET := js "s3cret";
     Date_parse := fun _ => None;
     Number_toString := fun _ _ => js "0";
     Number_eqb := fun _ _ _ _ => false |}.

(** The system prompt when the bridge lists no tool and no preference is
    stored. *)
Definition sample_prompt : jsstring := prompt_text (js "None") [] [].

(** A message to John waits for its confirmation. *)
Definition sample_pending (text : jsstring) : PendingAction :=
  {| pa_tool := js "send_imessage";
     pa_args := [(js "to", JStr (js "5551234567")); (js "message", JStr text)];
     pa_context := js "John: (555) 123-4567";
     pa_originalRequest := js "text John" |}.

Definition sample_world (st : SystemState) : World :=
  {| state := st; connections := [7%nat]; trace := [] |}.

(** A session whose window of 60 requests is used up until time 50000. *)
Definition exhausted_state : SystemState :=
  with_rateLimit (Some {| count := 60; resetAt := 50000 |}) (initialState 0).

(** A reply that plays music now, schedules a reminder with a body that is
    not JSON, and records a preference. *)
Definition sample_reply : list Seg :=
  [Prose (js "Playing it now. ");
   Fence KAction (js "{" ++ dquote ++ js "tool" ++ dquote ++ js ": "
                  ++ dquote ++ js "music_play" ++ dquote ++ js "}");
   Fence KAction (js "{tool: music_next}");
   Fence KSchedule (js "{oops");
   Prose [10];
   Fence KPreference (js "{" ++ dquote ++ js "key" ++ dquote ++ js ": "
                      ++ dquote ++ js "wife" ++ dquote ++ js ", "
                      ++ dquote ++ js "value" ++ dquote ++ js ": "
                      ++ dquote ++ js "Ann" ++ dquote ++ js "}")].

(** A world of the contact flow: the completion asks for a contact search
    with the text to send; the bridge finds the contact. *)
Definition contact_env : Env :=
  {| clock := fun tr => 1000 + Z.of_nat (List.length tr);
     fetch_tools := fun _ => Some (JObj [(js "tools", JArr [])]);
     claude := fun _ _ _ =>
       ClaudeReply (Some (render
         [Fence KAction
            (js "{" ++ dquote ++ js "tool" ++ dquote ++ js ": "
             ++ dquote ++ js "search_contacts" ++ dquote ++ js ", "
             ++ dquote ++ js "args" ++ dquote ++ js ": {"
             ++ dquote ++ js "query" ++ dquote ++ js ": "
             ++ dquote ++ js "John" ++ dquote ++ js ", "
             ++ dquote ++ js "message" ++ dquote ++ js ": "
             ++ dquote ++ js "Running late" ++ dquote ++ js "}}")]));
     bridge := fun _ _ _ =>
       BridgeReply {| success := true;
                      result := Some (js "John Appleseed: +1 (555) 123-4567");
                      error := None; image := None |};
     sdk_schedule := fun _ _ _ => inr (js "schedule-1");
     socket_send := fun _ _ _ => true;
     API_SECRET := js "s3cret";
     Date_parse := fun _ => None;
     Number_toString := fun _ _ => js "0";
     Number_eqb := fun _ _ _ _ => false |}.

(** A registry with two schedules. *)
Definition sample_registry : list ScheduleRecord :=
  [{| sr_id := js "abc"; sr_when := js "0 9 * * *";
      sr_tool := Some (JStr (js "notify")); sr_args := None;
      sr_description := Some (JStr (js "Morning")); sr_createdAt := 10;
      sr_type := recurring |};
   {| sr_id := js "def"; sr_when := js "in 5 minutes";
      sr_tool := Some (JStr (js "say")); sr_args := None;
      sr_description := Some (JStr (js "Tea")); sr_createdAt := 20;
      sr_type := one_time |}].

(** A schedule directive for a reminder in five minutes. *)
Definition sample_schedule : json :=
  JObj [(js "when", JStr (js "in 5 minutes"));
        (js "tool", JStr (js "notify"));
        (js "args", JObj [(js "message", JStr (js "Hi"))]);
        (js "description", JStr (js "Reminder"))].

(** A reply that starts the music and speaks, with no schedule. *)
Definition music_reply : list Seg :=
  [Prose (js "On it. ");
   Fence KAction (js "{" ++ dquote ++ js "tool" ++ dquote ++ js ": "
                  ++ dquote ++ js "music_play" ++ dquote ++ js "}");
   Prose [10];
   Fence KAction (js "{" ++ dquote ++ js "tool" ++ dquote ++ js ": "
                  ++ dquote ++ js "say" ++ dquote ++ js ", "
                  ++ dquote ++ js "args" ++ dquote ++ js ": {"
                  ++ dquote ++ js "text" ++ dquote ++ js ": "
                  ++ dquote ++ js "hi" ++ dquote ++ js "}}")].

(** The body of a schedule directive for a notification in five minutes. *)
Definition notify_body : jsstring :=
  js "{" ++ dquote ++ js "when" ++ dquote ++ js ": "
  ++ dquote ++ js "in 5 minutes" ++ dquote ++ js ", "
  ++ dquote ++ js "tool" ++ dquote ++ js ": "
  ++ dquote ++ js "notify" ++ dquote ++ js "}".

(** A reply with a garbled block before a well-formed one, for actions and
    for schedules. *)
Definition garbled_reply : list Seg :=
  [Prose (js "Will do. ");
   Fence KAction (js "{oops");
   Fence KAction (js "{" ++ dquote ++ js "tool" ++ dquote ++ js ": "
                  ++ dquote ++ js "music_play" ++ dquote ++ js "}");
   Prose [10];
   Fence KSchedule (js "{oops");
   Prose [10];
   Fence KSchedule notify_body].

(** A reply that stores a preference under the key [1]. *)
Definition numbered_preference_reply : list Seg :=
  [Prose (js "Noted.");
   Fence KPreference (js "{" ++ dquote ++ js "key" ++ dquote ++ js ": "
                      ++ dquote ++ js "1" ++ dquote ++ js ", "
                      ++ dquote ++ js "value" ++ dquote ++ js ": "
                      ++ dquote ++ js "Ann" ++ dquote ++ js "}")].

(** A reply whose schedule directive gives no time, before an action. *)
Definition untimed_reply : list Seg :=
  [Prose (js "Will do. ");
   Fence KSchedule (js "{" ++ dquote ++ js "tool" ++ dquote ++ js ": "
                    ++ dquote ++ js "notify" ++ dquote ++ js "}");
   Fence KAction (js "{" ++ dquote ++ js "tool" ++ dquote ++ js ": "
                  ++ dquote ++ js "music_play" ++ dquote ++ js "}")].

(** ** Observations on traces *)

Definition is_claude_call (e : Event) : bool :=
  match e with EvClaude _ _ => true | _ => false end.

Definition is_bridge_call (e : Event) : bool :=
  match e with EvBridge _ _ => true | _ => false end.

Definition is_cancel_call (e : Event) : bool :=
  match e with EvCancelSchedule _ => true | _ => false end.

(** The events of [w'] that were not yet in [w], latest first. *)
Definition new_events (w w' : World) : list Event :=
  firstn (List.length (trace w') - List.length (trace w)) (trace w').
(* ================================================================== *)
(** * Part II: properties *)
(* ================================================================== *)

(** ** The bearer-token comparison *)

Lemma ToInt32_small (z : Z) : 0 <= z < 65536 -> ToInt32 z = z.
Proof.
  intros H. unfold ToInt32.
  rewrite Z.mod_small; lia.
Qed.

Lemma code_unit_bits (x : Z) : 0 <= x < 65536 -> x = 0 \/ Z.log2 x < 16.
Proof.
  intros H. destruct (Z.eq_dec x 0) as [->|Hx]; [now left|right].
  apply Z.log2_lt_pow2; lia.
Qed.

Lemma bits_code_unit (x : Z) : 0 <= x -> Z.log2 x < 16 -> 0 <= x < 65536.
Proof.
  intros H0 H. split; [assumption|].
  destruct (Z.eq_dec x 0) as [->|Hx]; [lia|].
  change 65536 with (2 ^ 16). apply Z.log2_lt_pow2; lia.
Qed.

Lemma log2_code_unit (x : Z) : 0 <= x < 65536 -> Z.log2 x < 16.
Proof.
  intros H. destruct (code_unit_bits x H) as [->|]; [reflexivity|assumption].
Qed.

Lemma js_xor_code_units (a b : Z) :
  0 <= a < 65536 -> 0 <= b < 65536 ->
  js_xor a b = Z.lxor a b /\ 0 <= Z.lxor a b < 65536.
Proof.
  intros Ha Hb. unfold js_xor. rewrite !ToInt32_small by assumption.
  split; [reflexivity|].
  apply bits_code_unit.
  - apply Z.lxor_nonneg. lia.
  - pose proof (Z.log2_lxor a b (proj1 Ha) (proj1 Hb)).
    pose proof (log2_code_unit a Ha). pose proof (log2_code_unit b Hb). lia.
Qed.

Lemma js_or_code_units (a b : Z) :
  0 <= a < 65536 -> 0 <= b < 65536 ->
  js_or a b = Z.lor a b /\ 0 <= Z.lor a b < 65536.
Proof.
  intros Ha Hb. unfold js_or. rewrite !ToInt32_small by assumption.
  split; [reflexivity|].
  apply bits_code_unit.
  - apply Z.lor_nonneg. lia.
  - rewrite Z.log2_lor by lia.
    pose proof (log2_code_unit a Ha). pose proof (log2_code_unit b Hb). lia.
Qed.

Lemma charCodeAt_code_unit (s : jsstring) (i : nat) :
  wf_string s -> 0 <= charCodeAt s i < 65536.
Proof.
  intros H. unfold charCodeAt.
  destruct (Nat.lt_ge_cases i (List.length s)) as [Hi|Hi].
  - unfold wf_string in H. rewrite Forall_forall in H. apply H, nth_In, Hi.
  - rewrite nth_overflow by assumption. lia.
Qed.

Lemma skipn_charCodeAt (s : jsstring) (i : nat) :
  (i < List.length s)%nat -> skipn i s = charCodeAt s i :: skipn (S i) s.
Proof.
  revert i. induction s as [|c s IH]; intros i Hi; simpl in Hi.
  - lia.
  - destruct i as [|i]; [reflexivity|].
    cbn [skipn]. unfold charCodeAt in *. cbn [nth]. apply IH. lia.
Qed.

(** The loop ends on 0 exactly when it started on 0 and the two strings
    agree from index [i] on. *)
Lemma timingSafeEqual_loop_zero (n : nat) :
  forall (i : nat) (a b : jsstring) (mismatch : Z),
    wf_string a -> wf_string b ->
    List.length a = (i + n)%nat -> List.length b = (i + n)%nat ->
    0 <= mismatch < 65536 ->
    (timingSafeEqual_loop n i a b mismatch = 0 <->
     mismatch = 0 /\ skipn i a = skipn i b).
Proof.
  induction n as [|n IH]; intros i a b mismatch Ha Hb La Lb Hm; cbn [timingSafeEqual_loop].
  - rewrite !skipn_all2 by lia. tauto.
  - pose proof (charCodeAt_code_unit a i Ha) as Ca.
    pose proof (charCodeAt_code_unit b i Hb) as Cb.
    destruct (js_xor_code_units _ _ Ca Cb) as [Ex Rx].
    destruct (js_or_code_units _ _ Hm Rx) as [Eo Ro].
    rewrite Ex, Eo.
    rewrite (IH (S i) a b _ Ha Hb) by (assumption || lia).
    rewrite Z.lor_eq_0_iff, Z.lxor_eq_0_iff.
    pose proof (skipn_charCodeAt a i ltac:(lia)) as Sa.
    pose proof (skipn_charCodeAt b i ltac:(lia)) as Sb.
    split.
    + intros [[-> Hc] Hs]. split; [reflexivity|]. congruence.
    + intros [-> Hc]. split; [split; [reflexivity|]|]; congruence.
Qed.

(** C10. For all strings [a] and [b] (lists of UTF-16 code units),
    [timingSafeEqual a b] is [true] if and only if [a] and [b] are the same
    string: same length and same code units. *)
Theorem timingSafeEqual_iff_eq (a b : jsstring) :
  wf_string a -> wf_string b ->
  (timingSafeEqual a b = true <-> a = b).
Proof.
  intros Ha Hb. unfold timingSafeEqual, jslength.
  destruct (Nat.eqb (List.length a) (List.length b)) eqn:L; cbn [negb].
  - apply Nat.eqb_eq in L.
    rewrite Z.eqb_eq.
    rewrite (timingSafeEqual_loop_zero (List.length a) 0 a b 0 Ha Hb) by (auto; lia).
    cbn [skipn]. tauto.
  - apply Nat.eqb_neq in L. split; [discriminate|].
    intros ->. contradiction.
Qed.

Lemma timingSafeEqual_iff_eq_witness :
  wf_string (js "s3cret") /\ wf_string (js "s3creT")
  /\ (timingSafeEqual (js "s3cret") (js "s3creT") = true <-> js "s3cret" = js "s3creT").
Proof.
  assert (wf_string (js "s3cret")) as Ha
      by (unfold wf_string; repeat constructor; vm_compute; discriminate).
  assert (wf_string (js "s3creT")) as Hb
      by (unfold wf_string; repeat constructor; vm_compute; discriminate).
  split; [exact Ha|]. split; [exact Hb|].
  exact (timingSafeEqual_iff_eq (js "s3cret") (js "s3creT") Ha Hb).
Defined.

(** The comparison in its two directions. *)
Lemma timingSafeEqual_true_eq (a b : jsstring) :
  wf_string a -> wf_string b -> timingSafeEqual a b = true -> a = b.
Proof.
  intros Ha Hb. unfold timingSafeEqual, jslength.
  destruct (Nat.eqb (List.length a) (List.length b)) eqn:L; cbn [negb]; [|discriminate].
  apply Nat.eqb_eq in L. rewrite Z.eqb_eq.
  rewrite (timingSafeEqual_loop_zero (List.length a) 0 a b 0 Ha Hb) by (auto; lia).
  cbn [skipn]. tauto.
Qed.

Lemma timingSafeEqual_same (a : jsstring) :
  wf_string a -> timingSafeEqual a a = true.
Proof.
  intros Ha. unfold timingSafeEqual, jslength. rewrite Nat.eqb_refl. cbn [negb].
  rewrite Z.eqb_eq.
  rewrite (timingSafeEqual_loop_zero (List.length a) 0 a a 0 Ha Ha) by (auto; lia).
  auto.
Qed.

(** Through the worker's check: a request is let through exactly when its
    (non-empty) bearer token is the configured secret. *)
Lemma authorized_iff (E : Env) (token : jsstring) :
  wf_string token -> wf_string (API_SECRET E) -> token <> [] ->
  (authorized E (Some token) = true <-> token = API_SECRET E).
Proof.
  intros Ht Hs Hne. unfold authorized.
  destruct token as [|c t]; [contradiction|].
  split.
  - apply timingSafeEqual_true_eq; assumption.
  - intros <-. apply timingSafeEqual_same. exact Ht.
Qed.

(** ** The rate limiter *)






(** The sixty-first call of a window is the first one refused. *)
Lemma rate_limit_sixty_first_call :
  map allowed (fst (checkRateLimit_calls (1000 :: repeat 2000 60) (initialState 0)))
  = repeat true 60 ++ [false].
Proof. vm_compute. reflexivity. Qed.

(** ** Running the monad *)

Lemma wp_bind {A B} (c : M A) (f : A -> M B) (w : World) Q :
  wp c w (fun o w' =>
            match o with
            | Return a => wp (f a) w' Q
            | Throw e => Q (Throw e) w'
            end) ->
  wp (bind c f) w Q.
Proof. unfold wp, bind. destruct (c w) as [[a|e] w']; cbn [fst snd]; auto. Qed.

Lemma wp_try_catch {A} (c : M A) (h : exn -> M A) (w : World) Q :
  wp c w (fun o w' =>
            match o with
            | Return a => Q (Return a) w'
            | Throw e => wp (h e) w' Q
            end) ->
  wp (try_catch c h) w Q.
Proof. unfold wp, try_catch. destruct (c w) as [[a|e] w']; cbn [fst snd]; auto. Qed.

Lemma wp_conseq {A} (c : M A) (w : World) (Q Q' : Outcome A -> World -> Prop) :
  wp c w Q -> (forall o w', Q o w' -> Q' o w') -> wp c w Q'.
Proof. unfold wp. auto. Qed.

Lemma wp_ret {A} (a : A) (w : World) Q : Q (Return a) w -> wp (ret a) w Q.
Proof. auto. Qed.

Lemma wp_throw {A} (e : exn) (w : World) (Q : Outcome A -> World -> Prop) :
  Q (Throw e) w -> wp (throw e) w Q.
Proof. auto. Qed.

Lemma wp_getState (w : World) Q : Q (Return (state w)) w -> wp getState w Q.
Proof. auto. Qed.

Lemma wp_setState (s : SystemState) (w : World) Q :
  Q (Return tt) (with_state s w) -> wp (setState s) w Q.
Proof. auto. Qed.

Lemma wp_getTrace (w : World) Q : Q (Return (trace w)) w -> wp getTrace w Q.
Proof. auto. Qed.

Lemma wp_emit (e : Event) (w : World) Q :
  Q (Return tt) (after_event e w) -> wp (emit e) w Q.
Proof. auto. Qed.

Lemma wp_getConnections (w : World) Q :
  Q (Return (connections w)) w -> wp getConnections w Q.
Proof. auto. Qed.

Lemma wp_setConnections (cs : list nat) (w : World) Q :
  Q (Return tt) {| state := state w; connections := cs; trace := trace w |} ->
  wp (setConnections cs) w Q.
Proof. auto. Qed.

(** A pure computation either gives its value or throws. *)
Lemma wp_lift {A} (x : exn + A) (w : World) (Q : Outcome A -> World -> Prop) :
  (forall a, x = inr a -> Q (Return a) w) ->
  (forall e, x = inl e -> Q (Throw e) w) ->
  wp (lift x) w Q.
Proof. intros Hr Ht. destruct x as [e|a]; [apply Ht|apply Hr]; reflexivity. Qed.

Section Calls.

Variable E : Env.

Lemma Date_now_run (w : World) :
  Date_now E w = (Return (clock E (trace w)), after_event (EvNow (clock E (trace w))) w).
Proof. reflexivity. Qed.

Lemma callBridge_run (tool args : jsval) (w : World) :
  exists res, callBridge E tool args w = (Return res, after_event (EvBridge tool args) w).
Proof.
  unfold callBridge, bind, getTrace, emit, ret. cbn.
  destruct (bridge E (trace w) tool args); eexists; reflexivity.
Qed.

Lemma callClaude_run (p : jsstring) (ms : list Message) (w : World) :
  exists o, callClaude E p ms w = (o, after_event (EvClaude p ms) w).
Proof.
  unfold callClaude, bind, getTrace, emit, ret, throw. cbn.
  destruct (claude E (trace w) p ms) as [[[|c t]|]| |]; eexists; reflexivity.
Qed.

Lemma fetchTools_run (w : World) :
  exists tools, fetchTools E w = (Return tools, after_event EvFetchTools w).
Proof.
  unfold fetchTools, bind, getTrace, emit, ret. cbn. eexists; reflexivity.
Qed.

Lemma sendToConnection_run (c : nat) (m : WSMessage) (w : World) :
  exists cs, sendToConnection E c m w
             = (Return tt, {| state := state w; connections := cs;
                              trace := EvSend c m :: trace w |}).
Proof.
  unfold sendToConnection, bind, getTrace, emit, ret, getConnections, setConnections.
  cbn. destruct (socket_send E (trace w) c m); eexists; reflexivity.
Qed.

Lemma broadcast_loop_run (m : WSMessage) (targets : list nat) :
  forall w, exists cs tr,
    broadcast_loop E m targets w
    = (Return tt, {| state := state w; connections := cs; trace := tr |}).
Proof.
  induction targets as [|c targets IH]; intros w; cbn [broadcast_loop].
  - exists (connections w), (trace w). destruct w; reflexivity.
  - unfold bind. destruct (sendToConnection_run c m w) as [cs ->].
    destruct (IH {| state := state w; connections := cs;
                    trace := EvSend c m :: trace w |}) as (cs' & tr' & ->).
    eexists; eexists; reflexivity.
Qed.

Lemma broadcastToClients_run (m : WSMessage) (w : World) :
  exists cs tr,
    broadcastToClients E m w
    = (Return tt, {| state := state w; connections := cs; trace := tr |}).
Proof.
  unfold broadcastToClients, bind, getConnections. cbn.
  apply broadcast_loop_run.
Qed.

(** The calls to the outside in weakest-precondition form. *)
Lemma wp_Date_now (w : World) Q :
  Q (Return (clock E (trace w))) (after_event (EvNow (clock E (trace w))) w) ->
  wp (Date_now E) w Q.
Proof. auto. Qed.

Lemma wp_callBridge (tool args : jsval) (w : World) Q :
  (forall res, Q (Return res) (after_event (EvBridge tool args) w)) ->
  wp (callBridge E tool args) w Q.
Proof. intros H. unfold wp. destruct (callBridge_run tool args w) as [res ->]. apply H. Qed.

Lemma wp_callClaude (p : jsstring) (ms : list Message) (w : World) Q :
  (forall o, Q o (after_event (EvClaude p ms) w)) ->
  wp (callClaude E p ms) w Q.
Proof. intros H. unfold wp. destruct (callClaude_run p ms w) as [o ->]. apply H. Qed.

Lemma wp_fetchTools (w : World) Q :
  (forall tools, Q (Return tools) (after_event EvFetchTools w)) ->
  wp (fetchTools E) w Q.
Proof. intros H. unfold wp. destruct (fetchTools_run w) as [o ->]. apply H. Qed.

Lemma wp_sendToConnection (c : nat) (m : WSMessage) (w : World) Q :
  (forall cs, Q (Return tt) {| state := state w; connections := cs;
                               trace := EvSend c m :: trace w |}) ->
  wp (sendToConnection E c m) w Q.
Proof. intros H. unfold wp. destruct (sendToConnection_run c m w) as [o ->]. apply H. Qed.

Lemma wp_broadcastToClients (m : WSMessage) (w : World) Q :
  (forall cs tr, Q (Return tt) {| state := state w; connections := cs; trace := tr |}) ->
  wp (broadcastToClients E m) w Q.
Proof.
  intros H. unfold wp. destruct (broadcastToClients_run m w) as (cs & tr & ->). apply H.
Qed.

End Calls.

(** One step of symbolic execution. *)
Ltac wp_step :=
  lazymatch goal with
  | |- wp (bind _ _) _ _ => apply wp_bind
  | |- wp (try_catch _ _) _ _ => apply wp_try_catch
  | |- wp (ret _) _ _ => apply wp_ret
  | |- wp (throw _) _ _ => apply wp_throw
  | |- wp getState _ _ => apply wp_getState
  | |- wp (setState _) _ _ => apply wp_setState
  | |- wp getTrace _ _ => apply wp_getTrace
  | |- wp (emit _) _ _ => apply wp_emit
  | |- wp getConnections _ _ => apply wp_getConnections
  | |- wp (setConnections _) _ _ => apply wp_setConnections
  | |- wp (cancelSchedule _) _ _ => apply wp_emit
  | |- wp (lift _) _ _ => apply wp_lift; [intros ?a ?Ha|intros ?e ?He]; cbv beta iota
  | |- wp (Date_now _) _ _ => apply wp_Date_now
  | |- wp (callBridge _ _ _) _ _ => apply wp_callBridge; intros ?res
  | |- wp (callClaude _ _ _) _ _ => apply wp_callClaude; intros [?response|?e]
  | |- wp (fetchTools _) _ _ => apply wp_fetchTools; intros ?tools
  | |- wp (sendToConnection _ _ _) _ _ => apply wp_sendToConnection; intros ?cs
  | |- wp (broadcastToClients _ _) _ _ => apply wp_broadcastToClients; intros ?cs ?tr
  end.

Ltac wp_steps := repeat wp_step.

(** ** The history cap *)

Lemma slice_last_length {A} (n : nat) (l : list A) :
  (List.length (slice_last n l) <= n)%nat.
Proof. unfold slice_last. rewrite length_skipn. lia. Qed.

(** [slice_last n l] is the end of [l]: what is dropped is the oldest
    entries, and nothing is dropped from a list of at most [n] entries. *)
Lemma slice_last_suffix {A} (n : nat) (l : list A) :
  exists evicted,
    l = evicted ++ slice_last n l
    /\ List.length evicted = (List.length l - n)%nat.
Proof.
  exists (firstn (List.length l - n) l). unfold slice_last. split.
  - symmetry. apply firstn_skipn.
  - rewrite length_firstn. lia.
Qed.

Lemma slice_last_short {A} (n : nat) (l : list A) :
  (List.length l <= n)%nat -> slice_last n l = l.
Proof.
  intros H. unfold slice_last.
  replace (List.length l - n)%nat with 0%nat by lia. reflexivity.
Qed.

Lemma history_step_refl (op : Operation) (h : list Message) : history_step op h h.
Proof. left. reflexivity. Qed.

Lemma history_step_bounded (op : Operation) (h h' : list Message) :
  history_step op h h' -> (List.length h <= 50)%nat -> (List.length h' <= 50)%nat.
Proof.
  intros [->|[->|(a & _ & ->)]] Hb.
  - exact Hb.
  - cbn. lia.
  - apply slice_last_length.
Qed.

#[local] Hint Resolve history_step_refl : core.

(** Brings the fields of the worlds and states met during an execution
    into normal form. *)
Ltac world_simpl :=
  cbn [state connections trace after_event with_state
       history preferences lastActive pendingAction rateLimit scheduleRegistry
       with_history with_preferences with_lastActive with_pendingAction
       with_rateLimit with_scheduleRegistry initialState fst snd] in *.

Section History.

Variable E : Env.

(** [parseResponse] leaves the history alone. *)
Lemma parseResponse_history (content : jsstring) (w : World) :
  wp (parseResponse E content) w
     (fun o w' => history (state w') = history (state w)).
Proof.
  unfold parseResponse.
  destruct (regex_exec false (re_block "schedule") content) as [sm|];
    [destruct (JSON_parse (group_text content sm 1))|];
    (destruct (regex_exec false (re_block "preference") content) as [pm|];
     [destruct (JSON_parse (group_text content pm 1)) as [pref|]|]);
    try (destruct (truthy (Some pref)));
    wp_steps; reflexivity.
Qed.

(** [scheduleAction] leaves the history alone. *)
Lemma scheduleAction_history (schedule : json) (w : World) :
  wp (scheduleAction E schedule) w
     (fun o w' => history (state w') = history (state w)).
Proof.
  unfold scheduleAction. wp_steps.
  destruct (get_prop schedule "when") as [[| | |s| |]|]; wp_steps; try reflexivity.
  destruct (sdk_schedule E _ _ _) as [e|id]; wp_steps; reflexivity.
Qed.

(** The loop over the actions: when it runs to its end the history is as it
    was; when the contact flow ends the turn, the user's message has been
    appended, unless the flow stages a text of its own making. *)
Lemma run_actions_history (message : jsstring) (actions : list json) :
  forall (results : list ActionResult) (w : World),
    wp (run_actions E message actions results) w
       (fun o w' =>
          match o with
          | Return (inr _) => history (state w') = history (state w)
          | Return (inl _) =>
              (history (state w') = history (state w)
               /\ regex_test true re_make_up message = true
               /\ pendingAction (state w') <> None)
              \/ history (state w')
                 = slice_last 50 (history (state w) ++ [user_msg message])
          | Throw _ =>
              history (state w') = history (state w)
              \/ history (state w')
                 = slice_last 50 (history (state w) ++ [user_msg message])
          end).
Proof.
  induction actions as [|action rest IH]; intros results w; cbn [run_actions].
  - wp_steps. reflexivity.
  - wp_steps.
    assert (wp (run_actions E message rest
                  (results ++ [{| ar_tool := get_prop action "tool";
                                  ar_args := get_prop action "args";
                                  ar_result := result_text res;
                                  ar_success := success res;
                                  ar_image := image res |}]))
               (after_event (EvBridge (get_prop action "tool") (get_prop action "args")) w)
               (fun o w' =>
                  match o with
                  | Return (inr _) => history (state w') = history (state w)
                  | Return (inl _) =>
                      (history (state w') = history (state w)
                       /\ regex_test true re_make_up message = true
                       /\ pendingAction (state w') <> None)
                      \/ history (state w')
                         = slice_last 50 (history (state w) ++ [user_msg message])
                  | Throw _ =>
                      history (state w') = history (state w)
                      \/ history (state w')
                         = slice_last 50 (history (state w) ++ [user_msg message])
                  end)) as Hrest by exact (IH _ _).
    destruct (result res) as [[|c found]|]; try exact Hrest.
    destruct (_ && _ && _); try exact Hrest.
    destruct (find_phone (c :: found)) as [[|p phone]|]; try exact Hrest.
    destruct (get_prop action "args") as [[]|]; wp_steps; world_simpl; auto;
      (destruct (regex_test true re_make_up message) eqn:Hmake;
       [wp_steps; world_simpl; auto;
        left; split; [reflexivity|]; split; [reflexivity|discriminate]|]);
      wp_steps; world_simpl;
      match goal with
      | |- wp (if ?b then _ else _) _ _ => destruct b
      end; wp_steps; world_simpl; auto.
Qed.

(** [processChat] from the completion call on. *)
Lemma processChat_main_history (message : jsstring) (w : World) :
  wp (processChat_main E message) w
     (fun o w' => chat_step message o (state w) (state w')).
Proof.
  assert (forall (o : Outcome ChatResult) (e : exn) (st st' : SystemState),
             o = Throw e -> history st' = history st -> chat_step message o st st')
    as Hthrow.
  { intros o e st st' -> Hh. left. split; [exact Hh|]. left. eexists; reflexivity. }
  unfold processChat_main. wp_steps; world_simpl; try (eapply Hthrow; reflexivity).
  eapply wp_conseq; [apply parseResponse_history|].
  intros [parsed|e] w1 H1; world_simpl; [|eapply Hthrow; [reflexivity|exact H1]].
  apply wp_bind.
  apply wp_conseq with (Q := fun _ w2 => history (state w2) = history (state w)).
  { destruct (truthy (pr_schedule parsed));
      [destruct (pr_schedule parsed) as [schedule|]|]; wp_steps; auto.
    eapply wp_conseq; [apply scheduleAction_history|].
    intros [id|e] w2 H2; wp_steps; congruence. }
  intros [scheduledTask|e] w2 H2; [|eapply Hthrow; [reflexivity|exact H2]].
  wp_steps. eapply wp_conseq; [apply run_actions_history|].
  intros [[early|actionResults]|e] w3 H3; rewrite H2 in H3; wp_steps; world_simpl.
  - destruct H3 as [(H3 & Hmake & Hpending)|H3].
    + left. split; [exact H3|]. right. split; assumption.
    + right. exists [user_msg message]. split; [left; reflexivity|exact H3].
  - right. eexists. split; [right; eexists; reflexivity|]. world_simpl.
    rewrite H3. reflexivity.
  - destruct H3 as [H3|H3].
    + eapply Hthrow; [reflexivity|exact H3].
    + right. exists [user_msg message]. split; [left; reflexivity|exact H3].
Qed.

(** A chat turn. *)
Lemma processChat_history (message : jsstring) (w : World) :
  wp (processChat E message) w
     (fun o w' => chat_step message o (state w) (state w')).
Proof.
  unfold processChat. wp_steps.
  destruct (pendingAction (state w)) as [pending|]; [|apply processChat_main_history].
  destruct (isConfirmation message).
  { wp_steps; world_simpl. right. eexists. split; [right; eexists; reflexivity|reflexivity]. }
  destruct (isCancellation message).
  { wp_steps; world_simpl. right. eexists. split; [right; eexists; reflexivity|reflexivity]. }
  destruct (awaiting_clarification E pending).
  { wp_steps; world_simpl; right; exists [user_msg message];
      (split; [left; reflexivity|reflexivity]). }
  wp_steps; world_simpl.
  eapply wp_conseq; [apply processChat_main_history|].
  intros o w' H. exact H.
Qed.

(** A scheduled firing appends its one entry, unless the description of the
    payload cannot be printed: the firing then throws before it records
    anything. *)
Lemma executeScheduledAction_history (payload : ScheduledAction) (w : World) :
  wp (executeScheduledAction E payload) w
     (fun o w' =>
        match o with
        | Return _ =>
            exists entry,
              history (state w') = slice_last 50 (history (state w) ++ [assistant_msg entry])
        | Throw _ => history (state w') = history (state w)
        end).
Proof.
  unfold executeScheduledAction. wp_steps; world_simpl; [|reflexivity].
  destruct (find _ (scheduleRegistry (state w))) as [[id wh tl ar de cr [|]]|];
    wp_steps; world_simpl; eexists; reflexivity.
Qed.

(** What a chat turn does to the history, whatever becomes of its outcome. *)
Lemma chat_step_history_step (op : Operation) (message : jsstring)
    (o : Outcome ChatResult) (st st' : SystemState) :
  (forall a, turn_entries message a -> recorded_by op a) ->
  chat_step message o st st' -> history_step op (history st) (history st').
Proof.
  intros Hop [[-> _]|(a & Ha & ->)]; [left; reflexivity|].
  right. right. exists a. split; [apply Hop; exact Ha|reflexivity].
Qed.

Lemma handleChat_history (request : Request) (w : World) :
  wp (handleChat E request) w
     (fun _ w' => history_step (OpRequest request)
                    (history (state w)) (history (state w'))).
Proof.
  unfold handleChat. wp_steps.
  destruct (req_body request) as [|message|tool args] eqn:Hb; wp_steps; auto.
  eapply wp_conseq; [apply processChat_history|].
  intros [r|e] w1 H1; wp_steps;
    (eapply chat_step_history_step; [|exact H1]);
    intros a Ha; cbn [recorded_by]; rewrite Hb; exact Ha.
Qed.

Lemma handleExecute_history (request : Request) (w : World) :
  wp (handleExecute E request) w
     (fun _ w' => history (state w') = history (state w)).
Proof.
  unfold handleExecute. wp_steps.
  destruct (req_body request) as [|message|tool args]; wp_steps; reflexivity.
Qed.

(** An HTTP request. *)
Lemma onRequest_history (t0 : Z) (request : Request) (w : World) :
  wp (onRequest E t0 request) w
     (fun _ w' => history_step (OpRequest request)
                    (history (state w)) (history (state w'))).
Proof.
  unfold onRequest, checkRateLimit.
  destruct (_ && _); [wp_steps; auto|].
  destruct (endsWith (js "/health") _); [wp_steps; auto|].
  wp_steps. world_simpl.
  destruct (checkRateLimit_at _ (state w)) as [rc st1] eqn:Hrc.
  assert (history st1 = history (state w)) as H1.
  { unfold checkRateLimit_at in Hrc. injection Hrc as _ <-. reflexivity. }
  wp_steps. world_simpl.
  destruct (negb (allowed rc)); [wp_steps; world_simpl; rewrite H1; auto|].
  destruct (is_route "/chat" "POST" request).
  { eapply wp_conseq; [apply handleChat_history|].
    intros o w' H. world_simpl. rewrite <- H1. exact H. }
  destruct (is_route "/reset" "POST" request).
  { unfold handleReset. wp_steps. world_simpl. right. left. reflexivity. }
  destruct (is_route "/state" "GET" request); [wp_steps; world_simpl; rewrite H1; auto|].
  destruct (is_route "/execute" "POST" request).
  { eapply wp_conseq; [apply handleExecute_history|].
    intros o w' H. world_simpl. rewrite H, H1. auto. }
  destruct (is_route "/schedules" "GET" request); [wp_steps; world_simpl; rewrite H1; auto|].
  destruct (_ && _).
  { destruct (last_segment _); wp_steps; world_simpl; rewrite H1; auto. }
  destruct (is_route "/history" "GET" request); [wp_steps; world_simpl; rewrite H1; auto|].
  destruct (is_route "/clear" "POST" request).
  { wp_steps. world_simpl. right. left. reflexivity. }
  wp_steps. world_simpl. rewrite H1. auto.
Qed.

(** A frame on the real-time channel. *)
Lemma onMessage_history (connection : nat) (frame : WSFrame) (w : World) :
  wp (onMessage E connection frame) w
     (fun _ w' => history_step (OpMessage connection frame)
                    (history (state w)) (history (state w'))).
Proof.
  unfold onMessage.
  destruct frame as [|[[|token msg|]|]]; wp_steps; world_simpl; auto.
  destruct (_ && _); [|wp_steps; auto].
  destruct (negb _); wp_steps; world_simpl; auto.
  eapply wp_conseq; [apply processChat_history|].
  intros [r|e] w1 H1; wp_steps; world_simpl;
    (eapply chat_step_history_step; [|exact H1]); intros a Ha; exact Ha.
Qed.

Lemma onConnect_history (connection : nat) (w : World) :
  wp (onConnect E connection) w
     (fun _ w' => history (state w') = history (state w)).
Proof. unfold onConnect. wp_steps. reflexivity. Qed.

(** Whatever the operation, the history afterwards is the history before,
    or empty, or the last 50 entries of the history before with the
    entries of the operation appended. *)
Lemma run_operation_history (t0 : Z) (op : Operation) (w : World) :
  history_step op (history (state w)) (history (state (run_operation E t0 op w))).
Proof.
  destruct op as [request|connection|connection frame|connection|payload];
    cbn [run_operation].
  - apply (onRequest_history t0 request w).
  - left. apply (onConnect_history connection w).
  - apply (onMessage_history connection frame w).
  - left. reflexivity.
  - pose proof (executeScheduledAction_history payload w) as H. unfold wp in H.
    destruct (fst (executeScheduledAction E payload w)) as [[]|e].
    + destruct H as [entry H]. right. right. exists [assistant_msg entry].
      split; [exists entry; reflexivity|exact H].
    + left. exact H.
Qed.

End History.

(** C1. For every session (every behaviour [E] of the outside, every
    sequence of HTTP requests, channel frames, connections and scheduled
    firings run from a new session), the history never holds more than 50
    entries.  Every single operation leaves the history as it was, empties
    it, or appends its own entries -- the user's message of a chat turn,
    alone or with the assistant's entry; the one entry of a scheduled
    firing -- and keeps the last 50.  An operation that records does so
    whatever the length of the history: a chat turn that returns its
    result appends the user's message (unless it is the turn in which the
    contact flow stages a text of its own making: the request then asks
    for one and an action is left pending), a scheduled firing that
    returns appends its entry.  Keeping the last 50 of a list drops its
    oldest entries and no others. *)
Theorem history_never_exceeds_50 (E : Env) (t0 : Z) (ops : list Operation) :
  (List.length (history (state (run_operations E t0 ops (new_session t0)))) <= 50)%nat
  /\ (forall (op : Operation) (w : World),
         history_step op (history (state w)) (history (state (run_operation E t0 op w))))
  /\ (forall (message : jsstring) (w : World) (r : ChatResult),
         fst (processChat E message w) = Return r ->
         regex_test true re_make_up message = false
         \/ pendingAction (state (snd (processChat E message w))) = None ->
         exists a,
           turn_entries message a
           /\ history (state (snd (processChat E message w)))
              = slice_last 50 (history (state w) ++ a))
  /\ (forall (payload : ScheduledAction) (w : World),
         fst (executeScheduledAction E payload w) = Return tt ->
         exists entry,
           history (state (snd (executeScheduledAction E payload w)))
           = slice_last 50 (history (state w) ++ [assistant_msg entry]))
  /\ (forall h : list Message,
         exists evicted,
           h = evicted ++ slice_last 50 h
           /\ List.length evicted = (List.length h - 50)%nat).
Proof.
  split; [|split; [|split; [|split]]].
  - assert (forall w, (List.length (history (state w)) <= 50)%nat ->
              (List.length (history (state (run_operations E t0 ops w))) <= 50)%nat) as H.
    { unfold run_operations. induction ops as [|op ops IH]; intros w Hw; cbn [fold_left].
      - exact Hw.
      - apply IH. eapply history_step_bounded; [apply run_operation_history|exact Hw]. }
    apply H. cbn. lia.
  - apply run_operation_history.
  - intros message w r Hr Hrecorded.
    pose proof (processChat_history E message w) as H. unfold wp in H.
    rewrite Hr in H. destruct H as [[_ [[e He]|[Hm Hp]]]|H].
    + discriminate.
    + destruct Hrecorded as [Hmake|Hnone]; [rewrite Hm in Hmake; discriminate|].
      contradiction.
    + exact H.
  - intros payload w Hr.
    pose proof (executeScheduledAction_history E payload w) as H. unfold wp in H.
    rewrite Hr in H. exact H.
  - intros h. apply slice_last_suffix.
Qed.

(** ** The confirmation and cancellation grammars *)

Lemma orelse_Some {A} (a b : option A) (x : A) :
  orelse a b = Some x -> a = Some x \/ b = Some x.
Proof. destruct a; cbn; auto. Qed.

(** A successful match of a simple regular expression consumed one of its
    words, up to the case of letters. *)
Lemma rmatch_simple_sound (r : regex) :
  simple r = true ->
  forall {R} (s : jsstring) (pos : nat) (cs : captures)
         (k : jsstring -> nat -> captures -> option R) (x : R),
    rmatch true r s pos cs k = Some x ->
    exists s1 s2 pos' cs',
      s = s1 ++ s2
      /\ In (map (canon true) s1) (lang r)
      /\ (ends_with_eol r = true -> s2 = [])
      /\ k s2 pos' cs' = Some x.
Proof.
  induction r as [c|p|r1 IH1 r2 IH2|r1 IH1 r2 IH2|r1 IH1|g p|n r1 IH1| |];
    cbn [simple]; intros Hs R s pos cs k x Hm; try discriminate;
    cbn [rmatch lang ends_with_eol] in *.
  - destruct s as [|d s]; [discriminate|].
    destruct (canon true c =? canon true d) eqn:Hc; [|discriminate].
    apply Z.eqb_eq in Hc.
    exists [d], s, (S pos), cs. cbn. rewrite Hc. intuition discriminate.
  - apply andb_true_iff in Hs as [Hs1 Hs2].
    destruct (IH1 Hs1 _ _ _ _ _ _ Hm) as (s1 & s' & pos1 & cs1 & -> & In1 & _ & Hm2).
    destruct (IH2 Hs2 _ _ _ _ _ _ Hm2) as (s2 & s3 & pos2 & cs2 & -> & In2 & He & Hk).
    exists (s1 ++ s2), s3, pos2, cs2. rewrite app_assoc. repeat split; auto.
    rewrite map_app. apply in_flat_map. exists (map (canon true) s1). split; [assumption|].
    apply in_map. assumption.
  - apply andb_true_iff in Hs as [Hs1 Hs2].
    apply orelse_Some in Hm as [Hm|Hm].
    + destruct (IH1 Hs1 _ _ _ _ _ _ Hm) as (s1 & s2 & pos1 & cs1 & -> & In1 & He & Hk).
      exists s1, s2, pos1, cs1. repeat split; auto.
      * apply in_or_app. auto.
      * intros H. apply andb_true_iff in H as [H _]. auto.
    + destruct (IH2 Hs2 _ _ _ _ _ _ Hm) as (s1 & s2 & pos1 & cs1 & -> & In1 & He & Hk).
      exists s1, s2, pos1, cs1. repeat split; auto.
      * apply in_or_app. auto.
      * intros H. apply andb_true_iff in H as [_ H]. auto.
  - apply orelse_Some in Hm as [Hm|Hm].
    + destruct (IH1 Hs _ _ _ _ _ _ Hm) as (s1 & s2 & pos1 & cs1 & -> & In1 & _ & Hk).
      exists s1, s2, pos1, cs1. repeat split; auto; try discriminate.
      apply in_or_app. auto.
    + exists [], s, pos, cs. repeat split; auto; try discriminate.
      apply in_or_app. right. left. reflexivity.
  - destruct (IH1 Hs _ _ _ _ _ _ Hm) as (s1 & s2 & pos1 & cs1 & -> & In1 & He & Hk).
    exists s1, s2, pos1, ((n, (pos, pos1)) :: cs1). repeat split; auto.
  - destruct (Nat.eqb pos 0); [|discriminate].
    exists [], s, pos, cs. repeat split; auto; try discriminate. left. reflexivity.
  - destruct s; [|discriminate].
    exists [], [], pos, cs. repeat split; auto. left. reflexivity.
Qed.

(** An expression that starts with [^] matches at the start only. *)
Lemma search_Bol_later (ci : bool) (r : regex) (s : jsstring) (pos : nat) :
  search ci (Seq Bol r) s (S pos) = None.
Proof.
  revert pos. induction s as [|c s IH]; intros pos; cbn [search];
    unfold match_at; cbn [rmatch Nat.eqb]; [reflexivity|apply IH].
Qed.

(** The test of an anchored simple expression: the whole input is one of
    its words. *)
Lemma regex_test_anchored_simple (r : regex) (s : jsstring) :
  simple r = true -> ends_with_eol r = true ->
  regex_test true (Seq Bol r) s = true ->
  In (map (canon true) s) (lang (Seq Bol r)).
Proof.
  intros Hs He. unfold regex_test, regex_exec.
  destruct (search true (Seq Bol r) s 0) as [m|] eqn:Hm; [intros _|discriminate].
  assert (match_at true (Seq Bol r) s 0 = Some m) as Hat.
  { destruct s as [|c s]; cbn [search] in Hm;
      destruct (match_at true (Seq Bol r) _ 0); try congruence.
    rewrite search_Bol_later in Hm. discriminate. }
  unfold match_at in Hat. cbn [rmatch Nat.eqb] in Hat.
  destruct (rmatch_simple_sound r Hs _ _ _ _ _ Hat) as (s1 & s2 & _ & _ & -> & Hin & Hend & _).
  rewrite (Hend He), app_nil_r. cbn [lang flat_map]. rewrite app_nil_r.
  apply in_map_iff. exists (map (canon true) s1). split; [reflexivity|exact Hin].
Qed.

Lemma isConfirmation_words (message : jsstring) :
  isConfirmation message = true ->
  In (map (canon true) (trim message)) confirmation_words.
Proof.
  intros H. unfold isConfirmation, re_confirmation in H. cbn [Seqs] in H.
  apply regex_test_anchored_simple in H; [exact H|reflexivity|reflexivity].
Qed.

Lemma isCancellation_words (message : jsstring) :
  isCancellation message = true ->
  In (map (canon true) (trim message)) cancellation_words.
Proof.
  intros H. unfold isCancellation, re_cancellation in H. cbn [Seqs] in H.
  apply regex_test_anchored_simple in H; [exact H|reflexivity|reflexivity].
Qed.

(** No message both confirms and cancels. *)
Lemma confirmation_cancellation_disjoint (message : jsstring) :
  isCancellation message = true -> isConfirmation message = false.
Proof.
  intros Hc. destruct (isConfirmation message) eqn:Hy; [exfalso|reflexivity].
  apply isConfirmation_words in Hy. apply isCancellation_words in Hc.
  assert (forallb (fun w => negb (existsb (str_eqb w) cancellation_words))
            confirmation_words = true) as Hd by (vm_compute; reflexivity).
  rewrite forallb_forall in Hd. specialize (Hd _ Hy).
  apply negb_true_iff in Hd.
  assert (existsb (str_eqb (map (canon true) (trim message))) cancellation_words = true) as Hx.
  { apply existsb_exists. eexists. split; [exact Hc|].
    unfold str_eqb. destruct (list_eq_dec Z.eq_dec _ _); [reflexivity|contradiction]. }
  congruence.
Qed.

(** ** The pending-action state machine *)

Section Pending.

Variable E : Env.

(** C2. With an action pending (there is room for one only:
    [pendingAction] is an optional field), a message of the confirmation
    grammar calls the bridge exactly once, with the stored tool and
    arguments, reports its result and leaves no action pending; a message
    of the cancellation grammar answers [Cancelled.] after nothing but a
    reading of the clock -- no call to the bridge or to the completion
    service -- and leaves no action pending. *)
Theorem pending_confirm_or_cancel (w : World) (pending : PendingAction)
    (message : jsstring) :
  pendingAction (state w) = Some pending ->
  (isConfirmation message = true ->
   exists res now,
     let stored_tool := Some (JStr (pa_tool pending)) in
     let stored_args := Some (JObj (pa_args pending)) in
     fst (processChat E message w)
     = Return {| cr_message := if success res then js "Sent!"
                               else js "Failed: " ++ show_opt (error res);
                 cr_action := Some {| ar_tool := stored_tool;
                                      ar_args := stored_args;
                                      ar_result := result_text res;
                                      ar_success := success res;
                                      ar_image := None |};
                 cr_actions := None; cr_scheduled := None |}
     /\ fst (callBridge E stored_tool stored_args w) = Return res
     /\ trace (snd (processChat E message w))
        = EvNow now :: EvBridge stored_tool stored_args :: trace w
     /\ pendingAction (state (snd (processChat E message w))) = None
     /\ history (state (snd (processChat E message w)))
        = slice_last 50
            (history (state w)
             ++ [user_msg message;
                 assistant_msg (if success res then js "Sent!" else js "Failed.")]))
  /\ (isCancellation message = true ->
      exists now,
        fst (processChat E message w)
        = Return {| cr_message := js "Cancelled."; cr_action := None;
                    cr_actions := None; cr_scheduled := None |}
        /\ trace (snd (processChat E message w)) = EvNow now :: trace w
        /\ pendingAction (state (snd (processChat E message w))) = None
        /\ history (state (snd (processChat E message w)))
           = slice_last 50
               (history (state w) ++ [user_msg message; assistant_msg (js "Cancelled.")])).
Proof.
  intros Hp. split.
  - intros Hy.
    destruct (callBridge_run E (Some (JStr (pa_tool pending)))
                (Some (JObj (pa_args pending))) w) as [res Hres].
    exists res, (clock E (EvBridge (Some (JStr (pa_tool pending)))
                            (Some (JObj (pa_args pending))) :: trace w)).
    cbv zeta. rewrite Hres.
    assert (wp (processChat E message) w
              (fun o w' =>
                 o = Return {| cr_message := if success res then js "Sent!"
                                             else js "Failed: " ++ show_opt (error res);
                               cr_action := Some {| ar_tool := Some (JStr (pa_tool pending));
                                                    ar_args := Some (JObj (pa_args pending));
                                                    ar_result := result_text res;
                                                    ar_success := success res;
                                                    ar_image := None |};
                               cr_actions := None; cr_scheduled := None |}
                 /\ w' = with_state
                           (with_lastActive
                              (clock E (EvBridge (Some (JStr (pa_tool pending)))
                                          (Some (JObj (pa_args pending))) :: trace w))
                              (with_history
                                 (slice_last 50
                                    (history (state w)
                                     ++ [user_msg message;
                                         assistant_msg (if success res then js "Sent!"
                                                        else js "Failed.")]))
                                 (with_pendingAction None (state w))))
                           (after_event
                              (EvNow (clock E (EvBridge (Some (JStr (pa_tool pending)))
                                                 (Some (JObj (pa_args pending))) :: trace w)))
                              (after_event
                                 (EvBridge (Some (JStr (pa_tool pending)))
                                    (Some (JObj (pa_args pending)))) w)))) as H.
    { unfold processChat. wp_steps. rewrite Hp, Hy. apply wp_bind.
      unfold wp at 1. rewrite Hres. cbn [fst snd]. wp_steps. split; reflexivity. }
    destruct H as [-> ->]. repeat split; reflexivity.
  - intros Hc. pose proof (confirmation_cancellation_disjoint message Hc) as Hy.
    exists (clock E (trace w)).
    assert (wp (processChat E message) w
              (fun o w' =>
                 o = Return {| cr_message := js "Cancelled."; cr_action := None;
                               cr_actions := None; cr_scheduled := None |}
                 /\ w' = with_state
                           (with_lastActive (clock E (trace w))
                              (with_history
                                 (slice_last 50
                                    (history (state w)
                                     ++ [user_msg message; assistant_msg (js "Cancelled.")]))
                                 (with_pendingAction None (state w))))
                           (after_event (EvNow (clock E (trace w))) w))) as H.
    { unfold processChat. wp_steps. rewrite Hp, Hy, Hc. wp_steps. split; reflexivity. }
    destruct H as [-> ->]. repeat split; reflexivity.
Qed.

End Pending.

Lemma pending_confirm_or_cancel_witness :
  pendingAction (state (sample_world (with_pendingAction
      (Some (sample_pending (js "hello"))) (initialState 0)))) <> None
  /\ pendingAction (state (snd (processChat (sample_env (ClaudeReply None)) (js "Yes!")
       (sample_world (with_pendingAction
          (Some (sample_pending (js "hello"))) (initialState 0)))))) = None
  /\ pendingAction (state (snd (processChat (sample_env (ClaudeReply None)) (js "nope")
       (sample_world (with_pendingAction
          (Some (sample_pending (js "hello"))) (initialState 0)))))) = None.
Proof.
  split; [discriminate|]. split.
  - destruct (proj1 (pending_confirm_or_cancel (sample_env (ClaudeReply None))
                (sample_world (with_pendingAction
                   (Some (sample_pending (js "hello"))) (initialState 0)))
                (sample_pending (js "hello")) (js "Yes!") eq_refl) eq_refl)
      as (res & now & _ & _ & _ & H & _).
    exact H.
  - destruct (proj2 (pending_confirm_or_cancel (sample_env (ClaudeReply None))
                (sample_world (with_pendingAction
                   (Some (sample_pending (js "hello"))) (initialState 0)))
                (sample_pending (js "hello")) (js "nope") eq_refl) eq_refl)
      as (now & _ & _ & H & _).
    exact H.
Defined.

(** ** Clarification *)

Lemma str_eqb_refl (s : jsstring) : str_eqb s s = true.
Proof. unfold str_eqb. destruct (list_eq_dec Z.eq_dec s s); [reflexivity|contradiction]. Qed.

Lemma str_eqb_eq (a b : jsstring) : str_eqb a b = true <-> a = b.
Proof.
  unfold str_eqb. destruct (list_eq_dec Z.eq_dec a b); split; auto; discriminate.
Qed.



Section Clarification.

Variable E : Env.


End Clarification.


(** ** Reset *)

Section Reset.

Variable E : Env.

Lemma handleReset_run (t0 : Z) (w : World) :
  handleReset E t0 w
  = (Return (json_response (RSuccess (Some (js "History cleared, preferences kept")))),
     with_state
       (with_lastActive (clock E (trace w))
          (with_preferences (preferences (state w)) (initialState t0)))
       (after_event (EvNow (clock E (trace w))) w)).
Proof. reflexivity. Qed.

(** A request that the rate limiter lets through and that is a
    [POST /reset] runs the reset branch. *)
Lemma onRequest_reset (t0 : Z) (w : World) :
  allowed (fst (checkRateLimit_at (clock E (trace w)) (state w))) = true ->
  exists w1,
    onRequest E t0 reset_request w = handleReset E t0 w1
    /\ preferences (state w1) = preferences (state w).
Proof.
  intros Hall.
  destruct (checkRateLimit_at (clock E (trace w)) (state w)) as [rc st1] eqn:Hrc.
  cbn [fst] in Hall.
  exists (with_state st1 (after_event (EvNow (clock E (trace w))) w)).
  split.
  - assert (wp (onRequest E t0 reset_request) w
              (fun o w' =>
                 (o, w') = handleReset E t0
                             (with_state st1 (after_event (EvNow (clock E (trace w))) w))))
      as H.
    { unfold onRequest.
      change (str_eqb (req_path reset_request) (js "/") && _) with false.
      change (endsWith (js "/health") (req_path reset_request)) with false.
      change (is_route "/chat" "POST" reset_request) with false.
      change (is_route "/reset" "POST" reset_request) with true.
      cbv iota. unfold checkRateLimit. wp_steps. world_simpl. rewrite Hrc.
      wp_steps. rewrite Hall. cbn [negb]. unfold wp. symmetry. apply surjective_pairing. }
    unfold wp in H. rewrite <- H. apply surjective_pairing.
  - unfold checkRateLimit_at in Hrc. injection Hrc as _ <-. reflexivity.
Qed.

(** C9, as amended.  A [POST /reset] that the rate limiter lets through is
    answered with success; it empties the history, drops the pending
    action and keeps the preferences; sent twice in a row it leaves the
    state it leaves when sent once, up to the time stamp [lastActive] --
    the second request is always let through, the first having dropped the
    limiter's window. *)
Theorem reset_clears_and_is_idempotent (t0 : Z) (w : World) :
  allowed (fst (checkRateLimit_at (clock E (trace w)) (state w))) = true ->
  let once := onRequest E t0 reset_request w in
  let twice := onRequest E t0 reset_request (snd once) in
  fst once
  = Return (json_response (RSuccess (Some (js "History cleared, preferences kept"))))
  /\ history (state (snd once)) = []
  /\ pendingAction (state (snd once)) = None
  /\ preferences (state (snd once)) = preferences (state w)
  /\ fst twice = fst once
  /\ state (snd twice)
     = with_lastActive (lastActive (state (snd twice))) (state (snd once))
  /\ history (state (snd twice)) = []
  /\ preferences (state (snd twice)) = preferences (state w).
Proof.
  intros Hall. cbv zeta.
  destruct (onRequest_reset t0 w Hall) as (w1 & -> & Hp).
  rewrite handleReset_run. world_simpl.
  do 3 (split; [reflexivity|]). split; [exact Hp|].
  assert (allowed (fst (checkRateLimit_at
            (clock E (trace (with_state
               (with_lastActive (clock E (trace w1))
                  (with_preferences (preferences (state w1)) (initialState t0)))
               (after_event (EvNow (clock E (trace w1))) w1))))
            (state (with_state
               (with_lastActive (clock E (trace w1))
                  (with_preferences (preferences (state w1)) (initialState t0)))
               (after_event (EvNow (clock E (trace w1))) w1))))) = true) as Hall2
      by reflexivity.
  destruct (onRequest_reset t0 _ Hall2) as (w2 & -> & Hp2).
  rewrite handleReset_run. world_simpl. rewrite Hp2.
  split; [reflexivity|]. split; [reflexivity|]. split; [reflexivity|exact Hp].
Qed.

End Reset.

Lemma onRequest_reset_sample :
  state (snd (onRequest (sample_env (ClaudeReply None)) 0 reset_request
                (sample_world
                   {| history := [user_msg (js "hi"); assistant_msg (js "hello")];
                      preferences := [(js "wife", Some (JStr (js "Jane")))];
                      lastActive := 5;
                      pendingAction := Some (sample_pending []);
                      rateLimit := None;
                      scheduleRegistry := [] |})))
  = {| history := []; preferences := [(js "wife", Some (JStr (js "Jane")))];
       lastActive := 1001; pendingAction := None; rateLimit := None;
       scheduleRegistry := [] |}.
Proof. vm_compute. reflexivity. Qed.

Lemma reset_clears_and_is_idempotent_witness :
  history (state (snd (onRequest (sample_env (ClaudeReply None)) 0 reset_request
                         (sample_world (with_history [user_msg (js "hi")]
                                          (initialState 0)))))) = []
  /\ preferences (state (snd (onRequest (sample_env (ClaudeReply None)) 0 reset_request
                         (sample_world (with_history [user_msg (js "hi")]
                                          (initialState 0)))))) = [].
Proof.
  destruct (reset_clears_and_is_idempotent (sample_env (ClaudeReply None)) 0
              (sample_world (with_history [user_msg (js "hi")] (initialState 0)))
              eq_refl) as (_ & H1 & _ & H2 & _).
  split; assumption.
Defined.

(** The claim as it was stated fails in a session whose window of requests
    is used up: the [POST /reset] is refused with status 429 and the
    history stays. *)
Lemma throttled_reset_clears_nothing :
  fst (onRequest (sample_env (ClaudeReply None)) 0 reset_request
         (sample_world (with_history [user_msg (js "hi")] exhausted_state)))
  = Return {| status := 429; body := RError (js "Rate limit exceeded");
              rate_reset := Some 49 |}
  /\ history (state (snd (onRequest (sample_env (ClaudeReply None)) 0 reset_request
                            (sample_world (with_history [user_msg (js "hi")]
                                             exhausted_state)))))
     = [user_msg (js "hi")]
  /\ history (state (snd (onRequest (sample_env (ClaudeReply None)) 0 reset_request
                            (sample_world (with_history [user_msg (js "hi")]
                                             exhausted_state)))))
     <> [].
Proof. vm_compute. repeat split; try reflexivity; discriminate. Qed.

(** What a reset does to the schedules: it empties the registry and cancels
    nothing -- where [DELETE .../schedules/<id>] calls [cancelSchedule] --
    so that a schedule registered before the reset still fires after it,
    and is no longer listed. *)
Lemma reset_cancels_no_schedule :
  let E := sample_env (ClaudeReply None) in
  let scheduled := snd (scheduleAction E sample_schedule (sample_world (initialState 0))) in
  let after_reset := snd (onRequest E 0 reset_request scheduled) in
  List.length (scheduleRegistry (state scheduled)) = 1%nat
  /\ scheduleRegistry (state after_reset) = []
  /\ filter is_cancel_call (trace after_reset) = []
  /\ filter is_bridge_call
       (trace (snd (executeScheduledAction E
                      {| sa_tool := Some (JStr (js "notify"));
                         sa_args := Some (JObj [(js "message", JStr (js "Hi"))]);
                         sa_description := Some (JStr (js "Reminder")) |}
                      after_reset)))
     = [EvBridge (Some (JStr (js "notify")))
          (Some (JObj [(js "message", JStr (js "Hi"))]))].
Proof. vm_compute. repeat split; reflexivity. Qed.

(** ** Failure of the completion service *)

(** With the completion service answering 500, a chat turn over HTTP ends in
    an error response and the history stays empty: the user's message is
    not recorded.  Over the channel the failure is swallowed and nothing is
    sent to the listener. *)
Lemma completion_failure_loses_message :
  fst (handleChat (sample_env (ClaudeStatus 500)) (chat_request (js "hello"))
         (sample_world (initialState 0)))
  = Return (error_response 500 (js "Claude API error: 500"))
  /\ history (state (snd (handleChat (sample_env (ClaudeStatus 500))
                            (chat_request (js "hello"))
                            (sample_world (initialState 0))))) = []
  /\ snd (onMessage (sample_env (ClaudeStatus 500)) 7
            (FrameText (Some (DataChat (js "s3cret") (js "hello"))))
            (sample_world (initialState 0)))
     = {| state := initialState 0; connections := [7%nat];
          trace := [EvClaude sample_prompt [user_msg (js "hello")];
                    EvFetchTools] |}.
Proof. vm_compute. repeat split; reflexivity. Qed.

Section CompletionFailure.

Variable E : Env.

(** The chat turn when its completion call fails with [e]: the exception
    leaves [processChat], the history is as it was, and a pending action
    that the message did not address is dropped. *)
Lemma processChat_completion_failure (w : World) (message prompt : jsstring) (e : exn) :
  reaches_completion E (state w) message = true ->
  buildSystemPrompt E (listed_tools (fetch_tools E (trace w))) (preferences (state w))
  = inr prompt ->
  claude_error (claude E (EvFetchTools :: trace w) prompt
                  (slice_last 40 (history (state w)) ++ [user_msg message])) = Some e ->
  processChat E message w
  = (Throw e,
     {| state := with_pendingAction None (state w);
        connections := connections w;
        trace := EvClaude prompt (slice_last 40 (history (state w)) ++ [user_msg message])
                 :: EvFetchTools :: trace w |}).
Proof.
  intros Hreach Hprompt Hdown.
  assert (forall st,
             preferences st = preferences (state w) -> history st = history (state w) ->
             processChat_main E message
               {| state := st; connections := connections w; trace := trace w |}
             = (Throw e,
                {| state := st; connections := connections w;
                   trace := EvClaude prompt
                              (slice_last 40 (history (state w)) ++ [user_msg message])
                            :: EvFetchTools :: trace w |})) as Hmain.
  { intros st Hpr Hh. unfold processChat_main.
    unfold bind at 1. unfold fetchTools, bind, getTrace, emit, ret. cbn [fst snd trace state].
    unfold getState. cbn [state connections trace].
    rewrite Hpr, Hprompt, Hh. cbn [lift ret].
    unfold callClaude, bind, getTrace, emit. cbn [fst snd trace].
    destruct (claude E _ _ _) as [t|status|e']; cbn [claude_error] in Hdown;
      [discriminate| |]; injection Hdown as <-; reflexivity. }
  unfold reaches_completion in Hreach. unfold processChat.
  unfold bind at 1. cbn [getState].
  destruct (pendingAction (state w)) as [pending|] eqn:Hp.
  - apply andb_true_iff in Hreach as [Hreach Hclar].
    apply andb_true_iff in Hreach as [Hy Hc].
    apply negb_true_iff in Hy, Hc, Hclar. rewrite Hy, Hc, Hclar.
    unfold bind at 1. cbn [setState].
    apply (Hmain (with_pendingAction None (state w))); reflexivity.
  - replace w with {| state := state w; connections := connections w; trace := trace w |}
      at 1 by (destruct w; reflexivity).
    rewrite (Hmain (state w) eq_refl eq_refl).
    destruct w as [[h pr la pa rl sr] cs tr]. cbn in Hp. subst pa. reflexivity.
Qed.

(** C7, as amended.  When the completion call of a chat turn fails, the
    failure does not escape the handler on either transport; over HTTP it
    is answered with status 500 and the error's message.  The history is
    left as it was: the user's message is not recorded. *)
Theorem completion_failure_is_caught (w : World) (message token prompt : jsstring)
    (e : exn) (connection : nat) :
  reaches_completion E (state w) message = true ->
  buildSystemPrompt E (listed_tools (fetch_tools E (trace w))) (preferences (state w))
  = inr prompt ->
  claude_error (claude E (EvFetchTools :: trace w) prompt
                  (slice_last 40 (history (state w)) ++ [user_msg message])) = Some e ->
  message <> [] -> token <> [] ->
  timingSafeEqual token (API_SECRET E) = true ->
  fst (handleChat E (chat_request message) w)
  = Return (error_response 500 (exn_message e))
  /\ history (state (snd (handleChat E (chat_request message) w))) = history (state w)
  /\ fst (onMessage E connection (FrameText (Some (DataChat token message))) w)
     = Return tt
  /\ history (state (snd (onMessage E connection
                            (FrameText (Some (DataChat token message))) w)))
     = history (state w).
Proof.
  intros Hreach Hprompt Hdown Hne Htok Hsec.
  pose proof (processChat_completion_failure w message prompt e Hreach Hprompt Hdown)
    as Hrun.
  unfold handleChat, chat_request, try_catch, bind. cbn [req_body]. rewrite Hrun.
  split; [reflexivity|]. split; [reflexivity|].
  unfold onMessage, try_catch, bind. rewrite Hsec. cbn [negb].
  destruct token as [|c token]; [contradiction|].
  destruct message as [|c' message]; [contradiction|].
  cbn [nonempty andb]. rewrite Hrun. cbn [fst snd ret state trace history with_pendingAction].
  split; reflexivity.
Qed.

End CompletionFailure.

Lemma completion_failure_is_caught_witness :
  fst (handleChat (sample_env (ClaudeStatus 503)) (chat_request (js "hello"))
         (sample_world (with_history [assistant_msg (js "earlier")] (initialState 0))))
  = Return (error_response 500 (js "Claude API error: 503"))
  /\ history (state (snd (handleChat (sample_env (ClaudeStatus 503))
                            (chat_request (js "hello"))
                            (sample_world (with_history [assistant_msg (js "earlier")]
                                             (initialState 0))))))
     = [assistant_msg (js "earlier")].
Proof.
  destruct (completion_failure_is_caught (sample_env (ClaudeStatus 503))
              (sample_world (with_history [assistant_msg (js "earlier")] (initialState 0)))
              (js "hello") (js "s3cret") sample_prompt
              (Error (js "Claude API error: 503")) 7
              eq_refl eq_refl eq_refl ltac:(discriminate) ltac:(discriminate) eq_refl)
    as (H1 & H2 & _).
  split; assumption.
Defined.

(** ** Rate limiting of chat requests *)

Section Throttling.

Variable E : Env.

(** Over HTTP the check comes first: a request (other than the status and
    health probes) that the limiter refuses is answered with status 429
    after nothing but a reading of the clock and the update of the
    counter. *)
Lemma onRequest_throttled (t0 : Z) (request : Request) (w : World) :
  str_eqb (req_path request) (js "/") && str_eqb (req_method request) (js "GET") = false ->
  endsWith (js "/health") (req_path request) = false ->
  allowed (fst (checkRateLimit_at (clock E (trace w)) (state w))) = false ->
  onRequest E t0 request w
  = (Return {| status := 429; body := RError (js "Rate limit exceeded");
               rate_reset :=
                 Some ((resetIn (fst (checkRateLimit_at (clock E (trace w)) (state w)))
                        + 999) / 1000) |},
     with_state (snd (checkRateLimit_at (clock E (trace w)) (state w)))
       (after_event (EvNow (clock E (trace w))) w)).
Proof.
  intros Hroot Hhealth Hden.
  destruct (checkRateLimit_at (clock E (trace w)) (state w)) as [rc st1] eqn:Hrc.
  cbn [fst snd] in *.
  assert (wp (onRequest E t0 request) w
            (fun o w' =>
               o = Return {| status := 429; body := RError (js "Rate limit exceeded");
                             rate_reset := Some ((resetIn rc + 999) / 1000) |}
               /\ w' = with_state st1 (after_event (EvNow (clock E (trace w))) w))) as H.
  { unfold onRequest. rewrite Hroot, Hhealth. unfold checkRateLimit.
    wp_steps. world_simpl. rewrite Hrc. wp_steps. rewrite Hden. cbn [negb].
    wp_steps. split; reflexivity. }
  destruct H as [H1 H2]. rewrite <- H1, <- H2. apply surjective_pairing.
Qed.

End Throttling.

(** C4 at a failing input.  In a session whose window of 60 requests is
    used up, a chat request over HTTP is refused with status 429 and
    nothing else happens; the same chat message sent as a frame of the
    real-time channel, with the right token, is processed in full -- the
    completion service is called -- and the counter of the rate limiter is
    not even touched: [onMessage] never calls [checkRateLimit]. *)
Theorem websocket_chat_is_not_rate_limited :
  allowed (fst (checkRateLimit_at 1000 exhausted_state)) = false
  /\ fst (onRequest (sample_env (ClaudeReply (Some (js "Hi!")))) 0
            (chat_request (js "hello")) (sample_world exhausted_state))
     = Return {| status := 429; body := RError (js "Rate limit exceeded");
                 rate_reset := Some 49 |}
  /\ trace (snd (onRequest (sample_env (ClaudeReply (Some (js "Hi!")))) 0
                   (chat_request (js "hello")) (sample_world exhausted_state)))
     = [EvNow 1000]
  /\ filter is_claude_call
       (trace (snd (onMessage (sample_env (ClaudeReply (Some (js "Hi!")))) 7
                      (FrameText (Some (DataChat (js "s3cret") (js "hello"))))
                      (sample_world exhausted_state))))
     = [EvClaude sample_prompt [user_msg (js "hello")]]
  /\ rateLimit (state (snd (onMessage (sample_env (ClaudeReply (Some (js "Hi!")))) 7
                             (FrameText (Some (DataChat (js "s3cret") (js "hello"))))
                             (sample_world exhausted_state))))
     = Some {| count := 60; resetAt := 50000 |}
  /\ history (state (snd (onMessage (sample_env (ClaudeReply (Some (js "Hi!")))) 7
                           (FrameText (Some (DataChat (js "s3cret") (js "hello"))))
                           (sample_world exhausted_state))))
     = [user_msg (js "hello"); assistant_msg (js "Hi!")].
Proof. vm_compute. repeat split; reflexivity. Qed.

(** ** The regular-expression engine *)

(** Every success of the engine is a match in the sense of [den]. *)
Lemma star_loop_sound {R} (g : bool) (p : Z -> bool)
    (k : jsstring -> nat -> option R) (s : jsstring) :
  forall (pos : nat) (x : R),
    star_loop g p k s pos = Some x ->
    exists s1 s2 pos',
      s = s1 ++ s2 /\ Forall (fun d => p d = true) s1 /\ k s2 pos' = Some x.
Proof.
  induction s as [|d s IH]; intros pos x H; cbn [star_loop] in H.
  - exists [], [], pos. auto.
  - destruct (p d) eqn:Hp.
    + assert (star_loop g p k s (S pos) = Some x \/ k (d :: s) pos = Some x) as [H'|H'].
      { destruct g; apply orelse_Some in H; tauto. }
      * destruct (IH _ _ H') as (s1 & s2 & pos' & -> & Hall & Hk).
        exists (d :: s1), s2, pos'. auto.
      * exists [], (d :: s), pos. auto.
    + exists [], (d :: s), pos. auto.
Qed.

Lemma rmatch_sound (ci : bool) (r : regex) :
  forall {R} (s : jsstring) (pos : nat) (cs : captures)
         (k : jsstring -> nat -> captures -> option R) (x : R),
    rmatch ci r s pos cs k = Some x ->
    exists s1 s2 pos' cs',
      s = s1 ++ s2 /\ den ci r s1 s2 /\ k s2 pos' cs' = Some x.
Proof.
  induction r as [c|p|r1 IH1 r2 IH2|r1 IH1 r2 IH2|r1 IH1|g p|n r1 IH1| |];
    intros R s pos cs k x Hm; cbn [rmatch den] in *.
  - destruct s as [|d s]; [discriminate|].
    destruct (canon ci c =? canon ci d) eqn:Hc; [|discriminate].
    apply Z.eqb_eq in Hc. exists [d], s, (S pos), cs. eauto.
  - destruct s as [|d s]; [discriminate|].
    destruct (p d) eqn:Hp; [|discriminate].
    exists [d], s, (S pos), cs. eauto.
  - destruct (IH1 _ _ _ _ _ _ Hm) as (s1 & s' & pos1 & cs1 & -> & D1 & Hm2).
    destruct (IH2 _ _ _ _ _ _ Hm2) as (s2 & s3 & pos2 & cs2 & -> & D2 & Hk).
    exists (s1 ++ s2), s3, pos2, cs2. rewrite app_assoc. eauto 8.
  - apply orelse_Some in Hm as [Hm|Hm].
    + destruct (IH1 _ _ _ _ _ _ Hm) as (s1 & s2 & pos1 & cs1 & -> & D & Hk). eauto 8.
    + destruct (IH2 _ _ _ _ _ _ Hm) as (s1 & s2 & pos1 & cs1 & -> & D & Hk). eauto 8.
  - apply orelse_Some in Hm as [Hm|Hm].
    + destruct (IH1 _ _ _ _ _ _ Hm) as (s1 & s2 & pos1 & cs1 & -> & D & Hk). eauto 8.
    + exists [], s, pos, cs. auto.
  - destruct (star_loop_sound _ _ _ _ _ _ Hm) as (s1 & s2 & pos' & -> & Hall & Hk).
    exists s1, s2, pos', cs. auto.
  - destruct (IH1 _ _ _ _ _ _ Hm) as (s1 & s2 & pos1 & cs1 & -> & D & Hk). eauto 8.
  - destruct (Nat.eqb pos 0); [|discriminate]. exists [], s, pos, cs. auto.
  - destruct s; [|discriminate]. exists [], [], pos, cs. auto.
Qed.

(** A test that succeeds on an expression anchored at the start is a match
    of the whole input from its first character. *)
Lemma regex_test_Bol (ci : bool) (r : regex) (s : jsstring) :
  regex_test ci (Seq Bol r) s = true -> exists s1 s2, s = s1 ++ s2 /\ den ci r s1 s2.
Proof.
  unfold regex_test, regex_exec.
  destruct (search ci (Seq Bol r) s 0) as [m|] eqn:Hm; [intros _|discriminate].
  assert (match_at ci (Seq Bol r) s 0 = Some m) as Hat.
  { destruct s as [|c s]; cbn [search] in Hm;
      destruct (match_at ci (Seq Bol r) _ 0); try congruence.
    rewrite search_Bol_later in Hm. discriminate. }
  unfold match_at in Hat. cbn [rmatch Nat.eqb] in Hat.
  destruct (rmatch_sound ci r _ _ _ _ _ Hat) as (s1 & s2 & _ & _ & -> & D & _).
  eauto.
Qed.

(** The scan for a match passes over characters at which no match starts. *)
Lemma search_skip (ci : bool) (r : regex) (pre rest : jsstring) :
  (forall d s pos, In d pre -> match_at ci r (d :: s) pos = None) ->
  forall pos, search ci r (pre ++ rest) pos = search ci r rest (pos + List.length pre).
Proof.
  induction pre as [|d pre IH]; intros Hpre pos; cbn [app List.length].
  - rewrite Nat.add_0_r. reflexivity.
  - cbn [search]. rewrite Hpre by (left; reflexivity).
    rewrite IH by (intros; apply Hpre; right; assumption).
    f_equal. lia.
Qed.

(** A greedy star over a run of characters of its class, all of it wanted
    by what follows. *)
Lemma star_loop_greedy_run {R} (p : Z -> bool) (k : jsstring -> nat -> option R)
    (run rest : jsstring) (x : R) :
  Forall (fun d => p d = true) run ->
  forall pos,
    k rest (pos + List.length run)%nat = Some x ->
    match rest with d :: _ => p d = false | [] => True end ->
    star_loop true p k (run ++ rest) pos = Some x.
Proof.
  induction 1 as [|d run Hd Hrun IH]; intros pos Hk Hrest; cbn [app List.length] in *.
  - rewrite Nat.add_0_r in Hk. destruct rest as [|d rest]; cbn [star_loop].
    + exact Hk.
    + rewrite Hrest. exact Hk.
  - cbn [star_loop]. rewrite Hd.
    rewrite (IH (S pos)); [reflexivity| |assumption].
    rewrite <- Hk. f_equal. lia.
Qed.

(** ** Digits *)

Lemma is_digit_cases (d : Z) :
  is_digit d = true ->
  d = 48 \/ d = 49 \/ d = 50 \/ d = 51 \/ d = 52 \/ d = 53 \/ d = 54 \/ d = 55
  \/ d = 56 \/ d = 57.
Proof. unfold is_digit. intros H. apply andb_true_iff in H as [H1 H2]. lia. Qed.

Lemma substring_middle (pre mid post : jsstring) :
  substring (List.length pre) (List.length pre + List.length mid) (pre ++ mid ++ post) = mid.
Proof.
  unfold substring. rewrite skipn_app, skipn_all, Nat.sub_diag. cbn [skipn app].
  replace (List.length pre + List.length mid - List.length pre)%nat
    with (List.length mid + 0)%nat by lia.
  rewrite firstn_app_2. cbn [firstn]. apply app_nil_r.
Qed.

(** ** The temporal parser *)

Lemma is_cron_char_not_space (c : Z) : is_cron_char c = true -> is_space c = false.
Proof.
  unfold is_cron_char, is_digit, one_of. cbn [existsb]. intros H.
  destruct (is_space c) eqn:Hs; [exfalso|reflexivity].
  unfold is_space in Hs.
  repeat rewrite ?orb_true_iff, ?andb_true_iff, ?Z.eqb_eq, ?Z.leb_le in *.
  lia.
Qed.

Lemma trimStart_keeps (c : Z) (s : jsstring) :
  is_space c = false -> trimStart (c :: s) = c :: s.
Proof. intros H. cbn [trimStart]. rewrite H. reflexivity. Qed.

(** Trimming does nothing to a string that begins and ends with characters
    other than white space. *)
Lemma trim_id (c z : Z) (t t' : jsstring) :
  c :: t = t' ++ [z] -> is_space c = false -> is_space z = false ->
  trim (c :: t) = c :: t.
Proof.
  intros Hs Hc Hz. unfold trim. rewrite (trimStart_keeps c t Hc).
  rewrite Hs at 1. rewrite rev_app_distr. cbn [rev app].
  rewrite (trimStart_keeps z _ Hz).
  change (z :: rev t') with (rev [z] ++ rev t').
  rewrite <- rev_app_distr, rev_involutive. symmetry. exact Hs.
Qed.

Lemma plus_den_last (p : Z -> bool) (g : bool) (s1 s2 : jsstring) :
  den false (Plus g p) s1 s2 ->
  exists c t t' z, s1 = c :: t /\ s1 = t' ++ [z] /\ p c = true /\ p z = true.
Proof.
  cbn [Plus den]. intros (x & y & -> & (d & -> & Hd) & Hall).
  destruct (exists_last (l := d :: y) ltac:(discriminate)) as (t' & z & Hl).
  exists d, y, t', z. cbn [app]. repeat split; auto.
  assert (Forall (fun d => p d = true) (d :: y)) as Hf by (constructor; assumption).
  rewrite Hl in Hf. apply Forall_app in Hf as [_ Hf]. inversion Hf; assumption.
Qed.

(** A string that the cron pattern matches has no white space around it. *)
Lemma cron_trim (when : jsstring) :
  regex_test false re_cron when = true -> trim when = when.
Proof.
  intros H. unfold re_cron in H. cbn [Seqs] in H.
  apply regex_test_Bol in H as (s1 & s2 & -> & D).
  cbn [den] in D.
  destruct D as (f1 & y1 & -> & D1 & g1 & y2 & -> & _ & f2 & y3 & -> & _ & g2 & y4 & ->
                 & _ & f3 & y5 & -> & _ & g3 & y6 & -> & _ & f4 & y7 & -> & _ & g4 & y8 & ->
                 & _ & f5 & y9 & -> & D5 & (-> & ->)).
  apply plus_den_last in D1 as (c & t & _ & _ & -> & _ & Hc & _).
  apply plus_den_last in D5 as (_ & _ & t' & z & _ & -> & _ & Hz).
  rewrite !app_nil_r. cbn [app].
  apply (trim_id c z _ ((c :: t) ++ g1 ++ f2 ++ g2 ++ f3 ++ g3 ++ f4 ++ g4 ++ t')).
  - cbn [app]. rewrite <- !app_assoc. reflexivity.
  - apply is_cron_char_not_space, Hc.
  - apply is_cron_char_not_space, Hz.
Qed.

Section ParseWhenFacts.

Variable Date_parse : jsstring -> option Z.
Variable now : Z.

(** A raw cron string comes back as it is. *)
Lemma parseWhen_cron (when : jsstring) :
  regex_test false re_cron when = true ->
  parseWhen Date_parse now when = WCron when.
Proof.
  intros H. unfold parseWhen. rewrite (cron_trim when H), H. reflexivity.
Qed.

Lemma parseWhen_daily_9am :
  parseWhen Date_parse now (js "every day at 9am") = WCron (js "0 9 * * *").
Proof. vm_compute. reflexivity. Qed.

Lemma parseWhen_every_hour :
  parseWhen Date_parse now (js "every hour") = WCron (js "0 * * * *").
Proof. vm_compute. reflexivity. Qed.

(** Nothing matches and the generic date parsing fails: one minute from
    now. *)
Lemma parseWhen_fallback (when : jsstring) :
  regex_test false re_cron (trim when) = false ->
  regex_exec true re_daily when = None ->
  regex_test true (re_every "hour") when = false ->
  regex_test true (re_every "morning") when = false ->
  regex_test true (re_every "evening") when = false ->
  regex_exec true re_every_hours when = None ->
  regex_exec true re_weekday when = None ->
  regex_exec true re_relative when = None ->
  Date_parse when = None ->
  parseWhen Date_parse now when = WDate (now + 60000).
Proof.
  intros H1 H2 H3 H4 H5 H6 H7 H8 H9. unfold parseWhen.
  rewrite H1, H2, H3, H4, H5, H6, H7, H8, H9. reflexivity.
Qed.

(** [every weekday at H] for an hour of one or two digits. *)
Lemma parseWhen_weekday (H : jsstring) :
  Forall (fun d => is_digit d = true) H ->
  (1 <= List.length H <= 2)%nat ->
  parseWhen Date_parse now (js "every weekday at " ++ H)
  = WCron (js "0 " ++ string_of_Z (parseInt H) ++ js " * * 1-5").
Proof.
  intros Hd Hl.
  destruct H as [|d1 [|d2 [|d3 H]]]; cbn [List.length] in Hl; try lia.
  - inversion Hd as [|? ? H1 _]; subst.
    destruct (is_digit_cases d1 H1) as [->|[->|[->|[->|[->|[->|[->|[->|[->| ->]]]]]]]]];
      vm_compute; reflexivity.
  - inversion Hd as [|? ? H1 Hd']; subst. inversion Hd' as [|? ? H2 _]; subst.
    destruct (is_digit_cases d1 H1) as [->|[->|[->|[->|[->|[->|[->|[->|[->| ->]]]]]]]]];
      destruct (is_digit_cases d2 H2) as [->|[->|[->|[->|[->|[->|[->|[->|[->| ->]]]]]]]]];
      vm_compute; reflexivity.
Qed.

End ParseWhenFacts.

(** *** Forms with a number of any length *)

Lemma digit_not_e (d : Z) :
  is_digit d = true -> (canon true 101 =? canon true d) = false.
Proof.
  intros H.
  destruct (is_digit_cases d H) as [->|[->|[->|[->|[->|[->|[->|[->|[->| ->]]]]]]]]];
    reflexivity.
Qed.

(** No match of an expression that begins with the word [every] starts at
    a character other than [e]. *)
Lemma match_at_every_head (r : regex) (c : Z) (s : jsstring) (pos : nat) :
  (canon true 101 =? canon true c) = false ->
  match_at true (Seq (Word "every") r) (c :: s) pos = None.
Proof.
  intros H. unfold match_at.
  change (Word "every") with (Seq (Chr 101) (Lit [118; 101; 114; 121])).
  cbn [rmatch]. rewrite H. reflexivity.
Qed.

Lemma search_every_skip (r : regex) (pre rest : jsstring) (pos : nat) :
  Forall (fun c => (canon true 101 =? canon true c) = false) pre ->
  search true (Seq (Word "every") r) (pre ++ rest) pos
  = search true (Seq (Word "every") r) rest (pos + List.length pre).
Proof.
  intros H. apply search_skip. intros d s p Hin.
  apply match_at_every_head. rewrite Forall_forall in H. auto.
Qed.

Lemma digits_not_e (ds : jsstring) :
  Forall (fun d => is_digit d = true) ds ->
  Forall (fun c => (canon true 101 =? canon true c) = false) ds.
Proof. intros H. eapply Forall_impl; [|exact H]. apply digit_not_e. Qed.

(** The first character decides the cron pattern. *)
Lemma cron_first_char (c : Z) (s : jsstring) :
  is_cron_char c = false -> regex_test false re_cron (c :: s) = false.
Proof.
  intros H. unfold regex_test, regex_exec, re_cron. cbn [Seqs search].
  unfold match_at at 1. cbn [rmatch Plus Nat.eqb]. rewrite H.
  rewrite search_Bol_later. reflexivity.
Qed.

Lemma trim_letters (c z : Z) (mid : jsstring) :
  is_space c = false -> is_space z = false ->
  trim (c :: mid ++ [z]) = c :: mid ++ [z].
Proof. intros Hc Hz. apply (trim_id c z _ (c :: mid)); auto. Qed.

(** On [every N hours] the expressions tried before [every\s*(\d+)\s*hours?]
    find nothing. *)
Lemma every_N_hours_earlier (r : regex) (d0 : Z) (ds : jsstring) :
  In r [Seqs ([Star true is_space; Word "day"] ++ re_at_time);
        Seqs [Star true is_space; Word "hour"];
        Seqs [Star true is_space; Word "morning"];
        Seqs [Star true is_space; Word "evening"]] ->
  is_digit d0 = true -> Forall (fun d => is_digit d = true) ds ->
  search true (Seq (Word "every") r) (js "every " ++ d0 :: ds ++ js " hours") 0 = None.
Proof.
  intros Hr H0 Hds.
  transitivity (search true (Seq (Word "every") r) (ds ++ js " hours") 7).
  - cbn [In] in Hr.
    destruct Hr as [<-|[<-|[<-|[<-|[]]]]];
      destruct (is_digit_cases d0 H0) as [->|[->|[->|[->|[->|[->|[->|[->|[->| ->]]]]]]]]];
      reflexivity.
  - rewrite search_every_skip by (apply digits_not_e; assumption).
    cbn [In] in Hr. destruct Hr as [<-|[<-|[<-|[<-|[]]]]]; vm_compute; reflexivity.
Qed.

(** ... and that expression matches from the start, its group being the
    number. *)
Lemma every_N_hours_match (d0 : Z) (ds : jsstring) :
  is_digit d0 = true -> Forall (fun d => is_digit d = true) ds ->
  regex_exec true re_every_hours (js "every " ++ d0 :: ds ++ js " hours")
  = Some {| m_start := 0;
            m_end := 6 + (7 + List.length ds);
            m_caps := [(1%nat, (6%nat, (7 + List.length ds)%nat))] |}.
Proof.
  intros H0 Hds. unfold regex_exec.
  assert (match_at true re_every_hours (js "every " ++ d0 :: ds ++ js " hours") 0
          = Some {| m_start := 0; m_end := 6 + (7 + List.length ds);
                    m_caps := [(1%nat, (6%nat, (7 + List.length ds)%nat))] |}) as Hm.
  { transitivity
      (orelse
         (star_loop true is_digit
            (fun s' pos' =>
               rmatch true (Seqs [Star true is_space; Word "hour"; OptChr "s"]) s' pos'
                 [(1%nat, (6%nat, pos'))]
                 (fun _ e cs => Some {| m_start := 0; m_end := e; m_caps := cs |}))
            (ds ++ js " hours") 7)
         None).
    - destruct (is_digit_cases d0 H0) as [->|[->|[->|[->|[->|[->|[->|[->|[->| ->]]]]]]]]];
        reflexivity.
    - erewrite star_loop_greedy_run; [reflexivity|assumption| |reflexivity].
      vm_compute. reflexivity. }
  change (search true re_every_hours (js "every " ++ d0 :: ds ++ js " hours") 0)
    with (match match_at true re_every_hours (js "every " ++ d0 :: ds ++ js " hours") 0 with
          | Some m => Some m
          | None => search true re_every_hours
                      (skipn 1 (js "every " ++ d0 :: ds ++ js " hours")) 1
          end).
  rewrite Hm. reflexivity.
Qed.

Lemma substring_at (a b : nat) (pre mid post s : jsstring) :
  s = pre ++ mid ++ post -> a = List.length pre -> b = (a + List.length mid)%nat ->
  substring a b s = mid.
Proof. intros -> -> ->. apply substring_middle. Qed.

(** On [in N units] the expressions that begin with [every] find nothing. *)
Lemma in_N_units_earlier (r : regex) (N unit : jsstring) :
  Forall (fun d => is_digit d = true) N -> In unit time_units ->
  In (Seq (Word "every") r)
     [re_daily; re_every "hour"; re_every "morning"; re_every "evening";
      re_every_hours; re_weekday] ->
  search true (Seq (Word "every") r) (js "in " ++ N ++ js " " ++ unit ++ js "s") 0 = None.
Proof.
  intros HN Hu Hr.
  change (js "in " ++ N ++ js " " ++ unit ++ js "s")
    with (js "in " ++ (N ++ js " " ++ unit ++ js "s")).
  rewrite search_every_skip by (repeat constructor).
  rewrite search_every_skip by (apply digits_not_e; assumption).
  cbn [In time_units] in Hu, Hr.
  destruct Hu as [<-|[<-|[<-|[<-|[]]]]];
    destruct Hr as [Hr|[Hr|[Hr|[Hr|[Hr|[Hr|[]]]]]]]; rewrite <- Hr;
    vm_compute; reflexivity.
Qed.

(** ... and [in\s+(\d+)\s*(second|minute|hour|day)s?] matches from the
    start: its groups are the number and the unit. *)
Lemma in_N_units_match (d0 : Z) (ds unit : jsstring) :
  is_digit d0 = true -> Forall (fun d => is_digit d = true) ds -> In unit time_units ->
  regex_exec true re_relative (js "in " ++ d0 :: ds ++ js " " ++ unit ++ js "s")
  = Some {| m_start := 0;
            m_end := S (List.length unit + (5 + List.length ds));
            m_caps := [(2%nat, ((5 + List.length ds)%nat,
                                (List.length unit + (5 + List.length ds))%nat));
                       (1%nat, (3%nat, (4 + List.length ds)%nat))] |}.
Proof.
  intros H0 Hds Hu. unfold regex_exec.
  assert (match_at true re_relative (js "in " ++ d0 :: ds ++ js " " ++ unit ++ js "s") 0
          = Some {| m_start := 0;
                    m_end := S (List.length unit + (5 + List.length ds));
                    m_caps := [(2%nat, ((5 + List.length ds)%nat,
                                        (List.length unit + (5 + List.length ds))%nat));
                               (1%nat, (3%nat, (4 + List.length ds)%nat))] |}) as Hm.
  { transitivity
      (star_loop true is_digit
         (fun s' pos' =>
            rmatch true
              (Seqs [Star true is_space;
                     Group 2 (Alts (map Word ["second"; "minute"; "hour"; "day"]%string));
                     OptChr "s"]) s' pos'
              [(1%nat, (3%nat, pos'))]
              (fun _ e cs => Some {| m_start := 0; m_end := e; m_caps := cs |}))
         (ds ++ js " " ++ unit ++ js "s") 4).
    - destruct (is_digit_cases d0 H0) as [->|[->|[->|[->|[->|[->|[->|[->|[->| ->]]]]]]]]];
        reflexivity.
    - apply star_loop_greedy_run; [assumption| |reflexivity].
      cbn [In time_units] in Hu.
      destruct Hu as [<-|[<-|[<-|[<-|[]]]]]; vm_compute; reflexivity. }
  change (search true re_relative (js "in " ++ d0 :: ds ++ js " " ++ unit ++ js "s") 0)
    with (match match_at true re_relative
                  (js "in " ++ d0 :: ds ++ js " " ++ unit ++ js "s") 0 with
          | Some m => Some m
          | None => search true re_relative
                      (skipn 1 (js "in " ++ d0 :: ds ++ js " " ++ unit ++ js "s")) 1
          end).
  rewrite Hm. reflexivity.
Qed.

Section Numbers.

Variable Date_parse : jsstring -> option Z.
Variable now : Z.

(** [every N hours], whatever the number of digits of [N]. *)
Lemma parseWhen_every_N_hours (N : jsstring) :
  N <> [] -> Forall (fun d => is_digit d = true) N ->
  parseWhen Date_parse now (js "every " ++ N ++ js " hours")
  = WCron (js "0 */" ++ N ++ js " * * *").
Proof.
  intros Hne HN. destruct N as [|d0 ds]; [contradiction|].
  apply Forall_cons_iff in HN as [H0 Hds].
  assert (trim (js "every " ++ (d0 :: ds) ++ js " hours")
          = 101 :: js "very " ++ (d0 :: ds) ++ js " hours") as Htrim.
  { apply (trim_id 101 115 _ (js "every " ++ (d0 :: ds) ++ js " hour"));
      [|reflexivity|reflexivity].
    rewrite <- !app_assoc. reflexivity. }
  unfold parseWhen. rewrite Htrim.
  rewrite cron_first_char by reflexivity.
  change ((d0 :: ds) ++ js " hours") with (d0 :: ds ++ js " hours").
  unfold regex_test, regex_exec.
  change re_daily
    with (Seq (Word "every") (Seqs ([Star true is_space; Word "day"] ++ re_at_time))).
  change (re_every "hour") with (Seq (Word "every") (Seqs [Star true is_space; Word "hour"])).
  change (re_every "morning")
    with (Seq (Word "every") (Seqs [Star true is_space; Word "morning"])).
  change (re_every "evening")
    with (Seq (Word "every") (Seqs [Star true is_space; Word "evening"])).
  rewrite !every_N_hours_earlier by (cbn [In]; auto 6).
  fold (regex_exec true re_every_hours (js "every " ++ d0 :: ds ++ js " hours")).
  rewrite every_N_hours_match by assumption.
  unfold group_text, group. cbn [m_caps lookup_cap Nat.eqb].
  change (js "every " ++ d0 :: ds ++ js " hours")
    with (js "every " ++ (d0 :: ds) ++ js " hours").
  change 6%nat with (List.length (js "every ")) at 1.
  change (7 + List.length ds)%nat with (List.length (js "every ") + List.length (d0 :: ds))%nat.
  rewrite substring_middle. reflexivity.
Qed.

(** [in N seconds|minutes|hours|days], whatever the number of digits of
    [N]: the date built from [now + N * unit]. *)
Lemma parseWhen_in_N_units (N unit : jsstring) :
  N <> [] -> Forall (fun d => is_digit d = true) N -> In unit time_units ->
  parseWhen Date_parse now (js "in " ++ N ++ js " " ++ unit ++ js "s")
  = WDate (now + parseInt N * mult unit).
Proof.
  intros Hne HN Hu. destruct N as [|d0 ds]; [contradiction|].
  pose proof HN as HN'. apply Forall_cons_iff in HN' as [H0 Hds].
  assert (trim (js "in " ++ (d0 :: ds) ++ js " " ++ unit ++ js "s")
          = 105 :: js "n " ++ (d0 :: ds) ++ js " " ++ unit ++ js "s") as Htrim.
  { apply (trim_id 105 115 _ (js "in " ++ (d0 :: ds) ++ js " " ++ unit));
      [|reflexivity|reflexivity].
    rewrite <- !app_assoc. reflexivity. }
  unfold parseWhen. rewrite Htrim.
  rewrite cron_first_char by reflexivity.
  unfold regex_test, regex_exec.
  change re_daily
    with (Seq (Word "every") (Seqs ([Star true is_space; Word "day"] ++ re_at_time))).
  change (re_every "hour") with (Seq (Word "every") (Seqs [Star true is_space; Word "hour"])).
  change (re_every "morning")
    with (Seq (Word "every") (Seqs [Star true is_space; Word "morning"])).
  change (re_every "evening")
    with (Seq (Word "every") (Seqs [Star true is_space; Word "evening"])).
  change re_every_hours
    with (Seq (Word "every")
            (Seqs [Star true is_space; Group 1 (Plus true is_digit);
                   Star true is_space; Word "hour"; OptChr "s"])).
  change re_weekday
    with (Seq (Word "every") (Seqs ([Star true is_space; Word "weekday"] ++ re_at_time))).
  rewrite !in_N_units_earlier by (assumption || (cbn [In]; auto 8)).
  fold (regex_exec true re_relative (js "in " ++ (d0 :: ds) ++ js " " ++ unit ++ js "s")).
  change ((d0 :: ds) ++ js " " ++ unit ++ js "s")
    with (d0 :: ds ++ js " " ++ unit ++ js "s") at 1.
  rewrite in_N_units_match by assumption.
  unfold group_text, group. cbn [m_caps lookup_cap Nat.eqb].
  rewrite (substring_at 3 (4 + List.length ds) (js "in ") (d0 :: ds)
             (js " " ++ unit ++ js "s")) by reflexivity.
  rewrite (substring_at (5 + List.length ds) (List.length unit + (5 + List.length ds))
             (js "in " ++ (d0 :: ds) ++ js " ") unit (js "s")).
  - cbn [In time_units] in Hu. destruct Hu as [<-|[<-|[<-|[<-|[]]]]]; reflexivity.
  - rewrite <- !app_assoc. reflexivity.
  - rewrite !length_app. cbn [List.length js map list_ascii_of_string]. lia.
  - lia.
Qed.

End Numbers.

(** ** Numbers and their digits *)

(** Reading the digits that [String] prints gives the number back. *)
Lemma parseInt_digits_fuel (fuel : nat) :
  forall (n : Z) (acc : jsstring),
    0 <= n -> Z.log2 n < Z.of_nat fuel ->
    parseInt (digits_fuel fuel n acc)
    = fold_left (fun a d => a * 10 + (d - 48)) acc n.
Proof.
  unfold parseInt.
  induction fuel as [|fuel IH]; intros n acc Hn Hf.
  - pose proof (Z.log2_nonneg n). lia.
  - cbn [digits_fuel]. destruct (n <? 10) eqn:Hlt.
    + apply Z.ltb_lt in Hlt. cbn [fold_left].
      rewrite Z.mod_small by lia. f_equal. lia.
    + apply Z.ltb_ge in Hlt.
      rewrite IH.
      * cbn [fold_left]. f_equal.
        pose proof (Z.div_mod n 10 ltac:(lia)). lia.
      * apply Z.div_pos; lia.
      * assert (Z.log2 (n / 10) < Z.log2 n).
        { assert (n / 10 <= n / 2) as Hle.
          { apply Z.div_le_lower_bound; [lia|].
            pose proof (Z.mul_div_le n 10 ltac:(lia)). 
            pose proof (Z.div_mod n 10 ltac:(lia)).
            pose proof (Z.mod_pos_bound n 10 ltac:(lia)). nia. }
          assert (Z.log2 (n / 2) = Z.log2 n - 1) as H2.
          { change 2 with (2 ^ 1). rewrite <- Z.shiftr_div_pow2 by lia.
            rewrite Z.log2_shiftr by lia. 
            assert (1 <= Z.log2 n) by (apply Z.log2_le_pow2; lia). lia. }
          pose proof (Z.log2_le_mono (n / 10) (n / 2) Hle). lia. }
        lia.
Qed.

Lemma parseInt_string_of_Z (n : Z) : 0 <= n -> parseInt (string_of_Z n) = n.
Proof.
  intros Hn. unfold string_of_Z. rewrite parseInt_digits_fuel.
  - reflexivity.
  - exact Hn.
  - pose proof (Z.log2_nonneg n). lia.
Qed.

Lemma digits_fuel_digits (fuel : nat) :
  forall (n : Z) (acc : jsstring),
    0 <= n -> Forall (fun d => is_digit d = true) acc ->
    Forall (fun d => is_digit d = true) (digits_fuel fuel n acc).
Proof.
  induction fuel as [|fuel IH]; intros n acc Hn Hacc; cbn [digits_fuel].
  - exact Hacc.
  - assert (is_digit (48 + n mod 10) = true) as Hd.
    { pose proof (Z.mod_pos_bound n 10 ltac:(lia)).
      unfold is_digit. apply andb_true_iff. split; apply Z.leb_le; lia. }
    destruct (n <? 10).
    + constructor; assumption.
    + apply IH; [apply Z.div_pos; lia|constructor; assumption].
Qed.

Lemma digits_fuel_length (fuel : nat) :
  forall (n : Z) (acc : jsstring),
    (List.length acc <= List.length (digits_fuel fuel n acc))%nat.
Proof.
  induction fuel as [|fuel IH]; intros n acc; cbn [digits_fuel].
  - lia.
  - destruct (n <? 10); [cbn [List.length]; lia|].
    specialize (IH (n / 10) ((48 + n mod 10) :: acc)). cbn [List.length] in IH. lia.
Qed.

Lemma string_of_Z_digits (n : Z) :
  0 <= n ->
  string_of_Z n <> [] /\ Forall (fun d => is_digit d = true) (string_of_Z n).
Proof.
  intros Hn. unfold string_of_Z. split.
  - cbn [digits_fuel]. destruct (n <? 10); [discriminate|].
    pose proof (digits_fuel_length (Z.to_nat (Z.log2 n)) (n / 10) [48 + n mod 10]) as H.
    intros Heq. rewrite Heq in H. cbn [List.length] in H. lia.
  - apply digits_fuel_digits; [exact Hn|constructor].
Qed.

(** A number below 100 is printed with one or two digits. *)
Lemma string_of_Z_short (h : Z) :
  0 <= h < 100 -> (1 <= List.length (string_of_Z h) <= 2)%nat.
Proof.
  intros Hh.
  assert (h < 10 \/ 10 <= h) as [Hs|Hl] by lia.
  - unfold string_of_Z. cbn [digits_fuel].
    destruct (h <? 10) eqn:E1; [cbn; lia|apply Z.ltb_ge in E1; lia].
  - unfold string_of_Z.
    assert (3 <= Z.log2 h) by (apply Z.log2_le_pow2; lia).
    destruct (Z.to_nat (Z.log2 h)) as [|f] eqn:Ef; [lia|].
    cbn [digits_fuel].
    destruct (h <? 10) eqn:E1; [apply Z.ltb_lt in E1; lia|].
    destruct (h / 10 <? 10) eqn:E2; [cbn; lia|].
    apply Z.ltb_ge in E2.
    assert (h / 10 < 10) by (apply Z.div_lt_upper_bound; lia). lia.
Qed.

Lemma unit_lengths_mult (unit : jsstring) (ms : Z) :
  In (unit, ms) unit_lengths -> In unit time_units /\ mult unit = ms.
Proof.
  cbn [unit_lengths In]. intros [H|[H|[H|[H|[]]]]]; injection H as <- <-;
    (split; [cbn; auto|reflexivity]).
Qed.

(** C5, as amended.  [parseWhen] maps the forms of the specification as
    follows, for a call made at time [T].  A raw five-field cron string
    comes back as it is; [every day at 9am] gives the cron [0 9 * * *];
    [every hour] gives [0 * * * *]; [every N hours] gives [0 */N * * *]
    for every number [N]; [every weekday at H] gives the cron
    [0 H * * 1-5] on the weekdays; [in N seconds|minutes|hours|days] gives
    the date built from [T + N * unit], which is that instant as long as
    it lies in the range of dates, and an Invalid Date beyond it; a text
    that matches none of the forms and that the generic date parsing
    rejects gives the date [T + 60 s].  [T] is a time after the epoch. *)
Theorem parseWhen_forms (Date_parse : jsstring -> option Z) (T : Z) :
  0 <= T ->
  (forall when,
      regex_test false re_cron when = true ->
      parseWhen Date_parse T when = WCron when)
  /\ parseWhen Date_parse T (js "every day at 9am") = WCron (js "0 9 * * *")
  /\ parseWhen Date_parse T (js "every hour") = WCron (js "0 * * * *")
  /\ (forall N,
         0 <= N ->
         parseWhen Date_parse T (js "every " ++ string_of_Z N ++ js " hours")
         = WCron (js "0 */" ++ string_of_Z N ++ js " * * *"))
  /\ (forall H,
         0 <= H < 100 ->
         parseWhen Date_parse T (js "every weekday at " ++ string_of_Z H)
         = WCron (js "0 " ++ string_of_Z H ++ js " * * 1-5"))
  /\ (forall N unit ms,
         0 <= N -> In (unit, ms) unit_lengths ->
         instant (parseWhen Date_parse T
                    (js "in " ++ string_of_Z N ++ js " " ++ unit ++ js "s"))
         = if T + N * ms <=? MAX_DATE then Some (T + N * ms) else None)
  /\ (forall when,
         regex_test false re_cron (trim when) = false ->
         regex_exec true re_daily when = None ->
         regex_test true (re_every "hour") when = false ->
         regex_test true (re_every "morning") when = false ->
         regex_test true (re_every "evening") when = false ->
         regex_exec true re_every_hours when = None ->
         regex_exec true re_weekday when = None ->
         regex_exec true re_relative when = None ->
         Date_parse when = None ->
         T + 60000 <= MAX_DATE ->
         instant (parseWhen Date_parse T when) = Some (T + 60000)).
Proof.
  intros HT.
  split; [apply parseWhen_cron|].
  split; [apply parseWhen_daily_9am|].
  split; [apply parseWhen_every_hour|].
  split.
  { intros N HN. destruct (string_of_Z_digits N HN) as [Hne Hd].
    apply parseWhen_every_N_hours; assumption. }
  split.
  { intros H HH.
    destruct (string_of_Z_digits H ltac:(lia)) as [Hne Hd].
    rewrite parseWhen_weekday by (try exact Hd; apply string_of_Z_short; exact HH).
    rewrite parseInt_string_of_Z by lia. reflexivity. }
  split.
  { intros N unit ms HN Hu.
    destruct (string_of_Z_digits N HN) as [Hne Hd].
    destruct (unit_lengths_mult unit ms Hu) as [Hunit Hms].
    rewrite parseWhen_in_N_units by assumption.
    rewrite parseInt_string_of_Z by exact HN. rewrite Hms.
    assert (0 < ms) by (cbn [unit_lengths In] in Hu;
                        destruct Hu as [H|[H|[H|[H|[]]]]]; injection H as _ <-; lia).
    cbn [instant]. unfold getTime.
    rewrite Z.abs_eq by nia. reflexivity. }
  intros when H1 H2 H3 H4 H5 H6 H7 H8 H9 Hrange.
  rewrite parseWhen_fallback by assumption.
  cbn [instant]. unfold getTime. rewrite Z.abs_eq by lia.
  apply Z.leb_le in Hrange. rewrite Hrange. reflexivity.
Qed.

(** Read at a time of the year 2023, [in 5 minutes] is the instant five
    minutes later, a weekday hour is put into the cron, and so on. *)
Lemma parseWhen_forms_witness :
  parseWhen (fun _ => None) 1700000000000 (js "0 9 * * 1-5") = WCron (js "0 9 * * 1-5")
  /\ parseWhen (fun _ => None) 1700000000000 (js "every 12 hours")
     = WCron (js "0 */12 * * *")
  /\ parseWhen (fun _ => None) 1700000000000 (js "every weekday at 9")
     = WCron (js "0 9 * * 1-5")
  /\ instant (parseWhen (fun _ => None) 1700000000000 (js "in 5 minutes"))
     = Some 1700000300000
  /\ instant (parseWhen (fun _ => None) 1700000000000 (js "when the cows come home"))
     = Some 1700000060000.
Proof.
  destruct (parseWhen_forms (fun _ => None) 1700000000000 ltac:(discriminate))
    as (Hcron & _ & _ & Hhours & Hweek & Hin & Hfall).
  split; [exact (Hcron (js "0 9 * * 1-5") eq_refl)|].
  split; [exact (Hhours 12 ltac:(discriminate))|].
  split; [exact (Hweek 9 ltac:(split; [discriminate|reflexivity]))|].
  split; [exact (Hin 5 (js "minute") 60000 ltac:(discriminate)
                   ltac:(right; left; reflexivity))|].
  exact (Hfall (js "when the cows come home") eq_refl eq_refl eq_refl eq_refl
           eq_refl eq_refl eq_refl eq_refl eq_refl ltac:(discriminate)).
Defined.

(** The claim as it was stated fails for a long delay: read in the year
    2023, [in 100000000 days] should be the instant [T + N * unit], but
    the date built from that sum lies beyond the range of dates; it is an
    Invalid Date, which stands for no instant. *)
Lemma parseWhen_long_delay_is_no_instant :
  1700000000000 + 100000000 * (24 * 60 * 60 * 1000) = 8641700000000000
  /\ MAX_DATE < 8641700000000000
  /\ parseWhen (fun _ => None) 1700000000000 (js "in 100000000 days")
     = WDate 8641700000000000
  /\ instant (parseWhen (fun _ => None) 1700000000000 (js "in 100000000 days")) = None
  /\ instant (parseWhen (fun _ => None) 1700000000000 (js "in 100000000 days"))
     <> Some (1700000000000 + 100000000 * (24 * 60 * 60 * 1000)).
Proof. vm_compute. repeat split; try reflexivity; discriminate. Qed.

(** ** Malformed directive blocks *)

(** C6 at a failing input.  In a completion with a garbled action block
    before a well-formed one, and a garbled schedule block before a
    well-formed one, the two kinds of block fare differently.  The garbled
    action block is dropped by itself: the action after it is returned,
    and both blocks are taken out of the display text.  The garbled
    schedule block is the only one looked at: the well-formed schedule
    directive after it is not returned, and both schedule blocks stay in
    the text that is displayed. *)
Theorem garbled_schedule_hides_the_next :
  JSON_parse notify_body
  = Some (JObj [(js "when", JStr (js "in 5 minutes")); (js "tool", JStr (js "notify"))])
  /\ fst (parseResponse (sample_env (ClaudeReply None)) (render garbled_reply)
            (sample_world (initialState 0)))
     = Return {| pr_text := js "Will do. " ++ [10] ++ fence KSchedule (js "{oops")
                            ++ [10] ++ fence KSchedule notify_body;
                 pr_actions := [JObj [(js "tool", JStr (js "music_play"))]];
                 pr_schedule := None |}.
Proof. vm_compute. split; reflexivity. Qed.

(* ================================================================== *)
(** * Part III: further properties of the code *)
(* ================================================================== *)

(** ** The response parser on documents *)


Lemma block_tail_fails (st g : nat) (c : Z) (t : jsstring) (pos : nat) :
  (c =? 96) = false ->
  match t with [] => True | c' :: _ => (c' =? 96) = false end ->
  rmatch false (Seq (Opt (Chr 10)) (Word "```")) (c :: t) pos [(1%nat, (g, pos))]
    (fun _ e cs => Some {| m_start := st; m_end := e; m_caps := cs |}) = None.
Proof.
  intros Hc Ht.
  change (Word "```") with (Seq (Chr 96) (Seq (Chr 96) (Chr 96))).
  cbn [rmatch canon andb].
  rewrite (Z.eqb_sym 96 c), Hc.
  destruct (10 =? c); [|reflexivity].
  destruct t as [|c' t]; [reflexivity|].
  rewrite (Z.eqb_sym 96 c'), Ht. reflexivity.
Qed.

Lemma no_backtick_cons (c : Z) (s : jsstring) :
  no_backtick (c :: s) = true <-> (c =? 96) = false /\ no_backtick s = true.
Proof.
  unfold no_backtick. cbn [forallb]. rewrite andb_true_iff, negb_true_iff. tauto.
Qed.

Lemma no_backtick_app (s t : jsstring) :
  no_backtick (s ++ t) = true <-> no_backtick s = true /\ no_backtick t = true.
Proof. unfold no_backtick. rewrite forallb_app, andb_true_iff. tauto. Qed.

Lemma match_eq (st st' e e' g g' b b' : nat) :
  st = st' -> e = e' -> g = g' -> b = b' ->
  Some {| m_start := st; m_end := e; m_caps := [(1%nat, (g, b))] |}
  = Some {| m_start := st'; m_end := e'; m_caps := [(1%nat, (g', b'))] |}.
Proof. intros -> -> -> ->. reflexivity. Qed.

(** The lazy body of a block runs up to the first closing fence. *)
Lemma block_body_run (st g : nat) (body rest : jsstring) :
  no_backtick body = true ->
  forall pos,
    star_loop false is_any
      (fun s' pos' =>
         rmatch false (Seq (Opt (Chr 10)) (Word "```")) s' pos' [(1%nat, (g, pos'))]
           (fun _ e cs => Some {| m_start := st; m_end := e; m_caps := cs |}))
      (body ++ closer ++ rest) pos
    = Some {| m_start := st;
              m_end := pos + List.length body + List.length closer;
              m_caps := [(1%nat, (g, (pos + List.length body)%nat))] |}.
Proof.
  induction body as [|c body IH]; intros Hb pos.
  - replace (pos + List.length (@nil Z) + List.length closer)%nat
      with (S (S (S (S pos)))) by (cbn; lia).
    replace (pos + List.length (@nil Z))%nat with pos by (cbn; lia).
    reflexivity.
  - apply no_backtick_cons in Hb as [Hc Hb].
    cbn [app star_loop is_any].
    rewrite block_tail_fails; [| exact Hc |].
    + cbn [orelse]. rewrite (IH Hb (S pos)). cbn [List.length]. apply match_eq; lia.
    + destruct body as [|c' body]; [reflexivity|].
      apply no_backtick_cons in Hb as [Hc' _]. exact Hc'.
Qed.

(** At the start of a block of its kind the pattern matches the block, and
    captures its body. *)
Lemma match_at_fence (k : Kind) (body rest : jsstring) (pos : nat) :
  no_backtick body = true ->
  match_at false (re_block (kind_name k)) (fence k body ++ rest) pos
  = Some (located k body pos).
Proof.
  intros Hb.
  set (n := List.length (opener k)).
  assert (match_at false (re_block (kind_name k)) (fence k body ++ rest) pos
          = orelse
              (star_loop false is_any
                 (fun s' pos' =>
                    rmatch false (Seq (Opt (Chr 10)) (Word "```")) s' pos'
                      [(1%nat, (n + pos, pos'))%nat]
                      (fun _ e cs => Some {| m_start := pos; m_end := e; m_caps := cs |}))
                 (body ++ closer ++ rest) (n + pos)%nat)
              (star_loop false is_any
                 (fun s' pos' =>
                    rmatch false (Seq (Opt (Chr 10)) (Word "```")) s' pos'
                      [(1%nat, (Nat.pred n + pos, pos'))%nat]
                      (fun _ e cs => Some {| m_start := pos; m_end := e; m_caps := cs |}))
                 (10 :: body ++ closer ++ rest) (Nat.pred n + pos)%nat)) as ->.
  { unfold fence. rewrite <- !app_assoc. subst n. destruct k; reflexivity. }
  rewrite block_body_run by exact Hb. cbn [orelse]. unfold located, fence.
  apply match_eq; rewrite ?length_app; fold n;
    change (List.length closer) with 4%nat; lia.
Qed.

(** The pattern of kind [k] matches only where three backticks and the
    first letter of [k] stand. *)
Lemma match_at_start (k : Kind) (s : jsstring) (pos : nat) :
  startsWith [96; 96; 96; initial k] s = false ->
  match_at false (re_block (kind_name k)) s pos = None.
Proof.
  intros H. unfold match_at.
  assert (exists r, re_block (kind_name k)
                    = Seq (Seq (Chr 96) (Seq (Chr 96) (Seq (Chr 96) (Seq (Chr (initial k)) r))))
                          (Seqs [Opt (Chr 10); Group 1 (Star false is_any);
                                 Opt (Chr 10); Word "```"])) as [r ->].
  { destruct k; eexists; reflexivity. }
  cbn [rmatch canon andb].
  cbn [startsWith] in H.
  destruct s as [|c1 s]; [reflexivity|].
  destruct (96 =? c1); [|reflexivity].
  destruct s as [|c2 s]; [reflexivity|].
  destruct (96 =? c2); [|reflexivity].
  destruct s as [|c3 s]; [reflexivity|].
  destruct (96 =? c3); [|reflexivity].
  destruct s as [|c4 s]; [reflexivity|].
  cbn [andb] in H. rewrite andb_true_r in H. rewrite H. reflexivity.
Qed.

Lemma match_at_not_tick (k : Kind) (c : Z) (s : jsstring) (pos : nat) :
  (c =? 96) = false ->
  match_at false (re_block (kind_name k)) (c :: s) pos = None.
Proof.
  intros H. apply match_at_start. cbn [startsWith]. rewrite Z.eqb_sym, H. reflexivity.
Qed.

Lemma search_step (ci : bool) (r : regex) (c : Z) (s : jsstring) (pos : nat) :
  match_at ci r (c :: s) pos = None ->
  search ci r (c :: s) pos = search ci r s (S pos).
Proof. intros H. cbn [search]. rewrite H. reflexivity. Qed.

Lemma search_found (ci : bool) (r : regex) (s : jsstring) (pos : nat) (m : rmatch_result) :
  match_at ci r s pos = Some m -> search ci r s pos = Some m.
Proof. intros H. destruct s; cbn [search]; rewrite H; reflexivity. Qed.

(** The scan passes over prose. *)
Lemma search_prose (k : Kind) (s rest : jsstring) (pos : nat) :
  no_backtick s = true ->
  search false (re_block (kind_name k)) (s ++ rest) pos
  = search false (re_block (kind_name k)) rest (pos + List.length s).
Proof.
  intros H. apply search_skip. intros d t p Hin.
  apply match_at_not_tick.
  unfold no_backtick in H. rewrite forallb_forall in H.
  apply negb_true_iff. auto.
Qed.

Lemma kind_eqb_eq (a b : Kind) : kind_eqb a b = true <-> a = b.
Proof. destruct a, b; cbn; split; congruence. Qed.

Lemma not_kind_letter_initial (k : Kind) (c : Z) :
  not_kind_letter c = true -> (initial k =? c) = false.
Proof.
  unfold not_kind_letter, one_of. cbn [existsb]. rewrite negb_true_iff, !orb_false_iff.
  intros (Ha & Hs & Hp & _). destruct k; cbn [initial]; rewrite Z.eqb_sym; assumption.
Qed.

(** The scan passes over a block of another kind. *)
Lemma search_foreign_fence (k k' : Kind) (body rest : jsstring) (pos : nat) :
  kind_eqb k k' = false -> no_backtick body = true -> safe_after rest = true ->
  search false (re_block (kind_name k)) (fence k' body ++ rest) pos
  = search false (re_block (kind_name k)) rest (pos + List.length (fence k' body)).
Proof.
  intros Hk Hb Hs.
  assert (exists l name,
            opener k' = 96 :: 96 :: 96 :: l :: name
            /\ (initial k =? l) = false /\ (96 =? l) = false
            /\ no_backtick (l :: name) = true) as (l & name & Ho & Hl & Hl' & Hn).
  { destruct k, k'; try discriminate Hk;
      eexists; eexists; (split; [reflexivity|]); repeat split; reflexivity. }
  assert (List.length (fence k' body) = (8 + List.length name + List.length body)%nat) as ->.
  { unfold fence. rewrite Ho, !length_app. change (List.length closer) with 4%nat.
    cbn [List.length]. lia. }
  unfold fence. rewrite <- !app_assoc. rewrite Ho.
  cbn [app].
  rewrite search_step by (apply match_at_start; cbn [startsWith]; rewrite Hl; reflexivity).
  rewrite search_step by (apply match_at_start; cbn [startsWith]; rewrite Hl'; reflexivity).
  rewrite search_step by (apply match_at_start; cbn [startsWith]; rewrite Hl'; reflexivity).
  change (l :: name ++ body ++ closer ++ rest)
    with ((l :: name) ++ body ++ closer ++ rest).
  rewrite search_prose by exact Hn.
  rewrite search_prose by exact Hb.
  change (closer ++ rest) with (10 :: 96 :: 96 :: 96 :: rest).
  rewrite search_step by (apply match_at_not_tick; reflexivity).
  unfold safe_after in Hs.
  rewrite search_step.
  2:{ apply match_at_start. cbn [startsWith].
      destruct rest as [|c1 r1]; [reflexivity|].
      apply andb_true_iff in Hs as [Hs _].
      rewrite (not_kind_letter_initial k c1 Hs). reflexivity. }
  rewrite search_step.
  2:{ apply match_at_start. cbn [startsWith].
      destruct rest as [|c1 r1]; [reflexivity|].
      apply andb_true_iff in Hs as [_ Hs].
      change (96 =? 96) with true. cbn [andb].
      rewrite (Z.eqb_sym 96 c1). destruct (c1 =? 96); [|reflexivity].
      cbn [negb orb] in Hs.
      destruct r1 as [|c2 r2]; [reflexivity|].
      apply andb_true_iff in Hs as [Hs _].
      rewrite (not_kind_letter_initial k c2 Hs). reflexivity. }
  rewrite search_step.
  2:{ apply match_at_start. cbn [startsWith].
      destruct rest as [|c1 r1]; [reflexivity|].
      apply andb_true_iff in Hs as [_ Hs].
      change (96 =? 96) with true. cbn [andb].
      rewrite (Z.eqb_sym 96 c1). destruct (c1 =? 96); [|reflexivity].
      cbn [negb orb] in Hs.
      destruct r1 as [|c2 r2]; [reflexivity|].
      apply andb_true_iff in Hs as [_ Hs].
      rewrite (Z.eqb_sym 96 c2). destruct (c2 =? 96); [|reflexivity].
      cbn [negb orb] in Hs.
      destruct r2 as [|c3 r3]; [reflexivity|].
      rewrite (not_kind_letter_initial k c3 Hs). reflexivity. }
  f_equal. cbn [List.length]. lia.
Qed.

(** On a well-formed document the scan finds the first block of its kind. *)
Lemma search_doc (k : Kind) (d : list Seg) :
  wf_doc d = true ->
  forall pos, search false (re_block (kind_name k)) (render d) pos = locate k d pos.
Proof.
  induction d as [|[s|k' body] d IH]; intros Hwf pos; cbn [wf_doc] in Hwf.
  - destruct k; reflexivity.
  - apply andb_true_iff in Hwf as [Hs Hd].
    change (render (Prose s :: d)) with (s ++ render d).
    rewrite search_prose by exact Hs. cbn [locate]. apply IH. exact Hd.
  - apply andb_true_iff in Hwf as [Hwf Hd]. apply andb_true_iff in Hwf as [Hb Hs].
    change (render (Fence k' body :: d)) with (fence k' body ++ render d).
    cbn [locate]. destruct (kind_eqb k k') eqn:Hk.
    + apply kind_eqb_eq in Hk as ->. apply search_found.
      rewrite match_at_fence by exact Hb. reflexivity.
    + rewrite search_foreign_fence by assumption. apply IH. exact Hd.
Qed.

Lemma length_fence (k : Kind) (body : jsstring) :
  List.length (fence k body) = (List.length (opener k) + List.length body + 4)%nat.
Proof. unfold fence. rewrite !length_app. change (List.length closer) with 4%nat. lia. Qed.

Lemma locate_bounds (k : Kind) (d : list Seg) :
  forall pos m, locate k d pos = Some m -> (pos <= m_start m /\ m_start m < m_end m)%nat.
Proof.
  induction d as [|[s|k' body] d IH]; intros pos m H; cbn [locate] in H.
  - discriminate.
  - apply IH in H. lia.
  - destruct (kind_eqb k k').
    + injection H as <-. cbn [m_start m_end]. pose proof (length_fence k' body). lia.
    + apply IH in H. lia.
Qed.

(** The global scan goes on behind text in which nothing is found. *)
Lemma matches_from_skip (fuel : nat) (ci : bool) (r : regex) (pre rest : jsstring)
    (pos : nat) :
  search ci r (pre ++ rest) pos = search ci r rest (pos + List.length pre) ->
  (forall m, search ci r rest (pos + List.length pre) = Some m ->
             (pos + List.length pre <= m_start m /\ m_start m <= m_end m)%nat) ->
  matches_from fuel ci r (pre ++ rest) pos
  = matches_from fuel ci r rest (pos + List.length pre).
Proof.
  intros Hs Hb. destruct fuel as [|f]; [reflexivity|]. cbn [matches_from].
  rewrite Hs. destruct (search ci r rest (pos + List.length pre)) as [m|] eqn:Hm;
    [|reflexivity].
  destruct (Hb m eq_refl) as [H1 H2].
  f_equal. f_equal.
  set (e := if Nat.eqb (m_end m) (m_start m) then S (m_end m) else m_end m).
  assert (m_end m <= e)%nat by (subst e; destruct (Nat.eqb _ _); lia).
  rewrite skipn_app. rewrite skipn_all2 by lia. cbn [app]. f_equal. lia.
Qed.

(** The global scan of a well-formed document finds its blocks. *)
Lemma matches_doc (k : Kind) (d : list Seg) :
  wf_doc d = true ->
  forall fuel pos, (List.length (locate_all k d pos) < fuel)%nat ->
    matches_from fuel false (re_block (kind_name k)) (render d) pos
    = locate_all k d pos.
Proof.
  induction d as [|[s|k' body] d IH]; intros Hwf fuel pos Hf; cbn [wf_doc] in Hwf.
  - destruct fuel; [reflexivity|]. cbn [matches_from]. 
    rewrite (search_doc k [] eq_refl). reflexivity.
  - apply andb_true_iff in Hwf as [Hs Hd].
    change (render (Prose s :: d)) with (s ++ render d).
    rewrite matches_from_skip.
    + cbn [locate_all] in *. apply IH; assumption.
    + apply search_prose. exact Hs.
    + intros m Hm. rewrite search_doc in Hm by exact Hd.
      apply locate_bounds in Hm. lia.
  - apply andb_true_iff in Hwf as [Hwf Hd]. apply andb_true_iff in Hwf as [Hb Hs].
    change (render (Fence k' body :: d)) with (fence k' body ++ render d).
    cbn [locate_all] in *. destruct (kind_eqb k k') eqn:Hk.
    + apply kind_eqb_eq in Hk as ->.
      destruct fuel as [|f]; [cbn [List.length] in Hf; lia|].
      cbn [matches_from].
      rewrite (search_found _ _ _ _ _ (match_at_fence k' body (render d) pos Hb)).
      cbn [located m_start m_end].
      assert (Nat.eqb (pos + List.length (fence k' body)) pos = false) as ->.
      { apply Nat.eqb_neq. rewrite length_fence. lia. }
      f_equal.
      replace (pos + List.length (fence k' body) - pos)%nat
        with (List.length (fence k' body)) by lia.
      rewrite skipn_app, skipn_all, Nat.sub_diag. cbn [skipn app].
      apply IH; [exact Hd|]. cbn [List.length] in Hf. lia.
    + rewrite matches_from_skip.
      * apply IH; assumption.
      * apply search_foreign_fence; assumption.
      * intros m Hm. rewrite search_doc in Hm by exact Hd.
        apply locate_bounds in Hm. lia.
Qed.

Lemma locate_all_length (k : Kind) (d : list Seg) :
  forall pos, (List.length (locate_all k d pos) <= List.length (render d))%nat.
Proof.
  induction d as [|[s|k' body] d IH]; intros pos; cbn [locate_all].
  - cbn. lia.
  - change (render (Prose s :: d)) with (s ++ render d). rewrite length_app.
    specialize (IH (pos + List.length s)%nat). lia.
  - change (render (Fence k' body :: d)) with (fence k' body ++ render d).
    rewrite length_app. pose proof (length_fence k' body).
    specialize (IH (pos + List.length (fence k' body))%nat).
    destruct (kind_eqb k k'); cbn [List.length]; lia.
Qed.

(** [exec] in a loop, and [replace] with the [g] flag, visit the blocks of
    the kind. *)
Lemma regex_matches_doc (k : Kind) (d : list Seg) :
  wf_doc d = true ->
  regex_matches false (re_block (kind_name k)) (render d) = locate_all k d 0.
Proof.
  intros Hwf. unfold regex_matches. apply matches_doc; [exact Hwf|].
  pose proof (locate_all_length k d 0). lia.
Qed.

Lemma render_app (d1 d2 : list Seg) : render (d1 ++ d2) = render d1 ++ render d2.
Proof. unfold render. apply flat_map_app. Qed.

Lemma group_text_located (k : Kind) (body pre post : jsstring) :
  group_text (pre ++ fence k body ++ post) (located k body (List.length pre)) 1 = body.
Proof.
  unfold group_text, group, located. cbn [m_caps lookup_cap Nat.eqb].
  erewrite (substring_at _ _ (pre ++ opener k) body (closer ++ post)); [reflexivity| | |].
  - unfold fence. rewrite <- !app_assoc. reflexivity.
  - rewrite length_app. reflexivity.
  - reflexivity.
Qed.

(** The action directives read off the blocks found. *)
Lemma actions_located (d : list Seg) :
  forall pre,
    flat_map (parse_action (pre ++ render d)) (locate_all KAction d (List.length pre))
    = actions_of d.
Proof.
  induction d as [|[s|k body] d IH]; intros pre.
  - reflexivity.
  - change (render (Prose s :: d)) with (s ++ render d).
    cbn [locate_all actions_of flat_map app].
    rewrite app_assoc, <- length_app. apply IH.
  - change (render (Fence k body :: d)) with (fence k body ++ render d).
    cbn [locate_all].
    assert (flat_map (parse_action (pre ++ fence k body ++ render d))
              (locate_all KAction d (List.length pre + List.length (fence k body)))
            = actions_of d) as Hrest.
    { rewrite app_assoc, <- length_app. apply IH. }
    destruct k; cbn [kind_eqb flat_map actions_of]; try exact Hrest.
    rewrite Hrest. f_equal.
    unfold parse_action. rewrite group_text_located. reflexivity.
Qed.

Lemma skipn_app_le {A} (p : nat) (l1 l2 : list A) :
  (p <= List.length l1)%nat -> skipn p (l1 ++ l2) = skipn p l1 ++ l2.
Proof.
  intros H. rewrite skipn_app. replace (p - List.length l1)%nat with 0%nat by lia.
  reflexivity.
Qed.

Lemma substring_prefix (p : nat) (pre rest : jsstring) :
  (p <= List.length pre)%nat ->
  substring p (List.length pre) (pre ++ rest) = skipn p pre.
Proof.
  intros H. unfold substring. rewrite skipn_app_le by exact H.
  rewrite firstn_app. rewrite length_skipn.
  replace (List.length pre - p - (List.length pre - p))%nat with 0%nat by lia.
  cbn [firstn]. rewrite app_nil_r. apply firstn_all2. rewrite length_skipn. lia.
Qed.

(** Cutting the blocks of a kind out of a document. *)
Lemma cut_out_located (k : Kind) (d : list Seg) :
  forall pre p, (p <= List.length pre)%nat ->
    cut_out (pre ++ render d) p (locate_all k d (List.length pre))
    = skipn p pre ++ render (drop_all k d).
Proof.
  induction d as [|[s|k' body] d IH]; intros pre p Hp.
  - cbn [render flat_map locate_all cut_out drop_all]. rewrite !app_nil_r. reflexivity.
  - change (render (Prose s :: d)) with (s ++ render d).
    cbn [locate_all drop_all].
    change (render (Prose s :: drop_all k d)) with (s ++ render (drop_all k d)).
    rewrite app_assoc, <- length_app. rewrite IH by (rewrite length_app; lia).
    rewrite skipn_app_le by exact Hp. rewrite <- app_assoc. reflexivity.
  - change (render (Fence k' body :: d)) with (fence k' body ++ render d).
    cbn [locate_all drop_all]. destruct (kind_eqb k k').
    + cbn [cut_out located m_start m_end].
      rewrite substring_prefix by exact Hp. f_equal.
      rewrite app_assoc, <- length_app.
      rewrite IH by lia. rewrite skipn_all. reflexivity.
    + change (render (Fence k' body :: drop_all k d))
        with (fence k' body ++ render (drop_all k d)).
      rewrite app_assoc, <- length_app. rewrite IH by (rewrite length_app; lia).
      rewrite skipn_app_le by exact Hp. rewrite <- app_assoc. reflexivity.
Qed.

Lemma remove_all_doc (k : Kind) (d : list Seg) :
  wf_doc d = true ->
  remove_all false (re_block (kind_name k)) (render d) = render (drop_all k d).
Proof.
  intros Hwf. unfold remove_all. rewrite regex_matches_doc by exact Hwf.
  apply (cut_out_located k d [] 0). reflexivity.
Qed.

Lemma parse_actions_doc (d : list Seg) :
  wf_doc d = true -> parse_actions (render d) = actions_of d.
Proof.
  intros Hwf. unfold parse_actions.
  rewrite (regex_matches_doc KAction) by exact Hwf.
  apply (actions_located d []).
Qed.

(** The first block of a kind: its body, and the document without it. *)
Lemma locate_first (k : Kind) (d : list Seg) :
  forall pre,
    match locate k d (List.length pre) with
    | Some m =>
        exists body,
          first_body k d = Some body
          /\ group_text (pre ++ render d) m 1 = body
          /\ forall p, (p <= List.length pre)%nat ->
               cut_out (pre ++ render d) p [m] = skipn p pre ++ render (drop_first k d)
    | None => first_body k d = None /\ drop_first k d = d
    end.
Proof.
  induction d as [|[s|k' body] d IH]; intros pre.
  - cbn. auto.
  - change (render (Prose s :: d)) with (s ++ render d).
    cbn [locate first_body drop_first].
    specialize (IH (pre ++ s)). rewrite length_app in IH.
    destruct (locate k d (List.length pre + List.length s)) as [m|].
    + destruct IH as (b & Hb & Hg & Hc). exists b. rewrite app_assoc.
      split; [exact Hb|]. split; [exact Hg|]. intros p Hp.
      rewrite Hc by (rewrite ?length_app; lia).
      rewrite skipn_app_le by exact Hp. rewrite <- app_assoc. reflexivity.
    + destruct IH as [Hb Hd]. rewrite Hd. auto.
  - change (render (Fence k' body :: d)) with (fence k' body ++ render d).
    cbn [locate first_body drop_first]. destruct (kind_eqb k k') eqn:Hk.
    + exists body. split; [reflexivity|]. split.
      * apply (group_text_located k' body pre (render d)).
      * intros p Hp. cbn [cut_out m_start m_end].
        rewrite substring_prefix by exact Hp. f_equal.
        rewrite app_assoc, <- length_app. rewrite skipn_app, skipn_all, Nat.sub_diag.
        reflexivity.
    + specialize (IH (pre ++ fence k' body)). rewrite length_app in IH.
      destruct (locate k d (List.length pre + List.length (fence k' body))) as [m|].
      * destruct IH as (b & Hb & Hg & Hc). exists b. rewrite app_assoc.
        split; [exact Hb|]. split; [exact Hg|]. intros p Hp.
        rewrite Hc by (rewrite ?length_app; lia).
        rewrite skipn_app_le by exact Hp. rewrite <- app_assoc. reflexivity.
      * destruct IH as [Hb Hd]. rewrite Hd. auto.
Qed.

Lemma remove_first_doc (k : Kind) (d : list Seg) :
  wf_doc d = true ->
  remove_first false (re_block (kind_name k)) (render d) = render (drop_first k d).
Proof.
  intros Hwf. unfold remove_first, regex_exec. rewrite search_doc by exact Hwf.
  pose proof (locate_first k d []) as H. cbn [List.length app] in H.
  destruct (locate k d 0) as [m|].
  - destruct H as (b & _ & _ & Hc). apply (Hc 0%nat). lia.
  - destruct H as [_ ->]. reflexivity.
Qed.

(** What [content.match] finds of the first block of a kind: its body. *)
Lemma regex_exec_doc (k : Kind) (d : list Seg) :
  wf_doc d = true ->
  match regex_exec false (re_block (kind_name k)) (render d) with
  | Some m => first_body k d = Some (group_text (render d) m 1)
  | None => first_body k d = None
  end.
Proof.
  intros Hwf. unfold regex_exec. rewrite search_doc by exact Hwf.
  pose proof (locate_first k d []) as H. cbn [List.length app] in H.
  destruct (locate k d 0) as [m|].
  - destruct H as (b & Hb & Hg & _). rewrite Hg. exact Hb.
  - tauto.
Qed.

(** ** Trimming *)

Lemma trimStart_split (s : jsstring) :
  exists l, s = l ++ trimStart s /\ Forall (fun c => is_space c = true) l.
Proof.
  induction s as [|c s (l & Hl & Hs)]; [exists []; auto|].
  cbn [trimStart]. destruct (is_space c) eqn:Hc.
  - exists (c :: l). cbn [app]. rewrite <- Hl. auto.
  - exists []. auto.
Qed.

Lemma trimStart_pad (l s : jsstring) :
  Forall (fun c => is_space c = true) l -> trimStart (l ++ s) = trimStart s.
Proof. induction 1 as [|c l Hc _ IH]; [reflexivity|]. cbn [app trimStart]. rewrite Hc. exact IH. Qed.

Lemma trimStart_app (s r : jsstring) :
  trimStart (s ++ r)
  = match trimStart s with [] => trimStart r | _ :: _ => trimStart s ++ r end.
Proof.
  induction s as [|c s IH]; [reflexivity|].
  cbn [app trimStart]. destruct (is_space c); [exact IH|reflexivity].
Qed.

Lemma trimStart_spaces (l : jsstring) :
  Forall (fun c => is_space c = true) l -> trimStart l = [].
Proof. induction 1 as [|c l Hc _ IH]; [reflexivity|]. cbn [trimStart]. rewrite Hc. exact IH. Qed.

(** A string is its trimmed text between two runs of white space. *)
Lemma trim_split (s : jsstring) :
  exists l r, s = l ++ trim s ++ r
              /\ Forall (fun c => is_space c = true) l
              /\ Forall (fun c => is_space c = true) r.
Proof.
  destruct (trimStart_split s) as (l & Hl & Hls).
  destruct (trimStart_split (rev (trimStart s))) as (r & Hr & Hrs).
  exists l, (rev r). split; [|split; [assumption|apply Forall_rev; assumption]].
  unfold trim. rewrite Hl at 1. f_equal.
  rewrite <- (rev_involutive (trimStart s)) at 1. rewrite Hr at 1.
  apply rev_app_distr.
Qed.

(** White space around a string does not change its trimmed text. *)
Lemma trim_pad (l s r : jsstring) :
  Forall (fun c => is_space c = true) l -> Forall (fun c => is_space c = true) r ->
  trim (l ++ s ++ r) = trim s.
Proof.
  intros Hl Hr. unfold trim. rewrite trimStart_pad by exact Hl.
  rewrite trimStart_app. destruct (trimStart s) as [|c t] eqn:Hs.
  - rewrite (trimStart_spaces r Hr). reflexivity.
  - rewrite rev_app_distr. rewrite trimStart_pad by (apply Forall_rev; exact Hr).
    reflexivity.
Qed.

Lemma space_plain (c : Z) :
  is_space c = true -> (c =? 96) = false /\ not_kind_letter c = true.
Proof.
  intros H. unfold not_kind_letter, one_of. cbn [existsb].
  destruct (Z.eqb_spec c 96) as [->|_]; [discriminate H|].
  destruct (Z.eqb_spec c 97) as [->|_]; [discriminate H|].
  destruct (Z.eqb_spec c 115) as [->|_]; [discriminate H|].
  destruct (Z.eqb_spec c 112) as [->|_]; [discriminate H|].
  auto.
Qed.

Lemma spaces_no_backtick (l : jsstring) :
  Forall (fun c => is_space c = true) l -> no_backtick l = true.
Proof.
  induction 1 as [|c l Hc _ IH]; [reflexivity|].
  apply no_backtick_cons. split; [apply space_plain; exact Hc|exact IH].
Qed.

Lemma no_backtick_rev (s : jsstring) : no_backtick (rev s) = no_backtick s.
Proof.
  induction s as [|c s IH]; [reflexivity|].
  cbn [rev]. unfold no_backtick in *. rewrite forallb_app, IH. cbn [forallb].
  rewrite andb_true_r. apply andb_comm.
Qed.

Lemma no_backtick_trimStart (s : jsstring) :
  no_backtick s = true -> no_backtick (trimStart s) = true.
Proof.
  intros H. destruct (trimStart_split s) as (l & Hl & _).
  rewrite Hl in H. apply no_backtick_app in H. tauto.
Qed.

(** ** Well-formed documents *)

Lemma safe_after_prefix (a b : jsstring) :
  safe_after (a ++ b) = true -> safe_after a = true.
Proof.
  destruct a as [|c1 [|c2 [|c3 a]]]; cbn [app safe_after]; intros H.
  - reflexivity.
  - apply andb_true_iff in H as [H _]. rewrite H, orb_true_r. reflexivity.
  - apply andb_true_iff in H as [H1 H]. rewrite H1. cbn [andb].
    destruct (negb (c1 =? 96)); [reflexivity|]. cbn [orb] in *.
    apply andb_true_iff in H as [H2 _]. rewrite H2, orb_true_r. reflexivity.
  - exact H.
Qed.

Lemma safe_after_spaces (a r : jsstring) :
  safe_after a = true -> Forall (fun c => is_space c = true) r ->
  safe_after (a ++ r) = true.
Proof.
  intros Ha Hr.
  assert (forall t, safe_after (match r with [] => t | _ => r ++ t end) = true
                    \/ r = []) as Hsp.
  { intros t. destruct Hr as [|c r Hc _]; [right; reflexivity|left].
    cbn [app safe_after]. destruct (space_plain c Hc) as [H1 H2].
    rewrite H1, H2. reflexivity. }
  destruct r as [|c r]; [rewrite app_nil_r; exact Ha|].
  inversion Hr as [|? ? Hc _]; subst. destruct (space_plain c Hc) as [Hc1 Hc2].
  destruct a as [|c1 [|c2 [|c3 a]]]; cbn [app safe_after] in *.
  - rewrite Hc1, Hc2. reflexivity.
  - rewrite Hc1, Hc2. cbn [negb andb orb]. rewrite orb_true_r, andb_true_r.
    apply andb_true_iff in Ha. tauto.
  - apply andb_true_iff in Ha as [H1 Ha]. rewrite H1. cbn [andb].
    destruct (negb (c1 =? 96)); [reflexivity|]. cbn [orb] in *.
    apply andb_true_iff in Ha as [H2 _]. rewrite H2, Hc2. cbn [andb].
    apply orb_true_r.
  - exact Ha.
Qed.

Lemma wf_doc_app_prose (d : list Seg) (r : jsstring) :
  wf_doc d = true -> Forall (fun c => is_space c = true) r ->
  wf_doc (d ++ [Prose r]) = true.
Proof.
  intros Hwf Hr. induction d as [|[s|k body] d IH]; cbn [app wf_doc] in *.
  - rewrite spaces_no_backtick by exact Hr. reflexivity.
  - apply andb_true_iff in Hwf as [Hs Hd]. rewrite Hs, IH by exact Hd. reflexivity.
  - apply andb_true_iff in Hwf as [Hwf Hd]. apply andb_true_iff in Hwf as [Hb Hs].
    rewrite Hb, IH by exact Hd. rewrite render_app.
    cbn [render flat_map render_seg]. rewrite app_nil_r.
    rewrite safe_after_spaces by assumption. reflexivity.
Qed.

Lemma safe_after_fence (k : Kind) (body rest : jsstring) :
  safe_after (fence k body ++ rest) = true.
Proof. destruct k; reflexivity. Qed.

Lemma wf_doc_safe_drop_all (k : Kind) (d : list Seg) :
  wf_doc d = true -> safe_after (render d) = true ->
  safe_after (render (drop_all k d)) = true.
Proof.
  induction d as [|[s|k' body] d IH]; intros Hwf Hs; cbn [wf_doc drop_all] in *.
  - reflexivity.
  - apply andb_true_iff in Hwf as [Hn Hd].
    change (render (Prose s :: drop_all k d)) with (s ++ render (drop_all k d)).
    change (render (Prose s :: d)) with (s ++ render d) in Hs.
    destruct s as [|c s]; [exact (IH Hd Hs)|].
    apply no_backtick_cons in Hn as [Hc _].
    cbn [app safe_after] in *. rewrite Hc in *. cbn [negb orb] in *. exact Hs.
  - apply andb_true_iff in Hwf as [Hwf Hd]. apply andb_true_iff in Hwf as [Hb Hr].
    destruct (kind_eqb k k'); [exact (IH Hd Hr)|].
    apply (safe_after_fence k' body).
Qed.

Lemma wf_doc_drop_all (k : Kind) (d : list Seg) :
  wf_doc d = true -> wf_doc (drop_all k d) = true.
Proof.
  induction d as [|[s|k' body] d IH]; intros Hwf; cbn [wf_doc drop_all] in *.
  - reflexivity.
  - apply andb_true_iff in Hwf as [Hn Hd]. rewrite Hn, IH by exact Hd. reflexivity.
  - apply andb_true_iff in Hwf as [Hwf Hd]. apply andb_true_iff in Hwf as [Hb Hr].
    destruct (kind_eqb k k'); [exact (IH Hd)|].
    cbn [wf_doc]. rewrite Hb, IH by exact Hd.
    rewrite wf_doc_safe_drop_all by assumption. reflexivity.
Qed.

Lemma wf_doc_safe_drop_first (k : Kind) (d : list Seg) :
  wf_doc d = true -> safe_after (render d) = true ->
  safe_after (render (drop_first k d)) = true.
Proof.
  induction d as [|[s|k' body] d IH]; intros Hwf Hs; cbn [wf_doc drop_first] in *.
  - reflexivity.
  - apply andb_true_iff in Hwf as [Hn Hd].
    change (render (Prose s :: drop_first k d)) with (s ++ render (drop_first k d)).
    change (render (Prose s :: d)) with (s ++ render d) in Hs.
    destruct s as [|c s]; [exact (IH Hd Hs)|].
    apply no_backtick_cons in Hn as [Hc _].
    cbn [app safe_after] in *. rewrite Hc in *. cbn [negb orb] in *. exact Hs.
  - apply andb_true_iff in Hwf as [Hwf Hd]. apply andb_true_iff in Hwf as [Hb Hr].
    destruct (kind_eqb k k'); [exact Hr|].
    apply (safe_after_fence k' body).
Qed.

Lemma wf_doc_drop_first (k : Kind) (d : list Seg) :
  wf_doc d = true -> wf_doc (drop_first k d) = true.
Proof.
  induction d as [|[s|k' body] d IH]; intros Hwf; cbn [wf_doc drop_first] in *.
  - reflexivity.
  - apply andb_true_iff in Hwf as [Hn Hd]. rewrite Hn, IH by exact Hd. reflexivity.
  - apply andb_true_iff in Hwf as [Hwf Hd]. apply andb_true_iff in Hwf as [Hb Hr].
    destruct (kind_eqb k k'); [exact Hd|].
    cbn [wf_doc]. rewrite Hb, IH by exact Hd.
    rewrite wf_doc_safe_drop_first by assumption. reflexivity.
Qed.

Lemma drop_first_app_prose (k : Kind) (d : list Seg) (r : jsstring) :
  drop_first k (d ++ [Prose r]) = drop_first k d ++ [Prose r].
Proof.
  induction d as [|[s|k' body] d IH]; cbn [app drop_first].
  - reflexivity.
  - rewrite IH. reflexivity.
  - destruct (kind_eqb k k'); [reflexivity|]. rewrite IH. reflexivity.
Qed.

(** The text of a document with its leading white space trimmed off is a
    document. *)
Lemma trimStart_doc (d : list Seg) :
  wf_doc d = true ->
  exists D, wf_doc D = true /\ render D = trimStart (render d).
Proof.
  induction d as [|[s|k body] d IH]; intros Hwf; cbn [wf_doc] in Hwf.
  - exists []. auto.
  - apply andb_true_iff in Hwf as [Hs Hd].
    change (render (Prose s :: d)) with (s ++ render d).
    rewrite trimStart_app. destruct (trimStart s) as [|c t] eqn:Ht.
    + apply IH. exact Hd.
    + exists (Prose (c :: t) :: d). cbn [wf_doc]. rewrite Hd, <- Ht.
      rewrite no_backtick_trimStart by exact Hs. auto.
  - exists (Fence k body :: d). split; [exact Hwf|].
    change (render (Fence k body :: d)) with (fence k body ++ render d).
    destruct k; reflexivity.
Qed.

Lemma rev_fence_head (k : Kind) (body : jsstring) :
  exists t, rev (fence k body) = 96 :: t.
Proof.
  unfold fence. rewrite !rev_app_distr. eexists. reflexivity.
Qed.

(** The same with the trailing white space. *)
Lemma trimEnd_doc (d : list Seg) :
  wf_doc d = true ->
  exists D, wf_doc D = true /\ render D = rev (trimStart (rev (render d))).
Proof.
  induction d as [|[s|k body] d IH]; intros Hwf; cbn [wf_doc] in Hwf.
  - exists []. auto.
  - apply andb_true_iff in Hwf as [Hs Hd].
    destruct (IH Hd) as (D & HD & HrD).
    change (render (Prose s :: d)) with (s ++ render d).
    rewrite rev_app_distr, trimStart_app.
    destruct (trimStart (rev (render d))) as [|c t] eqn:Ht.
    + exists [Prose (rev (trimStart (rev s)))]. cbn [wf_doc render flat_map render_seg].
      rewrite app_nil_r. split; [|reflexivity].
      rewrite no_backtick_rev, no_backtick_trimStart; [reflexivity|].
      rewrite no_backtick_rev. exact Hs.
    + exists (Prose s :: D). cbn [wf_doc]. rewrite Hs, HD. split; [reflexivity|].
      change (render (Prose s :: D)) with (s ++ render D).
      rewrite HrD, rev_app_distr, rev_involutive. reflexivity.
  - apply andb_true_iff in Hwf as [Hwf Hd]. apply andb_true_iff in Hwf as [Hb Hr].
    destruct (IH Hd) as (D & HD & HrD).
    change (render (Fence k body :: d)) with (fence k body ++ render d).
    rewrite rev_app_distr, trimStart_app.
    destruct (trimStart (rev (render d))) as [|c t] eqn:Ht.
    + exists [Fence k body]. cbn [wf_doc render flat_map render_seg].
      rewrite app_nil_r, Hb. split; [reflexivity|].
      destruct (rev_fence_head k body) as (t & Hrev). rewrite Hrev.
      cbn [trimStart]. change (is_space 96) with false. cbn iota.
      rewrite <- Hrev. symmetry. apply rev_involutive.
    + exists (Fence k body :: D). cbn [wf_doc]. rewrite Hb, HD. split.
      * rewrite andb_true_r. cbn [andb].
        destruct (trimStart_split (rev (render d))) as (l & Hl & _).
        apply (safe_after_prefix _ (rev l)).
        rewrite Ht in Hl.
        rewrite HrD, <- rev_app_distr, <- Hl, rev_involutive. exact Hr.
      * change (render (Fence k body :: D)) with (fence k body ++ render D).
        rewrite HrD, rev_app_distr, rev_involutive. reflexivity.
Qed.

Lemma trim_doc (d : list Seg) :
  wf_doc d = true ->
  exists D, wf_doc D = true /\ render D = trim (render d).
Proof.
  intros Hwf. destruct (trimStart_doc d Hwf) as (D1 & H1 & R1).
  destruct (trimEnd_doc D1 H1) as (D2 & H2 & R2).
  exists D2. split; [exact H2|]. rewrite R2, R1. reflexivity.
Qed.

(** Removing the first block of a kind from the trimmed text of a document
    and trimming again gives the trimmed document without the block. *)
Lemma trim_remove_first (k : Kind) (d : list Seg) :
  wf_doc d = true ->
  trim (remove_first false (re_block (kind_name k)) (trim (render d)))
  = trim (render (drop_first k d)).
Proof.
  intros Hwf.
  destruct (trim_split (render d)) as (l & r & Hlr & Hl & Hr).
  destruct (trim_doc d Hwf) as (D & HD & RD).
  assert (wf_doc (Prose l :: D ++ [Prose r]) = true) as Hpad.
  { cbn [wf_doc]. rewrite spaces_no_backtick by exact Hl.
    rewrite wf_doc_app_prose by assumption. reflexivity. }
  assert (render (Prose l :: D ++ [Prose r]) = render d) as Rpad.
  { change (render (Prose l :: D ++ [Prose r])) with (l ++ render (D ++ [Prose r])).
    rewrite render_app, RD. cbn [render flat_map render_seg]. rewrite app_nil_r.
    symmetry. exact Hlr. }
  pose proof (remove_first_doc k _ Hpad) as H1. rewrite Rpad in H1.
  rewrite (remove_first_doc k d Hwf) in H1.
  cbn [drop_first] in H1. rewrite drop_first_app_prose in H1.
  change (render (Prose l :: drop_first k D ++ [Prose r]))
    with (l ++ render (drop_first k D ++ [Prose r])) in H1.
  rewrite render_app in H1. cbn [render flat_map render_seg] in H1.
  rewrite app_nil_r in H1. fold (render (drop_first k D)) in H1.
  rewrite H1, trim_pad by assumption.
  rewrite <- RD, remove_first_doc by exact HD. reflexivity.
Qed.

Lemma first_body_drop_all (k k' : Kind) (d : list Seg) :
  kind_eqb k k' = false -> first_body k (drop_all k' d) = first_body k d.
Proof.
  intros Hk. induction d as [|[s|k'' body] d IH]; cbn [drop_all first_body].
  - reflexivity.
  - exact IH.
  - destruct (kind_eqb k' k'') eqn:H'.
    + apply kind_eqb_eq in H' as <-. rewrite Hk. exact IH.
    + cbn [first_body]. rewrite IH. reflexivity.
Qed.

Lemma first_body_drop_first (k k' : Kind) (d : list Seg) :
  kind_eqb k k' = false -> first_body k (drop_first k' d) = first_body k d.
Proof.
  intros Hk. induction d as [|[s|k'' body] d IH]; cbn [drop_first first_body].
  - reflexivity.
  - exact IH.
  - destruct (kind_eqb k' k'') eqn:H'.
    + apply kind_eqb_eq in H' as <-. rewrite Hk. reflexivity.
    + cbn [first_body]. rewrite IH. reflexivity.
Qed.

Lemma first_body_drop_parsed (k k' : Kind) (d : list Seg) :
  kind_eqb k k' = false -> first_body k (drop_parsed k' d) = first_body k d.
Proof.
  intros Hk. unfold drop_parsed.
  destruct (first_body k' d) as [b|]; [|reflexivity].
  destruct (JSON_parse b); [|reflexivity].
  apply first_body_drop_first. exact Hk.
Qed.

Lemma wf_doc_drop_parsed (k : Kind) (d : list Seg) :
  wf_doc d = true -> wf_doc (drop_parsed k d) = true.
Proof.
  intros Hwf. unfold drop_parsed.
  destruct (first_body k d) as [b|]; [|exact Hwf].
  destruct (JSON_parse b); [|exact Hwf].
  apply wf_doc_drop_first. exact Hwf.
Qed.

(** One step of [parseResponse] on the text: the first block of kind [k] is
    looked up in the completion and, when it parses, removed from the text
    so far. *)
Lemma strip_parsed (k : Kind) (d d1 : list Seg) :
  wf_doc d = true -> wf_doc d1 = true -> first_body k d1 = first_body k d ->
  match regex_exec false (re_block (kind_name k)) (render d) with
  | Some m =>
      match JSON_parse (group_text (render d) m 1) with
      | Some v =>
          first_directive k d = Some v
          /\ trim (remove_first false (re_block (kind_name k)) (trim (render d1)))
             = trim (render (drop_parsed k d1))
      | None => first_directive k d = None /\ drop_parsed k d1 = d1
      end
  | None => first_directive k d = None /\ drop_parsed k d1 = d1
  end.
Proof.
  intros Hwf Hwf1 Hfb. pose proof (regex_exec_doc k d Hwf) as H.
  unfold first_directive, drop_parsed. rewrite Hfb.
  destruct (regex_exec false (re_block (kind_name k)) (render d)) as [m|]; rewrite H.
  - destruct (JSON_parse (group_text (render d) m 1)) as [v|]; [|auto].
    split; [reflexivity|]. apply trim_remove_first. exact Hwf1.
  - auto.
Qed.

(** What [parseResponse] makes of a well-formed document. *)
Lemma parseResponse_doc (E : Env) (d : list Seg) (w : World) :
  wf_doc d = true ->
  parseResponse E (render d) w
  = (Return {| pr_text := or_done (trim (render (displayed d)));
               pr_actions := actions_of d;
               pr_schedule := first_directive KSchedule d |},
     with_state (learn_preference E d (state w)) w).
Proof.
  intros Hwf. unfold parseResponse, displayed, learn_preference.
  rewrite parse_actions_doc by exact Hwf.
  change (re_block "action") with (re_block (kind_name KAction)).
  change (re_block "schedule") with (re_block (kind_name KSchedule)).
  change (re_block "preference") with (re_block (kind_name KPreference)).
  rewrite remove_all_doc by exact Hwf.
  set (d1 := drop_all KAction d).
  assert (wf_doc d1 = true) as Hwf1 by (apply wf_doc_drop_all; exact Hwf).
  pose proof (strip_parsed KSchedule d d1 Hwf Hwf1
                (first_body_drop_all KSchedule KAction d eq_refl)) as HS.
  set (d2 := drop_parsed KSchedule d1) in *.
  assert (wf_doc d2 = true) as Hwf2 by (apply wf_doc_drop_parsed; exact Hwf1).
  assert (first_body KPreference d2 = first_body KPreference d) as Hfb2.
  { subst d2 d1. rewrite first_body_drop_parsed by reflexivity.
    apply first_body_drop_all. reflexivity. }
  pose proof (strip_parsed KPreference d d2 Hwf Hwf2 Hfb2) as HP.
  assert (exists schedule text,
            match regex_exec false (re_block (kind_name KSchedule)) (render d) with
            | Some scheduleMatch =>
                match JSON_parse (group_text (render d) scheduleMatch 1) with
                | Some v =>
                    (Some v,
                     trim (remove_first false (re_block (kind_name KSchedule))
                             (trim (render d1))))
                | None => (None, trim (render d1))
                end
            | None => (None, trim (render d1))
            end = (schedule, text)
            /\ schedule = first_directive KSchedule d
            /\ text = trim (render d2)) as (schedule & text & -> & -> & ->).
  { destruct (regex_exec false (re_block (kind_name KSchedule)) (render d)) as [m|].
    - destruct (JSON_parse (group_text (render d) m 1)) as [v|].
      + destruct HS as [HS1 HS2]. eexists; eexists. split; [reflexivity|].
        split; [symmetry; exact HS1|exact HS2].
      + destruct HS as [HS1 HS2]. eexists; eexists. split; [reflexivity|].
        split; [symmetry; exact HS1|]. subst d2. rewrite HS2. reflexivity.
    - destruct HS as [HS1 HS2]. eexists; eexists. split; [reflexivity|].
      split; [symmetry; exact HS1|]. subst d2. rewrite HS2. reflexivity. }
  destruct (regex_exec false (re_block (kind_name KPreference)) (render d)) as [m|].
  - destruct (JSON_parse (group_text (render d) m 1)) as [pref|].
    + destruct HP as [HP1 HP2]. rewrite HP1, HP2.
      destruct (truthy (Some pref)); [|destruct w; reflexivity].
      unfold try_catch, bind, getState, lift. cbn [fst snd].
      destruct (ToString E (get_prop pref "key")) as [e|key]; destruct w; reflexivity.
    + destruct HP as [HP1 HP2]. rewrite HP1, HP2. destruct w as [[] ? ?]; reflexivity.
  - destruct HP as [HP1 HP2]. rewrite HP1, HP2. destruct w as [[] ? ?]; reflexivity.
Qed.

(** X1.  On a completion laid out as prose and fenced directive blocks,
    [parseResponse] returns as actions the JSON values of exactly those
    action blocks whose body parses and has a truthy [tool], in the order
    of the text: each block is judged by itself, and a malformed or
    tool-less one is dropped without any effect on the others. *)
Theorem parseResponse_actions (E : Env) (d : list Seg) (w : World) :
  wf_doc d = true ->
  exists pr,
    fst (parseResponse E (render d) w) = Return pr
    /\ pr_actions pr = actions_of d.
Proof.
  intros Hwf. rewrite parseResponse_doc by exact Hwf. eexists. split; reflexivity.
Qed.

Lemma parseResponse_actions_witness :
  wf_doc sample_reply = true
  /\ exists pr,
       fst (parseResponse (sample_env (ClaudeReply None)) (render sample_reply)
              (sample_world (initialState 0))) = Return pr
       /\ pr_actions pr = actions_of sample_reply.
Proof.
  split; [reflexivity|].
  apply (parseResponse_actions (sample_env (ClaudeReply None)) sample_reply
           (sample_world (initialState 0))).
  reflexivity.
Defined.

(** X2.  Of the schedule blocks of a completion only the first counts: the
    schedule returned is the JSON value of its body, and there is none when
    that body does not parse -- even if a later schedule block is
    well-formed. *)
Theorem parseResponse_schedule (E : Env) (d : list Seg) (w : World) :
  wf_doc d = true ->
  exists pr,
    fst (parseResponse E (render d) w) = Return pr
    /\ pr_schedule pr = first_directive KSchedule d.
Proof.
  intros Hwf. rewrite parseResponse_doc by exact Hwf. eexists. split; reflexivity.
Qed.

Lemma parseResponse_schedule_witness :
  wf_doc sample_reply = true
  /\ exists pr,
       fst (parseResponse (sample_env (ClaudeReply None)) (render sample_reply)
              (sample_world (initialState 0))) = Return pr
       /\ pr_schedule pr = first_directive KSchedule sample_reply.
Proof.
  split; [reflexivity|].
  apply (parseResponse_schedule (sample_env (ClaudeReply None)) sample_reply
           (sample_world (initialState 0))).
  reflexivity.
Defined.

(** X3.  The only effect of [parseResponse] on the session is on the
    preferences: when the first preference block parses to a truthy value,
    its [value] is stored under its [key], printed as a string -- a key
    already there keeps its place, a new one that is an array index goes
    among the indices, any other new one goes last.  When the block does
    not parse, parses to a falsy value, or has a [key] that cannot be
    printed (the conversion throws and the exception is caught), nothing
    changes.  Connections and trace are left as they are. *)
Theorem parseResponse_preferences (E : Env) (d : list Seg) (w : World) :
  wf_doc d = true ->
  snd (parseResponse E (render d) w)
  = with_state (learn_preference E d (state w)) w.
Proof. intros Hwf. rewrite parseResponse_doc by exact Hwf. reflexivity. Qed.

Lemma parseResponse_preferences_witness :
  preferences
    (state (snd (parseResponse (sample_env (ClaudeReply None))
                   (render numbered_preference_reply)
                   (sample_world (with_preferences [(js "wife", Some (JStr (js "Jane")))]
                                    (initialState 0))))))
  = [(js "1", Some (JStr (js "Ann"))); (js "wife", Some (JStr (js "Jane")))].
Proof.
  rewrite (parseResponse_preferences (sample_env (ClaudeReply None))
             numbered_preference_reply
             (sample_world (with_preferences [(js "wife", Some (JStr (js "Jane")))]
                              (initialState 0)))
             eq_refl).
  reflexivity.
Defined.

(** X4.  The display text is the completion without its action blocks
    (malformed ones included), without its first schedule block and its
    first preference block when these parse, trimmed -- and [Done!] when
    nothing is left.  A first schedule or preference block that does not
    parse, and every later block of these kinds, stays in the text. *)
Theorem parseResponse_text (E : Env) (d : list Seg) (w : World) :
  wf_doc d = true ->
  exists pr,
    fst (parseResponse E (render d) w) = Return pr
    /\ pr_text pr = or_done (trim (render (displayed d))).
Proof.
  intros Hwf. rewrite parseResponse_doc by exact Hwf. eexists. split; reflexivity.
Qed.

Lemma parseResponse_text_witness :
  wf_doc sample_reply = true
  /\ exists pr,
       fst (parseResponse (sample_env (ClaudeReply None)) (render sample_reply)
              (sample_world (initialState 0))) = Return pr
       /\ pr_text pr = or_done (trim (render (displayed sample_reply))).
Proof.
  split; [reflexivity|].
  apply (parseResponse_text (sample_env (ClaudeReply None)) sample_reply
           (sample_world (initialState 0))).
  reflexivity.
Defined.

(** The sample reply, read: one action, no schedule, the block that does
    not parse still in the text. *)
Lemma sample_reply_read :
  actions_of sample_reply
  = [JObj [(js "tool", JStr (js "music_play"))]]
  /\ first_directive KSchedule sample_reply = None
  /\ render (displayed sample_reply)
     = js "Playing it now. " ++ fence KSchedule (js "{oops") ++ [10].
Proof. vm_compute. repeat split; reflexivity. Qed.

(** X5.  Whatever the completion text, [parseResponse] returns: it never
    throws, its display text is never empty, and of the session it changes
    at most the preferences. *)
Theorem parseResponse_total (E : Env) (content : jsstring) (w : World) :
  exists pr,
    fst (parseResponse E content w) = Return pr
    /\ pr_text pr <> []
    /\ (exists prefs,
          snd (parseResponse E content w)
          = with_state (with_preferences prefs (state w)) w).
Proof.
  assert (forall t : jsstring, or_done t <> []) as Hne.
  { intros [|c t]; discriminate. }
  assert (w = with_state (with_preferences (preferences (state w)) (state w)) w) as Hw.
  { destruct w as [[] ? ?]; reflexivity. }
  unfold parseResponse.
  destruct (match regex_exec false (re_block "schedule") content with
            | Some scheduleMatch =>
                match JSON_parse (group_text content scheduleMatch 1) with
                | Some v => (Some v, _)
                | None => (None, _)
                end
            | None => (None, _)
            end) as [schedule text].
  destruct (regex_exec false (re_block "preference") content) as [m|].
  - destruct (JSON_parse (group_text content m 1)) as [pref|].
    + destruct (truthy (Some pref)).
      * unfold try_catch, bind, getState, lift. cbn [fst snd].
        destruct (ToString E (get_prop pref "key")) as [e|key].
        -- eexists. split; [reflexivity|]. split; [apply Hne|]. eexists. exact Hw.
        -- eexists. split; [reflexivity|]. split; [apply Hne|]. eexists. reflexivity.
      * eexists. split; [reflexivity|]. split; [apply Hne|].
        eexists. exact Hw.
    + eexists. split; [reflexivity|]. split; [apply Hne|]. eexists. exact Hw.
  - eexists. split; [reflexivity|]. split; [apply Hne|]. eexists. exact Hw.
Qed.

(** ** Matches and their offsets *)

(** The offsets of the engine follow the text it consumes. *)
Lemma star_loop_offsets {R} (g : bool) (p : Z -> bool)
    (k : jsstring -> nat -> option R) (s : jsstring) :
  forall (pos : nat) (x : R),
    star_loop g p k s pos = Some x ->
    exists s1 s2,
      s = s1 ++ s2 /\ Forall (fun d => p d = true) s1
      /\ k s2 (pos + List.length s1)%nat = Some x.
Proof.
  induction s as [|d s IH]; intros pos x H; cbn [star_loop] in H.
  - exists [], []. cbn [List.length]. rewrite Nat.add_0_r. auto.
  - assert (k (d :: s) (pos + List.length (@nil Z))%nat = Some x ->
            exists s1 s2, d :: s = s1 ++ s2 /\ Forall (fun d => p d = true) s1
                          /\ k s2 (pos + List.length s1)%nat = Some x) as Hstop.
    { intros Hk. exists [], (d :: s). auto. }
    cbn [List.length] in Hstop. rewrite Nat.add_0_r in Hstop.
    destruct (p d) eqn:Hp; [|auto].
    assert (star_loop g p k s (S pos) = Some x \/ k (d :: s) pos = Some x) as [H'|H'].
    { destruct g; apply orelse_Some in H; tauto. }
    + destruct (IH _ _ H') as (s1 & s2 & -> & Hall & Hk).
      exists (d :: s1), s2. cbn [List.length].
      replace (pos + S (List.length s1))%nat with (S pos + List.length s1)%nat by lia.
      auto.
    + auto.
Qed.

Lemma rmatch_offsets (ci : bool) (r : regex) :
  forall {R} (s : jsstring) (pos : nat) (cs : captures)
         (k : jsstring -> nat -> captures -> option R) (x : R),
    rmatch ci r s pos cs k = Some x ->
    exists s1 s2 cs',
      s = s1 ++ s2 /\ den ci r s1 s2 /\ k s2 (pos + List.length s1)%nat cs' = Some x.
Proof.
  induction r as [c|p|r1 IH1 r2 IH2|r1 IH1 r2 IH2|r1 IH1|g p|n r1 IH1| |];
    intros R s pos cs k x Hm; cbn [rmatch den] in *.
  - destruct s as [|d s]; [discriminate|].
    destruct (canon ci c =? canon ci d) eqn:Hc; [|discriminate].
    apply Z.eqb_eq in Hc. exists [d], s, cs. cbn [List.length].
    rewrite Nat.add_1_r. eauto.
  - destruct s as [|d s]; [discriminate|].
    destruct (p d) eqn:Hp; [|discriminate].
    exists [d], s, cs. cbn [List.length]. rewrite Nat.add_1_r. eauto.
  - destruct (IH1 _ _ _ _ _ _ Hm) as (s1 & s' & cs1 & -> & D1 & Hm2).
    destruct (IH2 _ _ _ _ _ _ Hm2) as (s2 & s3 & cs2 & -> & D2 & Hk).
    exists (s1 ++ s2), s3, cs2. rewrite app_assoc, length_app, Nat.add_assoc. eauto 8.
  - apply orelse_Some in Hm as [Hm|Hm].
    + destruct (IH1 _ _ _ _ _ _ Hm) as (s1 & s2 & cs1 & -> & D & Hk). eauto 8.
    + destruct (IH2 _ _ _ _ _ _ Hm) as (s1 & s2 & cs1 & -> & D & Hk). eauto 8.
  - apply orelse_Some in Hm as [Hm|Hm].
    + destruct (IH1 _ _ _ _ _ _ Hm) as (s1 & s2 & cs1 & -> & D & Hk). eauto 8.
    + exists [], s, cs. cbn [List.length]. rewrite Nat.add_0_r. auto.
  - destruct (star_loop_offsets _ _ _ _ _ _ Hm) as (s1 & s2 & -> & Hall & Hk).
    exists s1, s2, cs. auto.
  - destruct (IH1 _ _ _ _ _ _ Hm) as (s1 & s2 & cs1 & -> & D & Hk). eauto 8.
  - destruct (Nat.eqb pos 0); [|discriminate]. exists [], s, cs.
    cbn [List.length]. rewrite Nat.add_0_r. auto.
  - destruct s; [|discriminate]. exists [], [], cs.
    cbn [List.length]. rewrite Nat.add_0_r. auto.
Qed.

(** A match at an offset spans a text that the expression denotes. *)
Lemma match_at_span (ci : bool) (r : regex) (s : jsstring) (pos : nat) (m : rmatch_result) :
  match_at ci r s pos = Some m ->
  exists s1 s2,
    s = s1 ++ s2 /\ den ci r s1 s2
    /\ m_start m = pos /\ m_end m = (pos + List.length s1)%nat.
Proof.
  unfold match_at. intros H.
  destruct (rmatch_offsets ci r _ _ _ _ _ H) as (s1 & s2 & cs' & -> & D & Hk).
  injection Hk as <-. exists s1, s2. auto.
Qed.

(** The leftmost match lies somewhere in the input. *)
Lemma search_span (ci : bool) (r : regex) (s : jsstring) :
  forall (pos : nat) (m : rmatch_result),
    search ci r s pos = Some m ->
    exists pre s1 s2,
      s = pre ++ s1 ++ s2 /\ den ci r s1 s2
      /\ m_start m = (pos + List.length pre)%nat
      /\ m_end m = (pos + List.length pre + List.length s1)%nat.
Proof.
  assert (forall pos m, match_at ci r s pos = Some m ->
            exists pre s1 s2,
              s = pre ++ s1 ++ s2 /\ den ci r s1 s2
              /\ m_start m = (pos + List.length pre)%nat
              /\ m_end m = (pos + List.length pre + List.length s1)%nat) as Hat.
  { intros pos m H. destruct (match_at_span _ _ _ _ _ H) as (s1 & s2 & -> & D & H1 & H2).
    exists [], s1, s2. cbn [List.length app]. rewrite Nat.add_0_r. auto. }
  revert Hat. induction s as [|c s IH]; intros Hat pos m H; cbn [search] in H.
  - destruct (match_at ci r [] pos) eqn:Hm; [|discriminate].
    injection H as <-. apply Hat. exact Hm.
  - destruct (match_at ci r (c :: s) pos) eqn:Hm.
    + injection H as <-. apply Hat. exact Hm.
    + assert (forall pos m, match_at ci r s pos = Some m ->
                exists pre s1 s2,
                  s = pre ++ s1 ++ s2 /\ den ci r s1 s2
                  /\ m_start m = (pos + List.length pre)%nat
                  /\ m_end m = (pos + List.length pre + List.length s1)%nat) as Hat'.
      { intros pos' m' H'.
        destruct (match_at_span _ _ _ _ _ H') as (s1 & s2 & -> & D & H1 & H2).
        exists [], s1, s2. cbn [List.length app]. rewrite Nat.add_0_r. auto. }
      destruct (IH Hat' _ _ H) as (pre & s1 & s2 & -> & D & H1 & H2).
      exists (c :: pre), s1, s2. cbn [List.length app].
      split; [reflexivity|]. split; [exact D|]. split; lia.
Qed.

Lemma search_bounds (ci : bool) (r : regex) (s : jsstring) (pos : nat) (m : rmatch_result) :
  search ci r s pos = Some m -> (pos <= m_start m /\ m_start m <= m_end m)%nat.
Proof.
  intros H. destruct (search_span _ _ _ _ _ H) as (pre & s1 & s2 & _ & _ & H1 & H2). lia.
Qed.

(** What [match[0]] is. *)
Lemma regex_exec_matched (ci : bool) (r : regex) (s : jsstring) (m : rmatch_result) :
  regex_exec ci r s = Some m ->
  exists pre s2, s = pre ++ matched s m ++ s2 /\ den ci r (matched s m) s2.
Proof.
  unfold regex_exec. intros H.
  destruct (search_span _ _ _ _ _ H) as (pre & s1 & s2 & -> & D & H1 & H2).
  exists pre, s2. unfold matched. rewrite H1, H2. cbn [Nat.add].
  rewrite substring_middle. auto.
Qed.

(** If the expression matches somewhere, the scan finds a match. *)
Lemma search_complete (ci : bool) (r : regex) (pre rest : jsstring) (m : rmatch_result) :
  forall pos,
    match_at ci r rest (pos + List.length pre) = Some m ->
    exists m', search ci r (pre ++ rest) pos = Some m'.
Proof.
  induction pre as [|c pre IH]; intros pos H; cbn [app List.length] in *.
  - rewrite Nat.add_0_r in H. exists m. apply search_found. exact H.
  - cbn [search]. destruct (match_at ci r (c :: pre ++ rest) pos) as [m0|]; [eauto|].
    apply IH. rewrite <- H. f_equal. lia.
Qed.

(** ** Removing the characters of a class *)

Lemma match_at_Cls (ci : bool) (p : Z -> bool) (c : Z) (s : jsstring) (pos : nat) :
  match_at ci (Cls p) (c :: s) pos
  = if p c then Some {| m_start := pos; m_end := S pos; m_caps := [] |} else None.
Proof. reflexivity. Qed.

Lemma cut_out_class (p : Z -> bool) (s : jsstring) :
  forall fuel pre p0,
    (List.length s < fuel)%nat -> (p0 <= List.length pre)%nat ->
    cut_out (pre ++ s) p0 (matches_from fuel false (Cls p) s (List.length pre))
    = skipn p0 pre ++ filter (fun c => negb (p c)) s.
Proof.
  induction s as [|c s IH]; intros fuel pre p0 Hf Hp.
  - destruct fuel as [|f]; [cbn [List.length] in Hf; lia|].
    cbn [matches_from search]. cbn [match_at rmatch cut_out filter].
    rewrite !app_nil_r. reflexivity.
  - destruct (p c) eqn:Hc.
    + destruct fuel as [|f]; [cbn [List.length] in Hf; lia|].
      cbn [matches_from search]. rewrite match_at_Cls, Hc.
      cbn [m_start m_end cut_out filter]. rewrite Hc. cbn [negb].
      assert (Nat.eqb (S (List.length pre)) (List.length pre) = false) as ->
          by (apply Nat.eqb_neq; lia).
      replace (S (List.length pre) - List.length pre)%nat with 1%nat by lia.
      cbn [skipn].
      rewrite substring_prefix by exact Hp. f_equal.
      change (pre ++ c :: s) with (pre ++ [c] ++ s). rewrite app_assoc.
      replace (S (List.length pre)) with (List.length (pre ++ [c]))
        by (rewrite length_app; cbn [List.length]; lia).
      rewrite IH; [|cbn [List.length] in Hf; lia|lia].
      rewrite skipn_all. reflexivity.
    + change (c :: s) with ([c] ++ s).
      rewrite matches_from_skip.
      * cbn [filter app]. rewrite Hc. cbn [negb].
        change (pre ++ c :: s) with (pre ++ [c] ++ s). rewrite app_assoc.
        replace (List.length pre + List.length [c])%nat with (List.length (pre ++ [c]))
          by (rewrite length_app; reflexivity).
        rewrite IH; [|cbn [List.length] in Hf; lia|rewrite length_app; lia].
        rewrite skipn_app_le by exact Hp. rewrite <- app_assoc. reflexivity.
      * cbn [app search]. rewrite match_at_Cls, Hc. f_equal. cbn [List.length]. lia.
      * intros m Hm. apply search_bounds in Hm. exact Hm.
Qed.

(** [s.replace(/[class]/g, '')] keeps the characters outside the class. *)
Lemma remove_all_class (p : Z -> bool) (s : jsstring) :
  remove_all false (Cls p) s = filter (fun c => negb (p c)) s.
Proof.
  unfold remove_all, regex_matches.
  apply (cut_out_class p s (S (List.length s)) [] 0); cbn [List.length]; lia.
Qed.

(** ** The phone number of a contact *)

Lemma den_opt_chr (c : Z) (x r : jsstring) :
  den false (Opt (Chr c)) x r -> x = [c] \/ x = [].
Proof.
  cbn [den]. intros [ (d & -> & Hd) | -> ]; [left|right; reflexivity].
  cbn in Hd. subst d. reflexivity.
Qed.

Lemma digit_not_noise (d : Z) :
  is_digit d = true -> (is_space d || one_of [45; 46; 40; 41] d) = false.
Proof.
  intros H. apply is_digit_cases in H.
  repeat (destruct H as [->|H]; [reflexivity|]). subst d. reflexivity.
Qed.

Lemma den_opt_sep (x r : jsstring) :
  den false (Opt (Cls is_sep)) x r ->
  filter (fun c => negb (is_space c || one_of [45; 46; 40; 41] c)) x = [].
Proof.
  cbn [den]. intros [ (d & -> & Hd) | -> ]; [|reflexivity].
  cbn [filter]. unfold is_sep, one_of in *. cbn [existsb] in *.
  destruct (is_space d); [reflexivity|]. cbn [orb] in *.
  destruct (d =? 45); [reflexivity|]. destruct (d =? 46); [reflexivity|].
  discriminate Hd.
Qed.

Lemma den_digit (x r : jsstring) :
  den false (Cls is_digit) x r ->
  exists d, is_digit d = true
            /\ filter (fun c => negb (is_space c || one_of [45; 46; 40; 41] c)) x = [d].
Proof.
  cbn [den]. intros (d & -> & Hd). exists d. split; [exact Hd|].
  cbn [filter]. rewrite (digit_not_noise d Hd). reflexivity.
Qed.

(** The text the phone pattern matches, without its separators, is an
    optional [+], an optional [1] and ten digits. *)
Lemma den_phone (x r : jsstring) :
  den false re_phone x r ->
  normal_phone (filter (fun c => negb (is_space c || one_of [45; 46; 40; 41] c)) x) = true.
Proof.
  change re_phone
    with (Seq (Opt (Chr 43)) (Seq (Opt (Chr 49)) (Seq (Opt (Cls is_sep))
          (Seq (Opt (Chr 40))
          (Seq (Cls is_digit) (Seq (Cls is_digit) (Seq (Cls is_digit)
          (Seq (Opt (Chr 41)) (Seq (Opt (Cls is_sep))
          (Seq (Cls is_digit) (Seq (Cls is_digit) (Seq (Cls is_digit)
          (Seq (Opt (Cls is_sep))
          (Seq (Cls is_digit) (Seq (Cls is_digit) (Seq (Cls is_digit)
               (Cls is_digit))))))))))))))))).
  intros D.
  assert (forall d, is_digit d = true -> (d =? 43) = false) as Hplus.
  { intros d Hd. apply is_digit_cases in Hd.
    repeat (destruct Hd as [->|Hd]; [reflexivity|]). subst d. reflexivity. }
  repeat match type of D with
         | den false (Seq _ _) _ _ =>
             let x1 := fresh "x" in let y := fresh "y" in let D1 := fresh "D" in
             destruct D as (x1 & y & -> & D1 & D)
         end.
  rewrite !filter_app.
  repeat match goal with
         | H : den false (Opt (Cls is_sep)) _ _ |- _ =>
             rewrite (den_opt_sep _ _ H); clear H
         | H : den false (Cls is_digit) _ _ |- _ =>
             let d := fresh "d" in let Hd := fresh "Hd" in let Hf := fresh "Hf" in
             destruct (den_digit _ _ H) as (d & Hd & Hf); rewrite Hf; clear H Hf
         end.
  apply den_opt_chr in D0, D1, D3, D7.
  cbn [app].
  destruct D0 as [ -> | -> ], D1 as [ -> | -> ], D3 as [ -> | -> ], D7 as [ -> | -> ];
    cbn [filter app]; change (negb (is_space 40 || one_of [45; 46; 40; 41] 40)) with false;
    change (negb (is_space 41 || one_of [45; 46; 40; 41] 41)) with false;
    change (negb (is_space 43 || one_of [45; 46; 40; 41] 43)) with true;
    change (negb (is_space 49 || one_of [45; 46; 40; 41] 49)) with true;
    cbv iota; cbn [app];
    unfold normal_phone, phone_digits;
    change (43 =? 43) with true; change (49 =? 43) with false; rewrite ?Hplus by assumption;
    cbv iota; cbn [forallb List.length Nat.eqb andb orb];
    change (is_digit 49) with true; change (49 =? 49) with true;
    rewrite ?Hd, ?Hd0, ?Hd1, ?Hd2, ?Hd3, ?Hd4, ?Hd5, ?Hd6, ?Hd7, ?Hd8; reflexivity.
Qed.

(** The number found is normalised. *)
Lemma find_phone_digits (text phone : jsstring) :
  find_phone text = Some phone -> normal_phone phone = true.
Proof.
  unfold find_phone. intros H.
  destruct (regex_exec false re_phone text) as [m|] eqn:Hm; [|discriminate].
  injection H as <-.
  destruct (regex_exec_matched _ _ _ _ Hm) as (pre & s2 & _ & D).
  unfold re_phone_noise. rewrite remove_all_class. apply den_phone with (r := s2). exact D.
Qed.

(** X6.  The phone number the contact flow takes out of a search result is
    normalised: it is a piece of the result without its spaces, dashes,
    dots and parentheses, and what is kept is an optional [+] followed by
    ten digits, or by eleven digits that begin with [1]. *)
Theorem find_phone_normal (text phone : jsstring) :
  find_phone text = Some phone ->
  normal_phone phone = true
  /\ exists pre matched post,
       text = pre ++ matched ++ post
       /\ phone = filter (fun c => negb (is_space c || one_of [45; 46; 40; 41] c)) matched.
Proof.
  intros H. split; [apply (find_phone_digits text); exact H|].
  unfold find_phone in H.
  destruct (regex_exec false re_phone text) as [m|] eqn:Hm; [|discriminate].
  injection H as <-.
  destruct (regex_exec_matched _ _ _ _ Hm) as (pre & s2 & Ht & _).
  exists pre, (matched text m), s2. split; [exact Ht|].
  unfold re_phone_noise. apply remove_all_class.
Qed.

Lemma find_phone_normal_witness :
  find_phone (js "John Appleseed: +1 (555) 123-4567") = Some (js "+15551234567")
  /\ normal_phone (js "+15551234567") = true.
Proof.
  assert (find_phone (js "John Appleseed: +1 (555) 123-4567") = Some (js "+15551234567"))
    as H by (vm_compute; reflexivity).
  split; [exact H|].
  exact (proj1 (find_phone_normal (js "John Appleseed: +1 (555) 123-4567")
                  (js "+15551234567") H)).
Defined.

(** ** Invariants of a session *)

Section SessionInvariant.

Variable E : Env.

Lemma session_ok_intro (w : World) :
  pending_ok (state w) = true -> forallb bounded_call (trace w) = true ->
  session_ok w = true.
Proof. unfold session_ok. intros -> ->. reflexivity. Qed.

Lemma session_ok_elim (w : World) :
  session_ok w = true ->
  pending_ok (state w) = true /\ forallb bounded_call (trace w) = true.
Proof. unfold session_ok. apply andb_true_iff. Qed.

(** Solves the invariant after steps that leave the pending action alone
    and make calls other than completions. *)
Ltac inv_auto :=
  world_simpl;
  repeat match goal with
         | H : session_ok _ = true |- _ => apply session_ok_elim in H; destruct H
         end;
  world_simpl;
  try (apply session_ok_intro; world_simpl;
       [ try assumption; try reflexivity
       | cbn [forallb bounded_call andb]; try assumption ]).

Lemma checkRateLimit_at_pending (now : Z) (st : SystemState) :
  pendingAction (snd (checkRateLimit_at now st)) = pendingAction st.
Proof. reflexivity. Qed.

Lemma parseResponse_ok (content : jsstring) (w : World) :
  session_ok w = true ->
  wp (parseResponse E content) w (fun _ w' => session_ok w' = true).
Proof.
  intros Hw. unfold parseResponse.
  destruct (regex_exec false (re_block "schedule") content) as [sm|];
    [destruct (JSON_parse (group_text content sm 1))|];
    (destruct (regex_exec false (re_block "preference") content) as [pm|];
     [destruct (JSON_parse (group_text content pm 1)) as [pref|]|]);
    try (destruct (truthy (Some pref)));
    wp_steps; inv_auto.
Qed.

Lemma scheduleAction_ok (schedule : json) (w : World) :
  session_ok w = true ->
  wp (scheduleAction E schedule) w (fun _ w' => session_ok w' = true).
Proof.
  intros Hw. unfold scheduleAction. wp_steps.
  destruct (get_prop schedule "when") as [[| | |s| |]|]; wp_steps; try solve [inv_auto].
  destruct (sdk_schedule E _ _ _) as [e|id]; wp_steps; inv_auto.
Qed.

Lemma pending_send_phone (phone : jsstring) (v : json) (c r : jsstring) :
  normal_phone phone = true ->
  is_pending_send {| pa_tool := js "send_imessage";
                     pa_args := [(js "to", JStr phone); (js "message", v)];
                     pa_context := c; pa_originalRequest := r |} = true.
Proof.
  intros H. unfold is_pending_send. cbn [pa_tool pa_args]. rewrite H.
  rewrite !str_eqb_refl. reflexivity.
Qed.

Lemma run_actions_ok (message : jsstring) (actions : list json) :
  forall (results : list ActionResult) (w : World),
    session_ok w = true ->
    wp (run_actions E message actions results) w (fun _ w' => session_ok w' = true).
Proof.
  induction actions as [|action rest IH]; intros results w Hw; cbn [run_actions].
  - wp_steps. exact Hw.
  - wp_steps.
    assert (session_ok (after_event (EvBridge (get_prop action "tool")
                                       (get_prop action "args")) w) = true) as Hw1
        by inv_auto.
    assert (wp (run_actions E message rest
                  (results ++ [{| ar_tool := get_prop action "tool";
                                  ar_args := get_prop action "args";
                                  ar_result := result_text res;
                                  ar_success := success res;
                                  ar_image := image res |}]))
               (after_event (EvBridge (get_prop action "tool") (get_prop action "args")) w)
               (fun _ w' => session_ok w' = true)) as Hrest by exact (IH _ _ Hw1).
    destruct (result res) as [[|c found]|]; try exact Hrest.
    destruct (_ && _ && _); try exact Hrest.
    destruct (find_phone (c :: found)) as [[|p phone]|] eqn:Hphone; try exact Hrest.
    apply find_phone_digits in Hphone.
    destruct (get_prop action "args") as [[]|]; wp_steps; try solve [inv_auto];
      (destruct (regex_test true re_make_up message);
       [wp_steps; try solve [inv_auto];
        inv_auto; unfold pending_ok; world_simpl;
        apply pending_send_phone; exact Hphone|]);
      wp_steps; world_simpl;
      match goal with
      | |- wp (if ?b then _ else _) _ _ => destruct b
      end;
      wp_steps; inv_auto; unfold pending_ok; world_simpl;
      apply pending_send_phone; exact Hphone.
Qed.

Lemma slice_40_bounded (h : list Message) (m : Message) :
  Nat.leb (List.length (slice_last 40 h ++ [m])) 41 = true.
Proof.
  apply Nat.leb_le. rewrite length_app. cbn [List.length].
  pose proof (slice_last_length 40 h). lia.
Qed.

Lemma processChat_main_ok (message : jsstring) (w : World) :
  session_ok w = true ->
  wp (processChat_main E message) w (fun _ w' => session_ok w' = true).
Proof.
  intros Hw. unfold processChat_main. wp_steps; world_simpl.
  - assert (session_ok
              (after_event
                 (EvClaude a (slice_last 40 (history (state w)) ++ [user_msg message]))
                 (after_event EvFetchTools w)) = true) as Hw1.
    { inv_auto. rewrite slice_40_bounded. assumption. }
    eapply wp_conseq; [apply parseResponse_ok; exact Hw1|].
    intros [parsed|e] w1 H1; world_simpl; [|exact H1].
    apply wp_bind.
    apply wp_conseq with (Q := fun _ w2 => session_ok w2 = true).
    { destruct (truthy (pr_schedule parsed));
        [destruct (pr_schedule parsed) as [schedule|]|]; wp_steps; auto.
      eapply wp_conseq; [apply scheduleAction_ok; exact H1|].
      intros [id|e] w2 H2; wp_steps; exact H2. }
    intros [scheduledTask|e] w2 H2; [|exact H2].
    wp_steps. eapply wp_conseq; [apply run_actions_ok; exact H2|].
    intros [[early|actionResults]|e] w3 H3; wp_steps; exact H3.
  - inv_auto. rewrite slice_40_bounded. assumption.
  - inv_auto.
Qed.

Lemma clarified_pending (pending : PendingAction) (message : jsstring) :
  is_pending_send pending = true ->
  is_pending_send
    {| pa_tool := pa_tool pending;
       pa_args := obj_set (js "message") (JStr message) (pa_args pending);
       pa_context := pa_context pending;
       pa_originalRequest := pa_originalRequest pending |} = true.
Proof.
  unfold is_pending_send. cbn [pa_tool pa_args]. intros H.
  apply andb_true_iff in H as [Ht Ha]. rewrite Ht. cbn [andb].
  destruct (pa_args pending) as [|[k1 [| | |phone| |]] [|[k2 v] [|]]]; try discriminate Ha.
  apply andb_true_iff in Ha as [Ha H2]. apply andb_true_iff in Ha as [H1 Hp].
  apply str_eqb_eq in H1, H2. subst k1 k2.
  change (obj_set (js "message") (JStr message)
            [(js "to", JStr phone); (js "message", v)])
    with [(js "to", JStr phone); (js "message", JStr message)].
  cbv beta iota. rewrite Hp, !str_eqb_refl. reflexivity.
Qed.

Lemma processChat_ok (message : jsstring) (w : World) :
  session_ok w = true ->
  wp (processChat E message) w (fun _ w' => session_ok w' = true).
Proof.
  intros Hw. unfold processChat. wp_steps.
  destruct (pendingAction (state w)) as [pending|] eqn:Hp;
    [|apply processChat_main_ok; exact Hw].
  destruct (isConfirmation message); [wp_steps; inv_auto|].
  destruct (isCancellation message); [wp_steps; inv_auto|].
  destruct (awaiting_clarification E pending).
  - wp_steps; inv_auto; unfold pending_ok in *; world_simpl;
      rewrite Hp in *; apply clarified_pending; assumption.
  - wp_steps. apply processChat_main_ok. inv_auto.
Qed.

Lemma broadcast_loop_ok (m : WSMessage) (targets : list nat) :
  forall w, session_ok w = true ->
            wp (broadcast_loop E m targets) w (fun _ w' => session_ok w' = true).
Proof.
  induction targets as [|c targets IH]; intros w Hw; cbn [broadcast_loop].
  - wp_steps. exact Hw.
  - wp_steps. apply IH. inv_auto.
Qed.

Lemma executeScheduledAction_ok (payload : ScheduledAction) (w : World) :
  session_ok w = true ->
  wp (executeScheduledAction E payload) w (fun _ w' => session_ok w' = true).
Proof.
  intros Hw. unfold executeScheduledAction, broadcastToClients.
  apply wp_bind. apply wp_callBridge. intros res.
  apply wp_bind. apply wp_getState. world_simpl.
  apply wp_bind. apply wp_lift; [intros description _|intros e _; inv_auto].
  apply wp_bind.
  apply wp_conseq with (Q := fun o w' => session_ok w' = true).
  { destruct (find _ (scheduleRegistry (state w))) as [[id wh tl ar de cr [|]]|];
      wp_steps; inv_auto. }
  intros [[]|e] w1 H1; [|exact H1].
  wp_steps. world_simpl. apply broadcast_loop_ok. inv_auto.
Qed.

Lemma handleChat_ok (request : Request) (w : World) :
  session_ok w = true ->
  wp (handleChat E request) w (fun _ w' => session_ok w' = true).
Proof.
  intros Hw. unfold handleChat. wp_steps.
  destruct (req_body request) as [|message|tool args]; wp_steps; auto.
  eapply wp_conseq; [apply processChat_ok; exact Hw|].
  intros [r|e] w1 H1; wp_steps; exact H1.
Qed.

Lemma handleExecute_ok (request : Request) (w : World) :
  session_ok w = true ->
  wp (handleExecute E request) w (fun _ w' => session_ok w' = true).
Proof.
  intros Hw. unfold handleExecute. wp_steps.
  destruct (req_body request) as [|message|tool args]; wp_steps; inv_auto.
Qed.

Lemma onRequest_ok (t0 : Z) (request : Request) (w : World) :
  session_ok w = true ->
  wp (onRequest E t0 request) w (fun _ w' => session_ok w' = true).
Proof.
  intros Hw. unfold onRequest, checkRateLimit.
  destruct (_ && _); [wp_steps; inv_auto|].
  destruct (endsWith (js "/health") _); [wp_steps; inv_auto|].
  wp_steps. world_simpl.
  destruct (checkRateLimit_at _ (state w)) as [rc st1] eqn:Hrc.
  assert (pendingAction st1 = pendingAction (state w)) as H1.
  { unfold checkRateLimit_at in Hrc. injection Hrc as _ <-. reflexivity. }
  wp_steps. world_simpl.
  assert (session_ok (with_state st1 (after_event (EvNow (clock E (trace w))) w)) = true)
    as Hw1.
  { inv_auto; unfold pending_ok in *; rewrite ?H1; assumption. }
  destruct (negb (allowed rc)); [wp_steps; exact Hw1|].
  destruct (is_route "/chat" "POST" request); [apply handleChat_ok; exact Hw1|].
  destruct (is_route "/reset" "POST" request).
  { unfold handleReset. wp_steps. inv_auto. }
  destruct (is_route "/state" "GET" request); [wp_steps; exact Hw1|].
  destruct (is_route "/execute" "POST" request); [apply handleExecute_ok; exact Hw1|].
  destruct (is_route "/schedules" "GET" request); [wp_steps; exact Hw1|].
  destruct (_ && _).
  { destruct (last_segment _); wp_steps; [exact Hw1|].
    inv_auto; unfold pending_ok in *; world_simpl; assumption. }
  destruct (is_route "/history" "GET" request); [wp_steps; exact Hw1|].
  destruct (is_route "/clear" "POST" request).
  { wp_steps. inv_auto; unfold pending_ok in *; world_simpl; assumption. }
  wp_steps. exact Hw1.
Qed.

Lemma onMessage_ok (connection : nat) (frame : WSFrame) (w : World) :
  session_ok w = true ->
  wp (onMessage E connection frame) w (fun _ w' => session_ok w' = true).
Proof.
  intros Hw. unfold onMessage.
  destruct frame as [|[[|token msg|]|]]; wp_steps; try solve [inv_auto].
  destruct (_ && _); [|wp_steps; auto].
  destruct (negb _); wp_steps; try solve [inv_auto].
  eapply wp_conseq; [apply processChat_ok; exact Hw|].
  intros [r|e] w1 H1; wp_steps; try exact H1; inv_auto.
Qed.

Lemma onConnect_ok (connection : nat) (w : World) :
  session_ok w = true ->
  wp (onConnect E connection) w (fun _ w' => session_ok w' = true).
Proof. intros Hw. unfold onConnect. wp_steps. inv_auto. Qed.

Lemma run_operation_ok (t0 : Z) (op : Operation) (w : World) :
  session_ok w = true -> session_ok (run_operation E t0 op w) = true.
Proof.
  intros Hw.
  destruct op as [request|connection|connection frame|connection|payload];
    cbn [run_operation].
  - apply (onRequest_ok t0 request w Hw).
  - apply (onConnect_ok connection w Hw).
  - apply (onMessage_ok connection frame w Hw).
  - exact Hw.
  - apply (executeScheduledAction_ok payload w Hw).
Qed.

Lemma run_operations_ok (t0 : Z) (ops : list Operation) :
  forall w, session_ok w = true -> session_ok (run_operations E t0 ops w) = true.
Proof.
  unfold run_operations. induction ops as [|op ops IH]; intros w Hw; cbn [fold_left].
  - exact Hw.
  - apply IH. apply run_operation_ok. exact Hw.
Qed.

End SessionInvariant.

(** ** The routes of [onRequest] *)

Section Routes.

Variable E : Env.

(** X9.  The status and health probes come before the rate limiter: they
    are answered with status 200 whatever the state of the window, and
    they neither count against it nor change anything else in the session;
    all they do is read the clock. *)
Theorem probes_are_never_throttled (t0 : Z) (request : Request) (w : World) :
  (str_eqb (req_path request) (js "/") && str_eqb (req_method request) (js "GET"))
  || endsWith (js "/health") (req_path request) = true ->
  exists b,
    onRequest E t0 request w
    = (Return (json_response b), after_event (EvNow (clock E (trace w))) w).
Proof.
  intros H. unfold onRequest.
  destruct (str_eqb (req_path request) (js "/") && str_eqb (req_method request) (js "GET")).
  - eexists. reflexivity.
  - cbn [orb] in H. rewrite H. eexists. reflexivity.
Qed.

(** The path of a schedule: anything, then [/schedules/] and an identifier
    without a slash. *)
Lemma schedule_path_matches (pre id : jsstring) :
  id <> [] -> forallb (fun c => negb (c =? 47)) id = true ->
  regex_test false re_schedule_path (pre ++ js "/schedules/" ++ id) = true.
Proof.
  intros Hne Hid. destruct id as [|c id]; [contradiction|].
  cbn [forallb] in Hid. apply andb_true_iff in Hid as [Hc Hid].
  assert (match_at false re_schedule_path (js "/schedules/" ++ c :: id)
            (0 + List.length pre)
          = Some {| m_start := 0 + List.length pre;
                    m_end := 12 + (0 + List.length pre) + List.length id;
                    m_caps := [] |}) as Hm.
  { generalize (0 + List.length pre)%nat. intros pos.
    unfold match_at.
    change (rmatch false re_schedule_path (js "/schedules/" ++ c :: id) pos []
              (fun _ e cs => Some {| m_start := pos; m_end := e; m_caps := cs |}))
      with (if (fun c => negb (c =? 47)) c
            then star_loop true (fun c => negb (c =? 47))
                   (fun s' pos' =>
                      match s' with
                      | [] => Some {| m_start := pos; m_end := pos'; m_caps := [] |}
                      | _ :: _ => None
                      end) id (12 + pos)
            else None).
    cbv beta. rewrite Hc.
    rewrite <- (app_nil_r id) at 1.
    apply star_loop_greedy_run; try exact I; try reflexivity.
    apply Forall_forall. rewrite forallb_forall in Hid. exact Hid. }
  destruct (search_complete _ _ _ _ _ _ Hm) as [m' Hs].
  unfold regex_test, regex_exec. rewrite Hs. reflexivity.
Qed.

Lemma last_segment_rev_run (r rest : jsstring) :
  forallb (fun c => negb (c =? 47)) r = true ->
  last_segment_rev (r ++ 47 :: rest) = r.
Proof.
  induction r as [|c r IH]; intros H; cbn [app last_segment_rev].
  - reflexivity.
  - cbn [forallb] in H. apply andb_true_iff in H as [Hc H].
    apply negb_true_iff in Hc. rewrite Hc, IH by exact H. reflexivity.
Qed.

Lemma last_segment_schedule_path (pre id : jsstring) :
  forallb (fun c => negb (c =? 47)) id = true ->
  last_segment (pre ++ js "/schedules/" ++ id) = id.
Proof.
  intros Hid. unfold last_segment.
  change (js "/schedules/") with (js "/schedules" ++ [47]).
  rewrite !rev_app_distr, <- !app_assoc. cbn [rev app].
  rewrite last_segment_rev_run.
  - apply rev_involutive.
  - rewrite forallb_forall in *. intros x Hx. apply Hid. apply in_rev. exact Hx.
Qed.

(** X10.  [DELETE .../schedules/<id>], when the rate limiter lets it through,
    cancels the schedule with the scheduler and takes every record with
    this identifier out of the registry, leaving the other records in
    their order; it answers success whether or not such a record existed.
    (An identifier spelled [health] is taken by the health probe.) *)
Theorem delete_schedule (t0 : Z) (pre id : jsstring) (b : RequestBody) (w : World) :
  id <> [] -> forallb (fun c => negb (c =? 47)) id = true ->
  str_eqb id (js "health") = false ->
  allowed (fst (checkRateLimit_at (clock E (trace w)) (state w))) = true ->
  onRequest E t0 {| req_path := pre ++ js "/schedules/" ++ id;
                    req_method := js "DELETE"; req_body := b |} w
  = (Return (json_response (RSuccess None)),
     {| state :=
          with_scheduleRegistry
            (filter (fun s => negb (str_eqb (sr_id s) id)) (scheduleRegistry (state w)))
            (snd (checkRateLimit_at (clock E (trace w)) (state w)));
        connections := connections w;
        trace := EvCancelSchedule id :: EvNow (clock E (trace w)) :: trace w |}).
Proof.
  intros Hne Hid Hhealth Hall.
  set (request := {| req_path := pre ++ js "/schedules/" ++ id;
                     req_method := js "DELETE"; req_body := b |}).
  assert (str_eqb (req_path request) (js "/") && str_eqb (req_method request) (js "GET")
          = false) as Hroot by apply andb_false_r.
  assert (endsWith (js "/health") (req_path request) = false) as Hh.
  { subst request. cbn [req_path]. unfold endsWith.
    change (js "/schedules/") with (js "/schedules" ++ [47]).
    rewrite !rev_app_distr, <- !app_assoc. cbn [rev app].
    destruct (startsWith (rev (js "/health")) (rev id ++ 47 :: rev (js "/schedules") ++ rev pre))
      eqn:Hs; [exfalso|reflexivity].
    assert (forall x, In x (rev id) -> (x =? 47) = false) as Hno.
    { intros x Hx. apply in_rev in Hx. rewrite forallb_forall in Hid.
      apply negb_true_iff. auto. }
    assert (rev id = rev (js "health")) as Hrev.
    { change (rev (js "/health")) with [104; 116; 108; 97; 101; 104; 47] in Hs.
      change (rev (js "health")) with [104; 116; 108; 97; 101; 104].
      destruct (rev id) as [|c1 [|c2 [|c3 [|c4 [|c5 [|c6 [|c7 r]]]]]]];
        cbn [app startsWith] in Hs;
        repeat (apply andb_true_iff in Hs; destruct Hs as [? Hs]);
        repeat match goal with
               | H : (_ =? _) = true |- _ => apply Z.eqb_eq in H
               end; subst; try discriminate; try reflexivity.
      exfalso.
      assert ((47 =? 47) = false) as Habs
          by (apply Hno; cbn [In]; auto 10).
      discriminate Habs. }
    apply (f_equal (@rev Z)) in Hrev. rewrite !rev_involutive in Hrev.
    subst id. discriminate Hhealth. }
  destruct (checkRateLimit_at (clock E (trace w)) (state w)) as [rc st1] eqn:Hrc.
  cbn [fst snd] in *.
  assert (wp (onRequest E t0 request) w
            (fun o w' =>
               o = Return (json_response (RSuccess None))
               /\ w' = {| state :=
                            with_scheduleRegistry
                              (filter (fun s => negb (str_eqb (sr_id s) id))
                                      (scheduleRegistry (state w))) st1;
                          connections := connections w;
                          trace := EvCancelSchedule id :: EvNow (clock E (trace w))
                                   :: trace w |})) as H.
  { unfold onRequest. rewrite Hroot, Hh. unfold checkRateLimit.
    wp_steps. world_simpl. rewrite Hrc. wp_steps. rewrite Hall. cbn [negb].
    assert (forall suffix method,
               str_eqb (js "DELETE") (js method) = false ->
               is_route suffix method request = false) as Hr.
    { intros suffix method Hm. unfold is_route. subst request. cbn [req_method].
      rewrite Hm. apply andb_false_r. }
    rewrite !Hr by reflexivity.
    subst request. cbn [req_path req_method].
    rewrite schedule_path_matches by assumption.
    rewrite str_eqb_refl. cbn [andb].
    rewrite last_segment_schedule_path by exact Hid.
    destruct id as [|c id]; [contradiction|].
    wp_steps. world_simpl.
    assert (scheduleRegistry st1 = scheduleRegistry (state w)) as ->.
    { unfold checkRateLimit_at in Hrc. injection Hrc as _ <-. reflexivity. }
    split; reflexivity. }
  destruct H as [H1 H2]. rewrite <- H1, <- H2. apply surjective_pairing.
Qed.

End Routes.

Section Routes2.

Variable E : Env.

(** Only the rate limiter answers 429. *)
Lemma onRequest_429 (t0 : Z) (request : Request) (w : World) :
  wp (onRequest E t0 request) w
     (fun o _ =>
        forall r, o = Return r -> status r = 429 ->
                  allowed (fst (checkRateLimit_at (clock E (trace w)) (state w))) = false).
Proof.
  assert (forall (b : ResponseBody) (P : Prop) (r : Response),
             Return (json_response b) = Return r -> status r = 429 -> P) as H200.
  { intros b P r [= <-] Hs. discriminate Hs. }
  assert (forall (c : Z) (msg : jsstring) (P : Prop),
             c <> 429 ->
             forall r : Response,
               Return (error_response c msg) = Return r -> status r = 429 -> P)
    as Herr.
  { intros c msg P Hc r [= <-] Hs. contradiction. }
  unfold onRequest, checkRateLimit.
  destruct (_ && _); [wp_steps; apply H200|].
  destruct (endsWith (js "/health") _); [wp_steps; apply H200|].
  wp_steps. world_simpl.
  destruct (checkRateLimit_at _ (state w)) as [rc st1] eqn:Hrc.
  wp_steps. world_simpl.
  destruct (allowed rc) eqn:Hall; cbn [negb]; [|wp_steps; reflexivity].
  destruct (is_route "/chat" "POST" request).
  { unfold handleChat. wp_steps.
    destruct (req_body request) as [|message|tool args]; wp_steps;
      try (apply Herr; discriminate).
    unfold wp at 1. destruct (processChat E message _) as [[r|e] w2]; cbn [fst snd];
      cbv beta iota; wp_steps; [apply H200|apply Herr; discriminate]. }
  destruct (is_route "/reset" "POST" request).
  { unfold handleReset. wp_steps. apply H200. }
  destruct (is_route "/state" "GET" request); [wp_steps; apply H200|].
  destruct (is_route "/execute" "POST" request).
  { unfold handleExecute. wp_steps.
    destruct (req_body request) as [|message|tool args]; wp_steps;
      try (apply Herr; discriminate). apply H200. }
  destruct (is_route "/schedules" "GET" request); [wp_steps; apply H200|].
  destruct (_ && _).
  { destruct (last_segment _); wp_steps; [apply Herr; discriminate|apply H200]. }
  destruct (is_route "/history" "GET" request); [wp_steps; apply H200|].
  destruct (is_route "/clear" "POST" request); [wp_steps; apply H200|].
  wp_steps. apply Herr. discriminate.
Qed.

(** X11.  A reset also forgets the rate limiter's window: after a
    [POST /reset] that was let through, the counter is gone, and the next
    request -- whatever it is, and however many requests came before the
    reset -- is not answered 429. *)
Theorem reset_reopens_the_window (t0 : Z) (w : World) :
  allowed (fst (checkRateLimit_at (clock E (trace w)) (state w))) = true ->
  rateLimit (state (snd (onRequest E t0 reset_request w))) = None
  /\ forall (request : Request) (r : Response),
       fst (onRequest E t0 request (snd (onRequest E t0 reset_request w))) = Return r ->
       status r <> 429.
Proof.
  intros Hall. destruct (onRequest_reset E t0 w Hall) as (w1 & -> & _).
  rewrite handleReset_run. world_simpl. split; [reflexivity|].
  intros request r Hr Hs.
  pose proof (onRequest_429 t0 request
                (with_state
                   (with_lastActive (clock E (trace w1))
                      (with_preferences (preferences (state w1)) (initialState t0)))
                   (after_event (EvNow (clock E (trace w1))) w1)) r Hr Hs) as H.
  discriminate H.
Qed.

(** X12.  A chat frame of the real-time channel whose token is not the
    secret is refused: the listener is sent the notification
    [Invalid token], and nothing else happens -- the session state is
    untouched and neither the completion service nor the bridge is
    called. *)
Theorem wrong_token_is_refused (connection : nat) (token msg : jsstring) (w : World) :
  wf_string token -> wf_string (API_SECRET E) ->
  token <> [] -> msg <> [] -> token <> API_SECRET E ->
  fst (onMessage E connection (FrameText (Some (DataChat token msg))) w) = Return tt
  /\ state (snd (onMessage E connection (FrameText (Some (DataChat token msg))) w))
     = state w
  /\ trace (snd (onMessage E connection (FrameText (Some (DataChat token msg))) w))
     = EvSend connection
         {| ws_type := ws_notification;
            ws_payload := PNotification (js "Error") (js "Invalid token");
            ws_timestamp := clock E (trace w) |}
       :: EvNow (clock E (trace w)) :: trace w.
Proof.
  intros Ht Hs Hne Hm Hneq.
  assert (timingSafeEqual token (API_SECRET E) = false) as Hcmp.
  { destruct (timingSafeEqual token (API_SECRET E)) eqn:Hc; [|reflexivity].
    exfalso. apply Hneq. apply timingSafeEqual_true_eq; assumption. }
  destruct token as [|c token]; [contradiction|].
  destruct msg as [|c' msg]; [contradiction|].
  assert (wp (onMessage E connection (FrameText (Some (DataChat (c :: token) (c' :: msg)))))
            w
            (fun o w' =>
               o = Return tt /\ state w' = state w
               /\ trace w'
                  = EvSend connection
                      {| ws_type := ws_notification;
                         ws_payload := PNotification (js "Error") (js "Invalid token");
                         ws_timestamp := clock E (trace w) |}
                    :: EvNow (clock E (trace w)) :: trace w)) as H.
  { unfold onMessage. cbn [nonempty andb]. rewrite Hcmp. cbn [negb].
    wp_steps. world_simpl. auto. }
  exact H.
Qed.

(** How a broadcast runs: every target is sent the message once, in order;
    the state is left alone; no listener is added; a listener is dropped
    only if a send to it failed, and never if its socket accepts the
    message. *)
Lemma broadcast_loop_spec (m : WSMessage) (targets : list nat) :
  forall w,
    fst (broadcast_loop E m targets w) = Return tt
    /\ state (snd (broadcast_loop E m targets w)) = state w
    /\ trace (snd (broadcast_loop E m targets w))
       = rev (map (fun c => EvSend c m) targets) ++ trace w
    /\ (forall c, In c (connections (snd (broadcast_loop E m targets w))) ->
                  In c (connections w))
    /\ (forall c, In c (connections w) ->
                  ~ In c (connections (snd (broadcast_loop E m targets w))) ->
                  In c targets /\ exists tr, socket_send E tr c m = false)
    /\ (forall c, In c (connections w) ->
                  (forall tr, socket_send E tr c m = true) ->
                  In c (connections (snd (broadcast_loop E m targets w)))).
Proof.
  induction targets as [|t targets IH]; intros w; cbn [broadcast_loop].
  - cbn [ret fst snd map rev app].
    split; [reflexivity|]. split; [reflexivity|]. split; [reflexivity|].
    split; [auto|]. split; [|auto]. intros c Hc Hn. contradiction.
  - unfold bind.
    assert (exists w1,
               sendToConnection E t m w = (Return tt, w1)
               /\ state w1 = state w
               /\ trace w1 = EvSend t m :: trace w
               /\ ((socket_send E (trace w) t m = true /\ connections w1 = connections w)
                   \/ (socket_send E (trace w) t m = false
                       /\ connections w1 = List.remove Nat.eq_dec t (connections w))))
      as (w1 & -> & Hst & Htr & Hcs).
    { unfold sendToConnection, bind, getTrace, emit, ret, getConnections, setConnections.
      cbn. destruct (socket_send E (trace w) t m); eexists; repeat split; auto. }
    destruct (IH w1) as (H1 & H2 & H3 & H4 & H5 & H6).
    split; [exact H1|]. split; [congruence|]. split.
    { rewrite H3, Htr. cbn [map rev]. rewrite <- app_assoc. reflexivity. }
    split; [|split].
    + intros c Hc. apply H4 in Hc.
      destruct Hcs as [[_ Hcs]|[_ Hcs]]; rewrite Hcs in Hc; [exact Hc|].
      apply in_remove in Hc. tauto.
    + intros c Hc Hn.
      destruct Hcs as [[Hok Hcs]|[Hfail Hcs]].
      * rewrite <- Hcs in Hc. destruct (H5 c Hc Hn) as [Hin Hex].
        split; [right; exact Hin|exact Hex].
      * destruct (Nat.eq_dec c t) as [->|Hct].
        -- split; [left; reflexivity|]. eauto.
        -- assert (In c (connections w1)) as Hc1.
           { rewrite Hcs. apply in_in_remove; assumption. }
           destruct (H5 c Hc1 Hn) as [Hin Hex]. split; [right; exact Hin|exact Hex].
    + intros c Hc Hall. apply H6; [|exact Hall].
      destruct Hcs as [[_ Hcs]|[Hfail Hcs]]; rewrite Hcs; [exact Hc|].
      apply in_in_remove; [|exact Hc].
      intros ->. rewrite Hall in Hfail. discriminate.
Qed.

(** X13.  A broadcast sends the message to every connected listener exactly
    once, in the order of the connections, and changes nothing of the
    session state.  Afterwards no listener has been added; a listener is
    gone only if a send to it failed; and a listener whose socket accepts
    the message is still connected. *)
Theorem broadcast_reaches_every_listener (m : WSMessage) (w : World) :
  fst (broadcastToClients E m w) = Return tt
  /\ state (snd (broadcastToClients E m w)) = state w
  /\ trace (snd (broadcastToClients E m w))
     = rev (map (fun c => EvSend c m) (connections w)) ++ trace w
  /\ (forall c, In c (connections (snd (broadcastToClients E m w))) ->
                In c (connections w))
  /\ (forall c, In c (connections w) ->
                ~ In c (connections (snd (broadcastToClients E m w))) ->
                exists tr, socket_send E tr c m = false)
  /\ (forall c, In c (connections w) ->
                (forall tr, socket_send E tr c m = true) ->
                In c (connections (snd (broadcastToClients E m w)))).
Proof.
  unfold broadcastToClients, bind, getConnections. cbn [fst snd].
  destruct (broadcast_loop_spec m (connections w) w) as (H1 & H2 & H3 & H4 & H5 & H6).
  repeat split; auto.
  intros c Hc Hn. destruct (H5 c Hc Hn) as [_ Hex]. exact Hex.
Qed.

End Routes2.

(** X7.  In every session -- whatever the outside answers and whatever
    sequence of requests, frames, connections and scheduled firings is
    run from a new session -- a pending action, when there is one, is a
    message waiting to be sent: its tool is [send_imessage] and its
    arguments are exactly [to], a normalised phone number, and [message].
    So a confirmation can never run any other tool. *)
Theorem pending_action_is_a_message (E : Env) (t0 : Z) (ops : list Operation) :
  pending_ok (state (run_operations E t0 ops (new_session t0))) = true.
Proof.
  pose proof (run_operations_ok E t0 ops (new_session t0) eq_refl) as H.
  apply session_ok_elim in H. tauto.
Qed.

(** The contact flow does leave such a pending action. *)
Lemma contact_flow_sets_pending :
  pendingAction
    (state (run_operations contact_env 0
              [OpRequest (chat_request (js "text John that I am running late"))]
              (new_session 0)))
  = Some {| pa_tool := js "send_imessage";
            pa_args := [(js "to", JStr (js "+15551234567"));
                        (js "message", JStr (js "Running late"))];
            pa_context := js "John Appleseed: +1 (555) 123-4567";
            pa_originalRequest := js "text John that I am running late" |}.
Proof. vm_compute. reflexivity. Qed.

(** X8.  In every session, each call to the completion service carries at
    most 41 messages: at most the last 40 entries of the history and the
    message of the turn (or the single message of the contact flow). *)
Theorem completion_calls_are_bounded (E : Env) (t0 : Z) (ops : list Operation) :
  forallb bounded_call (trace (run_operations E t0 ops (new_session t0))) = true.
Proof.
  pose proof (run_operations_ok E t0 ops (new_session t0) eq_refl) as H.
  apply session_ok_elim in H. tauto.
Qed.

(** ** A turn answered in plain prose *)

Section PlainReply.

Variable E : Env.

Lemma wp_callClaude_reply (p : jsstring) (ms : list Message) (w : World) Q
    (text : jsstring) :
  claude E (trace w) p ms = ClaudeReply (Some text) -> text <> [] ->
  Q (Return text) (after_event (EvClaude p ms) w) ->
  wp (callClaude E p ms) w Q.
Proof.
  intros Hc Hne HQ. unfold wp, callClaude, bind, getTrace, emit. cbn [fst snd].
  rewrite Hc. destruct text as [|c t]; [contradiction|]. exact HQ.
Qed.

Lemma wp_fetchTools_exact (w : World) Q :
  Q (Return (listed_tools (fetch_tools E (trace w)))) (after_event EvFetchTools w) ->
  wp (fetchTools E) w Q.
Proof. intros HQ. exact HQ. Qed.

Lemma wp_parseResponse_doc (d : list Seg) (w : World) Q :
  wf_doc d = true ->
  Q (Return {| pr_text := or_done (trim (render (displayed d)));
               pr_actions := actions_of d;
               pr_schedule := first_directive KSchedule d |})
    (with_state (learn_preference E d (state w)) w) ->
  wp (parseResponse E (render d)) w Q.
Proof.
  intros Hwf HQ. unfold wp. rewrite parseResponse_doc by exact Hwf. exact HQ.
Qed.

(** The main path up to the completion, when the prompt builds and the
    completion service replies [text]. *)
Lemma wp_processChat_main_reply (w : World) (message prompt text : jsstring)
    (Q : Outcome ChatResult -> World -> Prop) (k : jsstring -> M ChatResult) :
  buildSystemPrompt E (listed_tools (fetch_tools E (trace w))) (preferences (state w))
  = inr prompt ->
  claude E (EvFetchTools :: trace w) prompt
    (slice_last 40 (history (state w)) ++ [user_msg message])
  = ClaudeReply (Some text) ->
  text <> [] ->
  wp (k text)
     (after_event (EvClaude prompt (slice_last 40 (history (state w)) ++ [user_msg message]))
        (after_event EvFetchTools w)) Q ->
  wp (tools <- fetchTools E ;;
      st <- getState ;;
      systemPrompt <- lift (buildSystemPrompt E tools (preferences st)) ;;
      response <- callClaude E systemPrompt
                    (slice_last 40 (history st) ++ [user_msg message]) ;;
      k response)%agent w Q.
Proof.
  intros Hprompt Hc Hne Hk.
  apply wp_bind. apply wp_fetchTools_exact.
  apply wp_bind. apply wp_getState. world_simpl. rewrite Hprompt.
  apply wp_bind. apply wp_ret.
  apply wp_bind. eapply wp_callClaude_reply; [exact Hc|exact Hne|]. exact Hk.
Qed.

Lemma processChat_main_plain (w : World) (message text prompt : jsstring) :
  buildSystemPrompt E (listed_tools (fetch_tools E (trace w))) (preferences (state w))
  = inr prompt ->
  claude E (EvFetchTools :: trace w) prompt
    (slice_last 40 (history (state w)) ++ [user_msg message])
  = ClaudeReply (Some text) ->
  text <> [] -> no_backtick text = true ->
  wp (processChat_main E message) w
     (fun o w' =>
        let sent := EvClaude prompt
                      (slice_last 40 (history (state w)) ++ [user_msg message]) in
        let now := clock E (sent :: EvFetchTools :: trace w) in
        o = Return {| cr_message := or_done (trim text); cr_action := None;
                      cr_actions := Some []; cr_scheduled := None |}
        /\ w' = {| state :=
                     with_lastActive now
                       (with_history
                          (slice_last 50
                             (history (state w)
                              ++ [user_msg message; assistant_msg text]))
                          (state w));
                   connections := connections w;
                   trace := EvNow now :: sent :: EvFetchTools :: trace w |}).
Proof.
  intros Hprompt Hc Hne Hnb. unfold processChat_main.
  eapply wp_processChat_main_reply; [exact Hprompt|exact Hc|exact Hne|].
  replace (parseResponse E text) with (parseResponse E (render [Prose text]))
    by (cbn [render flat_map render_seg]; rewrite app_nil_r; reflexivity).
  apply wp_bind. apply wp_parseResponse_doc.
  { cbn [wf_doc]. rewrite Hnb. reflexivity. }
  change (displayed [Prose text]) with [Prose text].
  change (actions_of [Prose text]) with (@nil json).
  change (first_directive KSchedule [Prose text]) with (@None json).
  change (learn_preference E [Prose text]) with (fun st : SystemState => st).
  cbn [pr_schedule pr_actions pr_text truthy run_actions render flat_map render_seg].
  rewrite app_nil_r.
  wp_steps. world_simpl. cbn [hd_error]. split; [reflexivity|].
  destruct w as [[h pr la pa rl sr] cs tr]. reflexivity.
Qed.

(** A message that reaches the completion service is handled by the main
    path, started without a pending action. *)
Lemma processChat_reaches_main (w : World) (message : jsstring) :
  reaches_completion E (state w) message = true ->
  processChat E message w
  = processChat_main E message
      {| state := with_pendingAction None (state w);
         connections := connections w; trace := trace w |}.
Proof.
  intros Hreach. unfold reaches_completion in Hreach. unfold processChat.
  unfold bind at 1. cbn [getState].
  destruct (pendingAction (state w)) as [pending|] eqn:Hp.
  - apply andb_true_iff in Hreach as [Hreach Hclar].
    apply andb_true_iff in Hreach as [Hy Hn].
    apply negb_true_iff in Hy, Hn, Hclar. rewrite Hy, Hn, Hclar.
    unfold bind at 1. cbn [setState]. world_simpl. reflexivity.
  - f_equal. destruct w as [[h pr la pa rl sr] cs tr]. cbn in Hp. subst pa. reflexivity.
Qed.

(** X14.  A chat turn that reaches the completion service -- the system
    prompt builds -- and is answered in plain prose (no backtick, hence no
    directive block) runs nothing: no tool is called and nothing is
    scheduled.  The reply shown is the trimmed completion ([Done!] for a
    blank one); the history gains the user's message and the completion as
    it came, keeping its last 50 entries; a pending action that the
    message did not address is dropped. *)
Theorem plain_reply_turn (w : World) (message text prompt : jsstring) :
  reaches_completion E (state w) message = true ->
  buildSystemPrompt E (listed_tools (fetch_tools E (trace w))) (preferences (state w))
  = inr prompt ->
  claude E (EvFetchTools :: trace w) prompt
    (slice_last 40 (history (state w)) ++ [user_msg message])
  = ClaudeReply (Some text) ->
  text <> [] -> no_backtick text = true ->
  let sent := EvClaude prompt
                (slice_last 40 (history (state w)) ++ [user_msg message]) in
  let now := clock E (sent :: EvFetchTools :: trace w) in
  processChat E message w
  = (Return {| cr_message := or_done (trim text); cr_action := None;
               cr_actions := Some []; cr_scheduled := None |},
     {| state :=
          with_lastActive now
            (with_history
               (slice_last 50
                  (history (state w) ++ [user_msg message; assistant_msg text]))
               (with_pendingAction None (state w)));
        connections := connections w;
        trace := EvNow now :: sent :: EvFetchTools :: trace w |}).
Proof.
  intros Hreach Hprompt Hc Hne Hnb. cbv zeta.
  rewrite (processChat_reaches_main w message Hreach).
  pose proof (processChat_main_plain
                {| state := with_pendingAction None (state w);
                   connections := connections w; trace := trace w |}
                message text prompt Hprompt Hc Hne Hnb) as H.
  unfold wp in H. cbv zeta in H. world_simpl. destruct H as [H1 H2].
  rewrite (surjective_pairing (processChat_main E message _)), H1, H2. reflexivity.
Qed.

End PlainReply.

(** ** The worker's guard *)

Lemma remove_literal_prefix (pat s : jsstring) :
  remove_literal pat (pat ++ s) = s.
Proof.
  assert (startsWith pat (pat ++ s) = true) as H.
  { induction pat as [|c pat IH]; [destruct s; reflexivity|].
    cbn [app startsWith]. rewrite Z.eqb_refl. exact IH. }
  destruct pat as [|c pat]; [destruct s; reflexivity|].
  cbn [app remove_literal]. cbn [app] in H. rewrite H.
  change (c :: pat ++ s) with ((c :: pat) ++ s).
  rewrite skipn_app, skipn_all, Nat.sub_diag. reflexivity.
Qed.

(** X15.  The worker hands a request under [/agents/] to the agent exactly
    when the [Authorization] header, with its first [Bearer ] taken out, is
    the configured secret and that secret is not empty; every other such
    request is answered 401.  In particular the header [Bearer <secret>] is
    accepted, and with an empty secret nothing is. *)
Theorem worker_guards_the_agent (E : Env) (pathname method : jsstring)
    (authHeader : option jsstring) :
  wf_string (API_SECRET E) ->
  (forall h, authHeader = Some h -> wf_string h) ->
  startsWith (js "/agents/") pathname = true ->
  (worker_fetch E pathname method authHeader = WToAgent (agentPath pathname)
   \/ worker_fetch E pathname method authHeader = WUnauthorized)
  /\ (worker_fetch E pathname method authHeader = WToAgent (agentPath pathname)
      <-> exists h, authHeader = Some h
                    /\ remove_literal (js "Bearer ") h = API_SECRET E
                    /\ API_SECRET E <> [])
  /\ (forall secret,
         API_SECRET E = secret -> secret <> [] ->
         authHeader = Some (js "Bearer " ++ secret) ->
         worker_fetch E pathname method authHeader = WToAgent (agentPath pathname)).
Proof.
  intros Hs Hh Hp.
  assert (forall t, wf_string t -> wf_string (remove_literal (js "Bearer ") t)) as Hwf.
  { unfold wf_string. intros t. induction t as [|c t IH]; intros Ht.
    - cbn. constructor.
    - cbn [remove_literal]. destruct (startsWith (js "Bearer ") (c :: t)).
      + clear IH. revert Ht. generalize (c :: t). intros l Hl.
        apply Forall_forall. intros x Hx. rewrite Forall_forall in Hl. apply Hl.
        revert Hx. generalize (List.length (js "Bearer ")). intros n.
        revert l Hl. induction n as [|n IHn]; intros l Hl Hx; [exact Hx|].
        destruct l as [|y l]; [destruct Hx|]. cbn [skipn] in Hx. right.
        apply IHn; [|exact Hx]. intros z Hz. apply Hl. right. exact Hz.
      + inversion Ht; subst. constructor; auto. }
  assert (worker_fetch E pathname method authHeader
          = if negb (authorized E (bearer_token authHeader)) then WUnauthorized
            else WToAgent (agentPath pathname)) as Hw.
  { unfold worker_fetch.
    assert (str_eqb pathname (js "/") = false) as ->.
    { destruct (str_eqb pathname (js "/")) eqn:H; [|reflexivity].
      apply str_eqb_eq in H. subst pathname. discriminate Hp. }
    assert (str_eqb pathname (js "/api") = false) as ->.
    { destruct (str_eqb pathname (js "/api")) eqn:H; [|reflexivity].
      apply str_eqb_eq in H. subst pathname. discriminate Hp. }
    cbn [andb]. rewrite Hp. reflexivity. }
  assert (authorized E (bearer_token authHeader) = true
          <-> exists h, authHeader = Some h
                        /\ remove_literal (js "Bearer ") h = API_SECRET E
                        /\ API_SECRET E <> []) as Hauth.
  { unfold authorized, bearer_token. destruct authHeader as [h|].
    - destruct (remove_literal (js "Bearer ") h) as [|c t] eqn:Ht.
      + split; [discriminate|]. intros (h' & [= <-] & He & Hne).
        rewrite Ht in He. symmetry in He. contradiction.
      + split.
        * intros Heq. exists h. split; [reflexivity|].
          apply timingSafeEqual_true_eq in Heq;
            [|rewrite <- Ht; apply Hwf; apply Hh; reflexivity|exact Hs].
          rewrite Ht. split; [exact Heq|]. rewrite <- Heq. discriminate.
        * intros (h' & [= <-] & He & Hne). rewrite Ht in He. rewrite He.
          apply timingSafeEqual_same. exact Hs.
    - split; [discriminate|]. intros (h & Hsome & _). discriminate. }
  split; [|split].
  - rewrite Hw. destruct (authorized E (bearer_token authHeader)); auto.
  - rewrite Hw, <- Hauth.
    destruct (authorized E (bearer_token authHeader)); cbn [negb];
      split; congruence.
  - intros secret Hsec Hne Hhead. rewrite Hw.
    assert (authorized E (bearer_token authHeader) = true) as ->.
    { apply Hauth. exists (js "Bearer " ++ secret).
      rewrite remove_literal_prefix, Hsec. auto. }
    reflexivity.
Qed.

Lemma worker_guards_the_agent_witness :
  worker_fetch (sample_env (ClaudeReply None)) (js "/agents/system-agent/chat") (js "POST")
    (Some (js "Bearer " ++ js "s3cret"))
  = WToAgent (agentPath (js "/agents/system-agent/chat")).
Proof.
  assert (wf_string (js "s3cret")) as Ha
      by (unfold wf_string; repeat constructor; vm_compute; discriminate).
  assert (wf_string (js "Bearer " ++ js "s3cret")) as Hb
      by (unfold wf_string; repeat constructor; vm_compute; discriminate).
  refine (proj2 (proj2 (worker_guards_the_agent (sample_env (ClaudeReply None))
                          (js "/agents/system-agent/chat") (js "POST")
                          (Some (js "Bearer " ++ js "s3cret")) Ha _ eq_refl))
            (js "s3cret") eq_refl _ eq_refl).
  - intros h [= <-]. exact Hb.
  - discriminate.
Defined.

(** ** The tools of the system prompt *)

(** On tools of the declared type the callbacks of the two filters do not
    throw, and they are the filters [coreTools] and [extensionTools]. *)
Lemma some_throwing_total {A} (f : A -> exn + bool) (g : A -> bool) (l : list A) :
  (forall a, f a = inr (g a)) -> some_throwing f l = inr (existsb g l).
Proof.
  intros Hf. induction l as [|a l IH]; cbn [some_throwing existsb]; [reflexivity|].
  rewrite Hf. cbn [and_then]. destruct (g a); [reflexivity|exact IH].
Qed.

Lemma is_core_typed (E : Env) (t : Tool) :
  is_core E (tool_json t) = inr (is_core_tool t).
Proof.
  unfold is_core, is_core_tool, tool_json, read_prop, not_send_imessage.
  change (get_prop (JObj _) "name") with (Some (JStr (tool_name t))).
  cbn [and_then strict_eq js_includes].
  destruct (str_eqb (tool_name t) (js "send_imessage")); cbn [negb andb]; [reflexivity|].
  destruct (includes (js "_") (tool_name t)); cbn [negb orb]; [|reflexivity].
  apply some_throwing_total. intros p. reflexivity.
Qed.

Lemma is_extension_typed (E : Env) (t : Tool) :
  is_extension E (tool_json t)
  = inr (negb (is_core_tool t)
         && includes (js "_") (tool_name t)
         && negb (str_eqb (tool_name t) (js "send_imessage"))).
Proof.
  unfold is_extension. rewrite is_core_typed. cbn [and_then].
  destruct (is_core_tool t); cbn [negb andb]; [reflexivity|].
  unfold tool_json, read_prop, not_send_imessage.
  change (get_prop (JObj _) "name") with (Some (JStr (tool_name t))).
  reflexivity.
Qed.

(** The tools that [buildSystemPrompt] takes for core tools and for
    extension tools, when the bridge lists tools of the declared type. *)
Lemma prompt_tools_typed (E : Env) (tools : list Tool) :
  filter_throwing (is_core E) (map tool_json tools)
  = inr (map tool_json (coreTools tools))
  /\ filter_throwing (is_extension E) (map tool_json tools)
     = inr (map tool_json (extensionTools tools)).
Proof.
  assert (forall (f : json -> exn + bool) (g : Tool -> bool),
             (forall t, f (tool_json t) = inr (g t)) ->
             filter_throwing f (map tool_json tools)
             = inr (map tool_json (filter g tools))) as H.
  { intros f g Hfg. induction tools as [|t l IH]; cbn [map filter_throwing filter].
    - reflexivity.
    - rewrite Hfg. cbn [and_then]. rewrite IH. cbn [and_then].
      destruct (g t); reflexivity. }
  split.
  - apply H. apply is_core_typed.
  - apply H. apply is_extension_typed.
Qed.



(** ** Schedules: registering and firing *)

Section Schedules.

Variable E : Env.

(** X17.  [scheduleAction] registers all or nothing: when it returns, the
    registry has gained exactly one record, the last, carrying the
    identifier the scheduler gave and the directive's tool, arguments and
    description, and nothing else of the state has changed; when it throws
    -- the directive's [when] is not a string, or the scheduler refuses --
    the state is as it was. *)
Theorem scheduleAction_registers_or_throws (schedule : json) (w : World) :
  match fst (scheduleAction E schedule w) with
  | Return id =>
      exists record,
        state (snd (scheduleAction E schedule w))
        = with_scheduleRegistry (scheduleRegistry (state w) ++ [record]) (state w)
        /\ sr_id record = id
        /\ sr_tool record = get_prop schedule "tool"
        /\ sr_args record = get_prop schedule "args"
        /\ sr_description record = get_prop schedule "description"
  | Throw _ => state (snd (scheduleAction E schedule w)) = state w
  end.
Proof.
  assert (wp (scheduleAction E schedule) w
            (fun o w' =>
               match o with
               | Return id =>
                   exists record,
                     state w'
                     = with_scheduleRegistry (scheduleRegistry (state w) ++ [record]) (state w)
                     /\ sr_id record = id
                     /\ sr_tool record = get_prop schedule "tool"
                     /\ sr_args record = get_prop schedule "args"
                     /\ sr_description record = get_prop schedule "description"
               | Throw _ => state w' = state w
               end)) as H.
  { unfold scheduleAction. wp_steps.
    destruct (get_prop schedule "when") as [[| | |text| |]|]; wp_steps; try reflexivity.
    destruct (sdk_schedule E _ _ _) as [e|id]; wp_steps; [reflexivity|].
    world_simpl. eexists. split; [reflexivity|]. cbn. auto. }
  exact H.
Qed.

(** The registry after a scheduled firing whose description can be
    printed. *)
Lemma executeScheduledAction_registry (payload : ScheduledAction) (w : World)
    (description : jsstring) :
  ToString E (sa_description payload) = inr description ->
  scheduleRegistry (state (snd (executeScheduledAction E payload w)))
  = match find (fun s => strict_eq E (sr_tool s) (sa_tool payload)
                         && strict_eq E (sr_description s) (sa_description payload))
               (scheduleRegistry (state w)) with
    | Some r =>
        match sr_type r with
        | one_time =>
            filter (fun s => negb (str_eqb (sr_id s) (sr_id r))) (scheduleRegistry (state w))
        | recurring => scheduleRegistry (state w)
        end
    | None => scheduleRegistry (state w)
    end.
Proof.
  intros Hdescription.
  assert (wp (executeScheduledAction E payload) w
            (fun _ w' =>
               scheduleRegistry (state w')
               = match find (fun s => strict_eq E (sr_tool s) (sa_tool payload)
                                      && strict_eq E (sr_description s)
                                           (sa_description payload))
                            (scheduleRegistry (state w)) with
                 | Some r =>
                     match sr_type r with
                     | one_time =>
                         filter (fun s => negb (str_eqb (sr_id s) (sr_id r)))
                                (scheduleRegistry (state w))
                     | recurring => scheduleRegistry (state w)
                     end
                 | None => scheduleRegistry (state w)
                 end)) as H.
  { unfold executeScheduledAction. wp_steps; [|congruence]. world_simpl.
    destruct (find _ (scheduleRegistry (state w))) as [[id wh tl ar de cr [|]]|];
      wp_steps; world_simpl; reflexivity. }
  exact H.
Qed.

Lemma find_last {A} (f : A -> bool) (l : list A) (x : A) :
  Forall (fun a => f a = false) l -> f x = true -> find f (l ++ [x]) = Some x.
Proof.
  induction 1 as [|a l Ha _ IH]; intros Hx; cbn [app find].
  - rewrite Hx. reflexivity.
  - rewrite Ha. apply IH. exact Hx.
Qed.

Lemma filter_last {A} (f : A -> bool) (l : list A) (x : A) :
  Forall (fun a => f a = true) l -> f x = false -> filter f (l ++ [x]) = l.
Proof.
  induction 1 as [|a l Ha _ IH]; intros Hx; cbn [app filter].
  - rewrite Hx. reflexivity.
  - rewrite Ha. f_equal. apply IH. exact Hx.
Qed.

(** X18.  Registering a schedule and then firing it: the record of a
    one-time schedule is taken out of the registry again, which is then as
    it was before; the record of a recurring one (a cron expression with a
    star) stays.  This holds when tool and description are strings, no
    record already there has the same tool and description, and the
    scheduler's identifier is new -- the firing looks its record up by tool
    and description, not by identifier. *)
Theorem schedule_then_fire (schedule : json) (w : World)
    (text tool desc id : jsstring) :
  get_prop schedule "when" = Some (JStr text) ->
  get_prop schedule "tool" = Some (JStr tool) ->
  get_prop schedule "description" = Some (JStr desc) ->
  sdk_schedule E (EvNow (clock E (trace w)) :: trace w)
    (parseWhen (Date_parse E) (clock E (trace w)) text)
    {| sa_tool := Some (JStr tool); sa_args := get_prop schedule "args";
       sa_description := Some (JStr desc) |} = inr id ->
  Forall (fun s => strict_eq E (sr_tool s) (Some (JStr tool))
                   && strict_eq E (sr_description s) (Some (JStr desc)) = false)
         (scheduleRegistry (state w)) ->
  Forall (fun s => str_eqb (sr_id s) id = false) (scheduleRegistry (state w)) ->
  exists record,
    fst (scheduleAction E schedule w) = Return id
    /\ scheduleRegistry (state (snd (scheduleAction E schedule w)))
       = scheduleRegistry (state w) ++ [record]
    /\ sr_id record = id
    /\ sr_type record
       = (match parseWhen (Date_parse E) (clock E (trace w)) text with
          | WCron c => if includes (js "*") c then recurring else one_time
          | WDate _ => one_time
          end)
    /\ scheduleRegistry
         (state (snd (executeScheduledAction E
                        {| sa_tool := Some (JStr tool);
                           sa_args := get_prop schedule "args";
                           sa_description := Some (JStr desc) |}
                        (snd (scheduleAction E schedule w)))))
       = match sr_type record with
         | one_time => scheduleRegistry (state w)
         | recurring => scheduleRegistry (state w) ++ [record]
         end.
Proof.
  intros Hwhen Htool Hdesc Hsdk Hfresh Hid.
  set (now := clock E (trace w)) in *.
  set (when := parseWhen (Date_parse E) now text) in *.
  set (payload := {| sa_tool := Some (JStr tool); sa_args := get_prop schedule "args";
                     sa_description := Some (JStr desc) |}) in *.
  set (created := clock E (EvSchedule when payload :: EvNow now :: trace w)).
  set (record := {| sr_id := id;
                    sr_when := match when with WCron c => c | WDate _ => text end;
                    sr_tool := Some (JStr tool);
                    sr_args := get_prop schedule "args";
                    sr_description := Some (JStr desc);
                    sr_createdAt := created;
                    sr_type := if match when with
                                  | WCron c => includes (js "*") c
                                  | WDate _ => false
                                  end then recurring else one_time |}).
  assert (scheduleAction E schedule w
          = (Return id,
             {| state := with_scheduleRegistry (scheduleRegistry (state w) ++ [record])
                           (state w);
                connections := connections w;
                trace := EvNow created :: EvSchedule when payload :: EvNow now :: trace w |}))
    as Hrun.
  { unfold scheduleAction.
    unfold bind at 1. rewrite Date_now_run. fold now.
    rewrite Hwhen, Htool, Hdesc. fold when. fold payload.
    unfold bind at 1. cbn [getTrace after_event trace].
    unfold bind at 1. cbn [emit trace state connections].
    rewrite Hsdk.
    unfold bind at 1. rewrite Date_now_run. cbn [after_event trace state connections].
    fold created. reflexivity. }
  exists record. rewrite Hrun. cbn [fst snd state with_scheduleRegistry scheduleRegistry].
  split; [reflexivity|]. split; [reflexivity|]. split; [reflexivity|].
  split.
  { subst record. cbn [sr_type]. destruct when as [c|t]; reflexivity. }
  rewrite (executeScheduledAction_registry payload _ desc eq_refl).
  cbn [state with_scheduleRegistry scheduleRegistry sa_tool sa_description payload].
  rewrite find_last.
  - destruct (sr_type record) eqn:Hty; [|reflexivity].
    apply filter_last.
    + apply Forall_forall. intros s Hs. rewrite Forall_forall in Hid.
      subst record. cbn [sr_id]. rewrite (Hid s Hs). reflexivity.
    + subst record. cbn [sr_id]. rewrite str_eqb_refl. reflexivity.
  - exact Hfresh.
  - subst record. cbn [sr_tool sr_description strict_eq]. rewrite !str_eqb_refl. reflexivity.
Qed.

End Schedules.

(** ** Examples *)

Lemma probes_are_never_throttled_witness :
  exists b,
    onRequest (sample_env (ClaudeReply None)) 0
      {| req_path := js "/agents/system-agent/health"; req_method := js "GET";
         req_body := BodyNone |}
      (sample_world exhausted_state)
    = (Return (json_response b),
       after_event (EvNow (clock (sample_env (ClaudeReply None))
                             (trace (sample_world exhausted_state))))
         (sample_world exhausted_state)).
Proof.
  exact (probes_are_never_throttled (sample_env (ClaudeReply None)) 0
           {| req_path := js "/agents/system-agent/health"; req_method := js "GET";
              req_body := BodyNone |}
           (sample_world exhausted_state) eq_refl).
Defined.

Lemma delete_schedule_witness :
  scheduleRegistry
    (state (snd (onRequest (sample_env (ClaudeReply None)) 0
                   {| req_path := js "/agents/system-agent" ++ js "/schedules/" ++ js "def";
                      req_method := js "DELETE"; req_body := BodyNone |}
                   (sample_world (with_scheduleRegistry sample_registry (initialState 0))))))
  = filter (fun s => negb (str_eqb (sr_id s) (js "def"))) sample_registry.
Proof.
  rewrite (delete_schedule (sample_env (ClaudeReply None)) 0
             (js "/agents/system-agent") (js "def") BodyNone
             (sample_world (with_scheduleRegistry sample_registry (initialState 0)))
             ltac:(discriminate) eq_refl eq_refl eq_refl).
  reflexivity.
Defined.

Lemma reset_reopens_the_window_witness :
  rateLimit (state (snd (onRequest (sample_env (ClaudeReply None)) 0 reset_request
                           (sample_world (initialState 0))))) = None.
Proof.
  exact (proj1 (reset_reopens_the_window (sample_env (ClaudeReply None)) 0
                  (sample_world (initialState 0)) eq_refl)).
Defined.

Lemma wrong_token_is_refused_witness :
  state (snd (onMessage (sample_env (ClaudeReply None)) 7
                (FrameText (Some (DataChat (js "guess") (js "hello"))))
                (sample_world (initialState 0))))
  = state (sample_world (initialState 0)).
Proof.
  assert (wf_string (js "guess")) as Ha
      by (unfold wf_string; repeat constructor; vm_compute; discriminate).
  assert (wf_string (API_SECRET (sample_env (ClaudeReply None)))) as Hb
      by (unfold wf_string; repeat constructor; vm_compute; discriminate).
  exact (proj1 (proj2 (wrong_token_is_refused (sample_env (ClaudeReply None)) 7
                         (js "guess") (js "hello") (sample_world (initialState 0))
                         Ha Hb ltac:(discriminate) ltac:(discriminate)
                         ltac:(discriminate)))).
Defined.

Lemma plain_reply_turn_witness :
  fst (processChat (sample_env (ClaudeReply (Some (js " Hi there! ")))) (js "hello")
         (sample_world (with_pendingAction (Some (sample_pending (js "On my way")))
                          (initialState 0))))
  = Return {| cr_message := or_done (trim (js " Hi there! ")); cr_action := None;
              cr_actions := Some []; cr_scheduled := None |}.
Proof.
  rewrite (plain_reply_turn (sample_env (ClaudeReply (Some (js " Hi there! "))))
             (sample_world (with_pendingAction (Some (sample_pending (js "On my way")))
                              (initialState 0)))
             (js "hello") (js " Hi there! ") sample_prompt
             eq_refl eq_refl eq_refl ltac:(discriminate) eq_refl).
  reflexivity.
Defined.

Lemma schedule_then_fire_witness :
  exists record,
    fst (scheduleAction (sample_env (ClaudeReply None)) sample_schedule
           (sample_world (with_scheduleRegistry sample_registry (initialState 0))))
    = Return (js "schedule-1")
    /\ scheduleRegistry
         (state (snd (scheduleAction (sample_env (ClaudeReply None)) sample_schedule
                        (sample_world (with_scheduleRegistry sample_registry
                                         (initialState 0))))))
       = sample_registry ++ [record].
Proof.
  destruct (schedule_then_fire (sample_env (ClaudeReply None)) sample_schedule
              (sample_world (with_scheduleRegistry sample_registry (initialState 0)))
              (js "in 5 minutes") (js "notify") (js "Reminder") (js "schedule-1")
              eq_refl eq_refl eq_refl eq_refl
              ltac:(repeat constructor) ltac:(repeat constructor))
    as (record & H1 & H2 & _).
  exists record. split; [exact H1|exact H2].
Defined.

(** The reminder of the sample directive is due five minutes after the
    clock reading, and firing it leaves the registry as it was. *)
Lemma sample_schedule_fired :
  scheduleRegistry
    (state (snd (executeScheduledAction (sample_env (ClaudeReply None))
                   {| sa_tool := Some (JStr (js "notify"));
                      sa_args := Some (JObj [(js "message", JStr (js "Hi"))]);
                      sa_description := Some (JStr (js "Reminder")) |}
                   (snd (scheduleAction (sample_env (ClaudeReply None)) sample_schedule
                           (sample_world (with_scheduleRegistry sample_registry
                                            (initialState 0)))))))) 
  = sample_registry
  /\ trace (snd (scheduleAction (sample_env (ClaudeReply None)) sample_schedule
                   (sample_world (initialState 0))))
     = [EvNow 1002;
        EvSchedule (WDate 301000)
          {| sa_tool := Some (JStr (js "notify"));
             sa_args := Some (JObj [(js "message", JStr (js "Hi"))]);
             sa_description := Some (JStr (js "Reminder")) |};
        EvNow 1000].
Proof. vm_compute. split; reflexivity. Qed.

(** ** What the handlers never do *)

Section Handlers.

Variable E : Env.

Lemma broadcast_loop_returns (m : WSMessage) (targets : list nat) (w : World) :
  fst (broadcast_loop E m targets w) = Return tt.
Proof. apply (broadcast_loop_spec E m targets w). Qed.

(** X19.  What the handlers let escape.  An HTTP request is always
    answered, with status 200, 400, 404, 429 or 500; a frame on the
    real-time channel and a connection always run to their end -- whatever
    the completion service, the bridge, the scheduler and the sockets do.
    A scheduled firing runs to its end as well, unless the description of
    its payload cannot be printed: the firing then throws, after its
    bridge call. *)
Theorem handler_outcomes (t0 : Z) (w : World) :
  (forall request,
      exists r, fst (onRequest E t0 request w) = Return r
                /\ In (status r) [200; 400; 404; 429; 500])
  /\ (forall connection frame, fst (onMessage E connection frame w) = Return tt)
  /\ (forall connection, fst (onConnect E connection w) = Return tt)
  /\ (forall payload,
         fst (executeScheduledAction E payload w)
         = match ToString E (sa_description payload) with
           | inr _ => Return tt
           | inl e => Throw e
           end).
Proof.
  split; [|split; [|split]].
  - intros request.
    assert (wp (onRequest E t0 request) w
              (fun o _ => exists r, o = Return r
                                    /\ In (status r) [200; 400; 404; 429; 500])) as H.
    { assert (forall b, exists r, Return (json_response b) = Return r
                                  /\ In (status r) [200; 400; 404; 429; 500]) as H200.
      { intros b. eexists. split; [reflexivity|]. cbn. auto. }
      assert (forall c msg, In c [400; 404; 500] ->
                exists r, Return (error_response c msg) = Return r
                          /\ In (status r) [200; 400; 404; 429; 500]) as Herr.
      { intros c msg Hc. eexists. split; [reflexivity|]. cbn in *. intuition. }
      unfold onRequest, checkRateLimit.
      destruct (_ && _); [wp_steps; apply H200|].
      destruct (endsWith (js "/health") _); [wp_steps; apply H200|].
      wp_steps. world_simpl.
      destruct (checkRateLimit_at _ (state w)) as [rc st1] eqn:Hrc.
      wp_steps. world_simpl.
      destruct (negb (allowed rc)).
      { wp_steps. eexists. split; [reflexivity|]. cbn. auto. }
      destruct (is_route "/chat" "POST" request).
      { unfold handleChat. wp_steps.
        destruct (req_body request) as [|message|tool args]; wp_steps;
          try (apply Herr; cbn; auto).
        unfold wp at 1. destruct (processChat E message _) as [[r|e] w2]; cbn [fst snd];
          cbv beta iota; wp_steps; [apply H200|apply Herr; cbn; auto]. }
      destruct (is_route "/reset" "POST" request).
      { unfold handleReset. wp_steps. apply H200. }
      destruct (is_route "/state" "GET" request); [wp_steps; apply H200|].
      destruct (is_route "/execute" "POST" request).
      { unfold handleExecute. wp_steps.
        destruct (req_body request) as [|message|tool args]; wp_steps;
          try (apply Herr; cbn; auto). apply H200. }
      destruct (is_route "/schedules" "GET" request); [wp_steps; apply H200|].
      destruct (_ && _).
      { destruct (last_segment _); wp_steps; [apply Herr; cbn; auto|apply H200]. }
      destruct (is_route "/history" "GET" request); [wp_steps; apply H200|].
      destruct (is_route "/clear" "POST" request); [wp_steps; apply H200|].
      wp_steps. apply Herr. cbn. auto. }
    exact H.
  - intros connection frame.
    assert (wp (onMessage E connection frame) w (fun o _ => o = Return tt)) as H.
    { unfold onMessage.
      destruct frame as [|[[|token msg|]|]]; wp_steps; try reflexivity.
      destruct (_ && _); [|wp_steps; reflexivity].
      destruct (negb _); wp_steps; try reflexivity.
      unfold wp at 1. destruct (processChat E msg w) as [[r|e] w2]; cbn [fst snd];
        cbv beta iota; wp_steps; reflexivity. }
    exact H.
  - intros connection.
    assert (wp (onConnect E connection) w (fun o _ => o = Return tt)) as H
        by (unfold onConnect; wp_steps; reflexivity).
    exact H.
  - intros payload.
    assert (wp (executeScheduledAction E payload) w
              (fun o _ => o = match ToString E (sa_description payload) with
                              | inr _ => Return tt
                              | inl e => Throw e
                              end)) as H.
    { unfold executeScheduledAction, broadcastToClients.
      apply wp_bind. apply wp_callBridge. intros res.
      apply wp_bind. apply wp_getState. world_simpl.
      apply wp_bind. apply wp_lift; intros x ->; [|reflexivity].
      apply wp_bind.
      apply wp_conseq with (Q := fun o w' => o = Return tt).
      { destruct (find _ (scheduleRegistry (state w))) as [[id wh tl ar de cr [|]]|];
          wp_steps; reflexivity. }
      intros o w1 ->. wp_steps. apply broadcast_loop_returns. }
    exact H.
Qed.

(** X20.  Over HTTP a request that the rate limiter refuses is answered
    429 with a header [X-RateLimit-Reset] of at least one second, and
    nothing else happens: the clock is read, the counter goes up by one,
    and neither the completion service nor the bridge is called. *)
Theorem throttled_request_is_only_counted (t0 : Z) (request : Request) (w : World) :
  str_eqb (req_path request) (js "/") && str_eqb (req_method request) (js "GET") = false ->
  endsWith (js "/health") (req_path request) = false ->
  allowed (fst (checkRateLimit_at (clock E (trace w)) (state w))) = false ->
  exists seconds c R,
    1 <= seconds
    /\ rateLimit (state w) = Some {| count := c; resetAt := R |}
    /\ onRequest E t0 request w
       = (Return {| status := 429; body := RError (js "Rate limit exceeded");
                    rate_reset := Some seconds |},
          {| state := with_rateLimit (Some {| count := c + 1; resetAt := R |}) (state w);
             connections := connections w;
             trace := EvNow (clock E (trace w)) :: trace w |}).
Proof.
  intros Hroot Hhealth Hden.
  rewrite (onRequest_throttled E t0 request w Hroot Hhealth Hden).
  unfold checkRateLimit_at in *. cbn [fst snd allowed resetIn count resetAt] in *.
  destruct (rateLimit (state w)) as [[c R]|] eqn:Hrl.
  - cbn [resetAt count] in *.
    destruct (clock E (trace w) >=? R) eqn:Hexp; cbn [count resetAt] in *;
      [discriminate Hden|].
    exists ((Z.max 0 (R - clock E (trace w)) + 999) / 1000), c, R.
    split; [|split; reflexivity].
    assert (clock E (trace w) < R) by lia.
    apply Z.div_le_lower_bound; lia.
  - discriminate Hden.
Qed.

End Handlers.

Lemma throttled_request_is_only_counted_witness :
  exists seconds c R,
    1 <= seconds
    /\ rateLimit (state (sample_world exhausted_state))
       = Some {| count := c; resetAt := R |}
    /\ onRequest (sample_env (ClaudeReply None)) 0 (chat_request (js "hello"))
         (sample_world exhausted_state)
       = (Return {| status := 429; body := RError (js "Rate limit exceeded");
                    rate_reset := Some seconds |},
          {| state := with_rateLimit (Some {| count := c + 1; resetAt := R |})
                        (state (sample_world exhausted_state));
             connections := connections (sample_world exhausted_state);
             trace := EvNow (clock (sample_env (ClaudeReply None))
                               (trace (sample_world exhausted_state)))
                      :: trace (sample_world exhausted_state) |}).
Proof.
  exact (throttled_request_is_only_counted (sample_env (ClaudeReply None)) 0
           (chat_request (js "hello")) (sample_world exhausted_state)
           eq_refl eq_refl eq_refl).
Defined.

Section Firing.

Variable E : Env.

(** X21.  A scheduled firing whose description can be printed calls the
    bridge once with the payload's tool and arguments, appends to the
    history the one entry [[Scheduled: <description>]] followed by the
    result (or the error) of the call, keeping the last 50 entries, and
    then sends one [scheduled_result] message to every connected listener
    -- whether the call succeeded or not. *)
Theorem scheduled_firing_reports (payload : ScheduledAction) (w : World)
    (description : jsstring) :
  ToString E (sa_description payload) = inr description ->
  exists res now,
    fst (callBridge E (sa_tool payload) (sa_args payload) w) = Return res
    /\ fst (executeScheduledAction E payload w) = Return tt
    /\ history (state (snd (executeScheduledAction E payload w)))
       = slice_last 50
           (history (state w)
            ++ [assistant_msg (js "[Scheduled: " ++ description
                               ++ js "]" ++ [10] ++ show_opt (result_text res))])
    /\ trace (snd (executeScheduledAction E payload w))
       = rev (map (fun c =>
                     EvSend c {| ws_type := ws_scheduled_result;
                                 ws_payload :=
                                   PScheduledResult (sa_description payload)
                                     (sa_tool payload) (sa_args payload)
                                     (result_text res) (success res) (image res);
                                 ws_timestamp := now |})
                  (connections w))
         ++ EvNow now :: EvBridge (sa_tool payload) (sa_args payload) :: trace w.
Proof.
  intros Hdescription.
  destruct (callBridge_run E (sa_tool payload) (sa_args payload) w) as [res Hres].
  exists res, (clock E (EvBridge (sa_tool payload) (sa_args payload) :: trace w)).
  rewrite Hres. split; [reflexivity|].
  assert (wp (executeScheduledAction E payload) w
            (fun o w' =>
               o = Return tt
               /\ history (state w')
                  = slice_last 50
                      (history (state w)
                       ++ [assistant_msg
                             (js "[Scheduled: " ++ description
                              ++ js "]" ++ [10] ++ show_opt (result_text res))])
               /\ trace w'
                  = rev (map (fun c =>
                                EvSend c
                                  {| ws_type := ws_scheduled_result;
                                     ws_payload :=
                                       PScheduledResult (sa_description payload)
                                         (sa_tool payload) (sa_args payload)
                                         (result_text res) (success res) (image res);
                                     ws_timestamp :=
                                       clock E (EvBridge (sa_tool payload)
                                                  (sa_args payload) :: trace w) |})
                             (connections w))
                    ++ EvNow (clock E (EvBridge (sa_tool payload) (sa_args payload)
                                         :: trace w))
                    :: EvBridge (sa_tool payload) (sa_args payload) :: trace w)) as H.
  { unfold executeScheduledAction.
    apply wp_bind. unfold wp at 1. rewrite Hres. cbn [fst snd].
    apply wp_bind. apply wp_getState. world_simpl.
    rewrite Hdescription. apply wp_bind. apply wp_ret.
    apply wp_bind.
    apply wp_conseq
      with (Q := fun o w1 =>
                   o = Return tt
                   /\ history (state w1)
                      = slice_last 50
                          (history (state w)
                           ++ [assistant_msg
                                 (js "[Scheduled: " ++ description
                                  ++ js "]" ++ [10] ++ show_opt (result_text res))])
                   /\ connections w1 = connections w
                   /\ trace w1 = EvBridge (sa_tool payload) (sa_args payload) :: trace w).
    { destruct (find _ (scheduleRegistry (state w))) as [[id wh tl ar de cr [|]]|];
        wp_steps; world_simpl; auto. }
    intros o w1 (-> & Hh & Hc & Ht).
    apply wp_bind. apply wp_Date_now.
    unfold broadcastToClients. apply wp_bind. apply wp_getConnections.
    cbn [after_event connections trace state]. rewrite Hc, Ht.
    unfold wp.
    match goal with
    | |- context [broadcast_loop E ?m ?cs ?w0] =>
        destruct (broadcast_loop_spec E m cs w0) as (H1 & H2 & H3 & _)
    end.
    rewrite H1, H2, H3. cbn [state trace after_event]. rewrite Ht.
    split; [reflexivity|]. split; [exact Hh|reflexivity]. }
  exact H.
Qed.

(** The values that count as false are printed without fail. *)
Lemma falsy_prints (v : json) :
  truthy (Some v) = false -> exists text, ToString_json E v = inr text.
Proof.
  destruct v as [|[|]|m e|s|l|o]; cbn [truthy ToString_json]; intros H;
    try discriminate; eexists; reflexivity.
Qed.

(** X22.  The contact flow stages a message, it does not send it.  When an
    action [search_contacts] succeeds with a result that holds a phone
    number (and does not mention an error), and the request does not ask
    for a made-up text, the loop over the actions stops there: the later
    actions of the completion are not run, the user's message is appended
    to the history, and a [send_imessage] to the normalised number is left
    pending, with the text of the action's [message] argument, or else the
    text found in the request.  The turn then answers with the question to
    the user -- unless the text to send is a value that cannot be printed:
    the question cannot be worded and the turn throws, the message staying
    pending. *)
Theorem contact_search_stages_the_message (message : jsstring) (action : json)
    (rest : list json) (results : list ActionResult) (w : World)
    (res : BridgeResult) (found phone : jsstring) (args : json) :
  get_prop action "tool" = Some (JStr (js "search_contacts")) ->
  get_prop action "args" = Some args -> args <> JNull ->
  bridge E (trace w) (get_prop action "tool") (get_prop action "args") = BridgeReply res ->
  success res = true -> result res = Some found -> found <> [] ->
  includes (js "error") (toLowerCase found) = false ->
  find_phone found = Some phone ->
  regex_test true re_make_up message = false ->
  exists reply intended,
    snd (run_actions E message (action :: rest) results w)
    = {| state :=
           with_history (slice_last 50 (history (state w) ++ [user_msg message]))
             (with_pendingAction
                (Some {| pa_tool := js "send_imessage";
                         pa_args := [(js "to", JStr phone); (js "message", intended)];
                         pa_context := found;
                         pa_originalRequest := message |}) (state w));
         connections := connections w;
         trace := EvBridge (get_prop action "tool") (get_prop action "args") :: trace w |}
    /\ fst (run_actions E message (action :: rest) results w)
       = match ToString_json E intended with
         | inr _ => Return (inl reply)
         | inl e => Throw e
         end
    /\ intended
       = (if truthy (get_prop args "message")
          then match get_prop args "message" with Some v => v | None => JStr [] end
          else match extract_message message_patterns message with
               | Some s => JStr s
               | None => JStr []
               end)
    /\ normal_phone phone = true.
Proof.
  intros Htool Hargs Hnull Hbridge Hok Hres Hne Herr Hphone Hmake.
  pose proof (find_phone_digits found phone Hphone) as Hnormal.
  assert (callBridge E (get_prop action "tool") (get_prop action "args") w
          = (Return res,
             after_event (EvBridge (get_prop action "tool") (get_prop action "args")) w))
    as Hcall.
  { unfold callBridge, bind, getTrace, emit. cbn [fst snd]. rewrite Hbridge. reflexivity. }
  destruct found as [|c found]; [contradiction|].
  destruct phone as [|p phone]; [discriminate Hnormal|].
  set (intended := if truthy (get_prop args "message")
                   then match get_prop args "message" with Some v => v | None => JStr [] end
                   else match extract_message message_patterns message with
                        | Some s => JStr s
                        | None => JStr []
                        end).
  assert (exists reply,
             run_actions E message (action :: rest) results w
             = (match ToString_json E intended with
                | inr _ => Return (inl reply)
                | inl e => Throw e
                end,
                {| state :=
                     with_history (slice_last 50 (history (state w) ++ [user_msg message]))
                       (with_pendingAction
                          (Some {| pa_tool := js "send_imessage";
                                   pa_args := [(js "to", JStr (p :: phone));
                                               (js "message", intended)];
                                   pa_context := c :: found;
                                   pa_originalRequest := message |}) (state w));
                   connections := connections w;
                   trace := EvBridge (get_prop action "tool") (get_prop action "args")
                            :: trace w |})) as [reply Hrun].
  { cbn [run_actions]. unfold bind at 1. rewrite Hcall.
    rewrite Hres, Hok, Herr, Hphone, Hmake.
    rewrite Htool. cbn [strict_eq]. rewrite str_eqb_refl. cbn [andb negb].
    rewrite <- Htool. rewrite Hargs.
    assert (forall k : jsstring -> ChatResult,
               exists reply,
                 (reply <- (if truthy (Some intended)
                            then text <- lift (ToString_json E intended) ;;
                                 ret (js "Found: **" ++ (c :: found) ++ js "**" ++ [10; 10]
                                      ++ js "Send " ++ dquote ++ text ++ dquote
                                      ++ js "? *(yes/no)*")
                            else ret (js "Found: **" ++ (c :: found) ++ js "**" ++ [10; 10]
                                      ++ js "What message?")) ;;
                  ret (inl (k reply)))%agent
                   {| state :=
                        with_history
                          (slice_last 50 (history (state w) ++ [user_msg message]))
                          (with_pendingAction
                             (Some {| pa_tool := js "send_imessage";
                                      pa_args := [(js "to", JStr (p :: phone));
                                                  (js "message", intended)];
                                      pa_context := c :: found;
                                      pa_originalRequest := message |}) (state w));
                      connections := connections w;
                      trace := EvBridge (get_prop action "tool") (Some args) :: trace w |}
                 = (match ToString_json E intended with
                    | inr _ => Return (inl reply)
                    | inl e => Throw e
                    end : Outcome (ChatResult + list ActionResult),
                    {| state :=
                         with_history
                           (slice_last 50 (history (state w) ++ [user_msg message]))
                           (with_pendingAction
                              (Some {| pa_tool := js "send_imessage";
                                       pa_args := [(js "to", JStr (p :: phone));
                                                   (js "message", intended)];
                                       pa_context := c :: found;
                                       pa_originalRequest := message |}) (state w));
                       connections := connections w;
                       trace := EvBridge (get_prop action "tool") (Some args) :: trace w |}))
      as Hreply.
    { intros k. destruct (truthy (Some intended)) eqn:Htruthy.
      - unfold bind, lift. destruct (ToString_json E intended) as [e|text].
        + exists (k []). reflexivity.
        + eexists. reflexivity.
      - destruct (falsy_prints intended Htruthy) as [text ->]. eexists. reflexivity. }
    destruct args; try contradiction; apply Hreply. }
  exists reply, intended. rewrite Hrun.
  split; [reflexivity|]. split; [reflexivity|]. split; [reflexivity|exact Hnormal].
Qed.

End Firing.

Lemma scheduled_firing_reports_witness :
  history (state (snd (executeScheduledAction (sample_env (ClaudeReply None))
                         {| sa_tool := Some (JStr (js "notify")); sa_args := None;
                            sa_description := Some (JStr (js "Tea")) |}
                         (sample_world (initialState 0)))))
  = [assistant_msg (js "[Scheduled: Tea]" ++ [10] ++ js "ok")].
Proof.
  destruct (scheduled_firing_reports (sample_env (ClaudeReply None))
              {| sa_tool := Some (JStr (js "notify")); sa_args := None;
                 sa_description := Some (JStr (js "Tea")) |}
              (sample_world (initialState 0)) (js "Tea") eq_refl)
    as (res & now & Hres & _ & Hh & _).
  rewrite Hh. injection Hres as <-. reflexivity.
Defined.

Lemma contact_search_stages_the_message_witness :
  exists reply intended,
    snd (run_actions contact_env (js "text John")
           [JObj [(js "tool", JStr (js "search_contacts"));
                  (js "args", JObj [(js "query", JStr (js "John"));
                                    (js "message", JStr (js "Running late"))])];
            JObj [(js "tool", JStr (js "music_play"))]]
           [] (sample_world (initialState 0)))
    = {| state :=
           with_history
             (slice_last 50 (history (state (sample_world (initialState 0)))
                             ++ [user_msg (js "text John")]))
             (with_pendingAction
                (Some {| pa_tool := js "send_imessage";
                         pa_args := [(js "to", JStr (js "+15551234567"));
                                     (js "message", intended)];
                         pa_context := js "John Appleseed: +1 (555) 123-4567";
                         pa_originalRequest := js "text John" |})
                (state (sample_world (initialState 0))));
         connections := connections (sample_world (initialState 0));
         trace := [EvBridge (Some (JStr (js "search_contacts")))
                     (Some (JObj [(js "query", JStr (js "John"));
                                  (js "message", JStr (js "Running late"))]))] |}
    /\ intended = JStr (js "Running late")
    /\ fst (run_actions contact_env (js "text John")
              [JObj [(js "tool", JStr (js "search_contacts"));
                     (js "args", JObj [(js "query", JStr (js "John"));
                                       (js "message", JStr (js "Running late"))])];
               JObj [(js "tool", JStr (js "music_play"))]]
              [] (sample_world (initialState 0)))
       = Return (inl reply).
Proof.
  destruct (contact_search_stages_the_message contact_env (js "text John")
              (JObj [(js "tool", JStr (js "search_contacts"));
                     (js "args", JObj [(js "query", JStr (js "John"));
                                       (js "message", JStr (js "Running late"))])])
              [JObj [(js "tool", JStr (js "music_play"))]]
              [] (sample_world (initialState 0))
              {| success := true;
                 result := Some (js "John Appleseed: +1 (555) 123-4567");
                 error := None; image := None |}
              (js "John Appleseed: +1 (555) 123-4567") (js "+15551234567")
              (JObj [(js "query", JStr (js "John"));
                     (js "message", JStr (js "Running late"))])
              eq_refl eq_refl ltac:(discriminate) eq_refl eq_refl eq_refl
              ltac:(discriminate) eq_refl eq_refl eq_refl)
    as (reply & intended & Hw & Ho & Hi & _).
  exists reply, intended. split; [exact Hw|]. split; [exact Hi|].
  rewrite Ho, Hi. reflexivity.
Defined.

(** ** The grammars of confirmation and cancellation *)

Lemma spellings_complete (t : jsstring) : In t (spellings (toLowerCase t)).
Proof.
  induction t as [|d t IH]; [left; reflexivity|].
  cbn [toLowerCase map spellings]. fold (toLowerCase t).
  apply in_flat_map. exists d. split; [|apply in_map; exact IH].
  unfold lower.
  destruct ((65 <=? d) && (d <=? 90)) eqn:Hup.
  - apply andb_true_iff in Hup as [H1 H2]. apply Z.leb_le in H1, H2.
    assert ((97 <=? d + 32) && (d + 32 <=? 122) = true) as ->
        by (apply andb_true_iff; split; apply Z.leb_le; lia).
    right. left. lia.
  - destruct ((97 <=? d) && (d <=? 122)); left; reflexivity.
Qed.

Lemma lower_canon (d : Z) : lower (canon true d) = lower d.
Proof.
  unfold lower, canon. cbn [andb].
  destruct ((97 <=? d) && (d <=? 122)) eqn:Hlow; [|reflexivity].
  apply andb_true_iff in Hlow as [H1 H2]. apply Z.leb_le in H1, H2.
  assert ((65 <=? d - 32) && (d - 32 <=? 90) = true) as ->
      by (apply andb_true_iff; split; apply Z.leb_le; lia).
  assert ((65 <=? d) && (d <=? 90) = false) as ->
      by (apply andb_false_iff; right; apply Z.leb_gt; lia).
  lia.
Qed.

Lemma toLowerCase_canon (t : jsstring) : toLowerCase (map (canon true) t) = toLowerCase t.
Proof.
  unfold toLowerCase. rewrite map_map. apply map_ext. apply lower_canon.
Qed.

Lemma in_phrases (vocabulary : list jsstring) (u : jsstring) :
  In u (phrases vocabulary)
  <-> exists word closing, In word vocabulary /\ In closing closings /\ u = word ++ closing.
Proof.
  unfold phrases. rewrite in_flat_map. split.
  - intros (word & Hw & Hu). apply in_map_iff in Hu as (closing & <- & Hc). eauto.
  - intros (word & closing & Hw & Hc & ->). exists word. split; [exact Hw|].
    apply in_map. exact Hc.
Qed.

(** Every spelling of every phrase passes the test of its grammar. *)
Lemma spellings_accepted :
  forallb (fun u => forallb (regex_test true re_confirmation) (spellings u))
          (phrases confirmation_vocabulary) = true
  /\ forallb (fun u => forallb (regex_test true re_cancellation) (spellings u))
             (phrases cancellation_vocabulary) = true.
Proof. split; vm_compute; reflexivity. Qed.

(** The words of the two expressions are the phrases, in upper case. *)
Lemma words_are_phrases :
  forallb (fun U => existsb (str_eqb (toLowerCase U)) (phrases confirmation_vocabulary))
          confirmation_words = true
  /\ forallb (fun U => existsb (str_eqb (toLowerCase U)) (phrases cancellation_vocabulary))
             cancellation_words = true.
Proof. split; vm_compute; reflexivity. Qed.

(** X23.  The grammar of confirmations and that of cancellations, in full:
    a message confirms exactly when, trimmed and with its ASCII letters in
    lower case, it is one of [yes], [yeah], [yep], [yup], [sure], [ok],
    [okay], [do it], [send it], [confirm], [go ahead], [please], [y],
    followed by nothing, by a full stop, by an exclamation mark or by a
    full stop and an exclamation mark; it cancels exactly when it is in
    the same way one of [no], [nope], [cancel], [stop], [don't],
    [nevermind], [never mind], [abort], [n]. *)
Theorem confirmation_grammar (message : jsstring) :
  (isConfirmation message = true
   <-> exists word closing,
         In word confirmation_vocabulary /\ In closing closings
         /\ toLowerCase (trim message) = word ++ closing)
  /\ (isCancellation message = true
      <-> exists word closing,
            In word cancellation_vocabulary /\ In closing closings
            /\ toLowerCase (trim message) = word ++ closing).
Proof.
  destruct spellings_accepted as [Ayes Ano].
  destruct words_are_phrases as [Wyes Wno].
  rewrite forallb_forall in Ayes, Ano, Wyes, Wno.
  split; rewrite <- in_phrases; split.
  - intros H. apply isConfirmation_words in H. apply Wyes in H.
    apply existsb_exists in H as (u & Hu & He). apply str_eqb_eq in He.
    rewrite toLowerCase_canon in He. rewrite He. exact Hu.
  - intros H. apply Ayes in H. rewrite forallb_forall in H.
    apply H. apply spellings_complete.
  - intros H. apply isCancellation_words in H. apply Wno in H.
    apply existsb_exists in H as (u & Hu & He). apply str_eqb_eq in He.
    rewrite toLowerCase_canon in He. rewrite He. exact Hu.
  - intros H. apply Ano in H. rewrite forallb_forall in H.
    apply H. apply spellings_complete.
Qed.

(** ** Hours of the daily and weekday forms *)

(** X24.  The hour of [every day at H] and [every weekday at H], with [H]
    of one or two digits and nothing, [am] or [pm] behind it: [pm] adds
    twelve to an hour below 12; [am] turns the hour 12 into 0 in the daily
    form only -- [every weekday at 12am] keeps the hour 12.  The hour is
    not otherwise checked: [every day at 99] gives the cron [0 99 * * *]. *)
Theorem parseWhen_clock_hours (Date_parse : jsstring -> option Z) (T : Z)
    (H suffix : jsstring) :
  Forall (fun d => is_digit d = true) H -> (1 <= List.length H <= 2)%nat ->
  In suffix [[]; js "am"; js "pm"] ->
  let h := parseInt H in
  let h12 := if str_eqb suffix (js "pm") && (h <? 12) then h + 12 else h in
  parseWhen Date_parse T (js "every day at " ++ H ++ suffix)
  = WCron (js "0 "
           ++ string_of_Z (if str_eqb suffix (js "am") && (h12 =? 12) then 0 else h12)
           ++ js " * * *")
  /\ parseWhen Date_parse T (js "every weekday at " ++ H ++ suffix)
     = WCron (js "0 " ++ string_of_Z h12 ++ js " * * 1-5").
Proof.
  intros Hd Hl Hs. cbv zeta.
  destruct H as [|d1 [|d2 [|d3 H]]]; cbn [List.length] in Hl; try lia.
  - inversion Hd as [|? ? H1 _]; subst.
    destruct Hs as [<-|[<-|[<-|[]]]];
      destruct (is_digit_cases d1 H1) as [->|[->|[->|[->|[->|[->|[->|[->|[->| ->]]]]]]]]];
      vm_compute; split; reflexivity.
  - inversion Hd as [|? ? H1 Hd']; subst. inversion Hd' as [|? ? H2 _]; subst.
    destruct Hs as [<-|[<-|[<-|[]]]];
      destruct (is_digit_cases d1 H1) as [->|[->|[->|[->|[->|[->|[->|[->|[->| ->]]]]]]]]];
      destruct (is_digit_cases d2 H2) as [->|[->|[->|[->|[->|[->|[->|[->|[->| ->]]]]]]]]];
      vm_compute; split; reflexivity.
Qed.

Lemma parseWhen_clock_hours_witness :
  parseWhen (fun _ => None) 0 (js "every day at " ++ js "12" ++ js "am")
  = WCron (js "0 0 * * *")
  /\ parseWhen (fun _ => None) 0 (js "every weekday at " ++ js "12" ++ js "am")
     = WCron (js "0 12 * * 1-5").
Proof.
  exact (parseWhen_clock_hours (fun _ => None) 0 (js "12") (js "am")
           ltac:(repeat constructor) ltac:(cbn; lia)
           (or_intror (or_introl eq_refl))).
Defined.

(** ** Clearing the history *)

Section Clear.

Variable E : Env.

(** X25.  [POST .../clear], when the rate limiter lets it through, empties
    the history and touches nothing else: unlike a reset it keeps the
    pending action, the schedule registry and the window of the rate
    limiter (in which it counts as one request). *)
Theorem clear_empties_only_the_history (t0 : Z) (pre : jsstring) (b : RequestBody)
    (w : World) :
  allowed (fst (checkRateLimit_at (clock E (trace w)) (state w))) = true ->
  onRequest E t0 {| req_path := pre ++ js "/clear"; req_method := js "POST";
                    req_body := b |} w
  = (Return (json_response (RSuccess None)),
     {| state := with_history [] (snd (checkRateLimit_at (clock E (trace w)) (state w)));
        connections := connections w;
        trace := EvNow (clock E (trace w)) :: trace w |}).
Proof.
  intros Hall.
  set (request := {| req_path := pre ++ js "/clear"; req_method := js "POST";
                     req_body := b |}).
  assert (forall suffix c rest,
             rev (js suffix) = c :: rest -> (c =? 114) = false ->
             endsWith (js suffix) (req_path request) = false) as Hends.
  { intros suffix c rest Hrev Hc. subst request. cbn [req_path]. unfold endsWith.
    rewrite Hrev, rev_app_distr.
    change (rev (js "/clear")) with [114; 97; 101; 108; 99; 47].
    cbn [app startsWith]. rewrite Hc. reflexivity. }
  assert (str_eqb (req_path request) (js "/") = false) as Hroot.
  { destruct (str_eqb (req_path request) (js "/")) eqn:H; [|reflexivity].
    apply str_eqb_eq in H. subst request. cbn [req_path] in H.
    apply (f_equal (@List.length Z)) in H. rewrite length_app in H.
    change (List.length (js "/clear")) with 6%nat in H.
    change (List.length (js "/")) with 1%nat in H. lia. }
  destruct (checkRateLimit_at (clock E (trace w)) (state w)) as [rc st1] eqn:Hrc.
  cbn [fst snd] in *.
  assert (wp (onRequest E t0 request) w
            (fun o w' =>
               o = Return (json_response (RSuccess None))
               /\ w' = {| state := with_history [] st1; connections := connections w;
                          trace := EvNow (clock E (trace w)) :: trace w |})) as H.
  { unfold onRequest. rewrite Hroot. cbn [andb].
    rewrite (Hends "/health"%string 104 _ eq_refl eq_refl).
    unfold checkRateLimit.
    wp_steps. world_simpl. rewrite Hrc. wp_steps. rewrite Hall. cbn [negb].
    unfold is_route.
    rewrite (Hends "/chat"%string 116 _ eq_refl eq_refl).
    rewrite (Hends "/reset"%string 116 _ eq_refl eq_refl).
    rewrite (Hends "/state"%string 101 _ eq_refl eq_refl).
    rewrite (Hends "/execute"%string 101 _ eq_refl eq_refl).
    rewrite (Hends "/schedules"%string 115 _ eq_refl eq_refl).
    rewrite (Hends "/history"%string 121 _ eq_refl eq_refl).
    cbn [andb].
    change (str_eqb (req_method request) (js "DELETE")) with false.
    rewrite andb_false_r.
    assert (endsWith (js "/clear") (req_path request) = true) as ->.
    { subst request. cbn [req_path]. unfold endsWith. rewrite rev_app_distr.
      change (rev (js "/clear")) with [114; 97; 101; 108; 99; 47]. reflexivity. }
    change (str_eqb (req_method request) (js "POST")) with true. cbn [andb].
    wp_steps. world_simpl. split; reflexivity. }
  destruct H as [H1 H2]. rewrite <- H1, <- H2. apply surjective_pairing.
Qed.

End Clear.

Lemma clear_empties_only_the_history_witness :
  pendingAction
    (state (snd (onRequest (sample_env (ClaudeReply None)) 0
                   {| req_path := js "/agents/system-agent" ++ js "/clear";
                      req_method := js "POST"; req_body := BodyNone |}
                   (sample_world (with_pendingAction (Some (sample_pending (js "Hi")))
                                    (initialState 0))))))
  = Some (sample_pending (js "Hi")).
Proof.
  rewrite (clear_empties_only_the_history (sample_env (ClaudeReply None)) 0
             (js "/agents/system-agent") BodyNone
             (sample_world (with_pendingAction (Some (sample_pending (js "Hi")))
                              (initialState 0)))
             eq_refl).
  reflexivity.
Defined.

(** ** A turn with directives *)

Section Directives.

Variable E : Env.

(** The loop over actions none of which is a contact search: each is sent
    to the bridge, in order, and the loop runs to its end. *)
Lemma run_actions_in_order (message : jsstring) (actions : list json) :
  Forall (fun a => strict_eq E (get_prop a "tool") (Some (JStr (js "search_contacts")))
                   = false) actions ->
  forall (results : list ActionResult) (w : World),
  exists rs,
    run_actions E message actions results w
    = (Return (inr (results ++ rs)),
       {| state := state w; connections := connections w;
          trace := rev (map (fun a => EvBridge (get_prop a "tool") (get_prop a "args"))
                            actions) ++ trace w |})
    /\ map (fun r => (ar_tool r, ar_args r)) rs
       = map (fun a => (get_prop a "tool", get_prop a "args")) actions.
Proof.
  induction 1 as [|action rest Ha _ IH]; intros results w; cbn [run_actions].
  - exists []. rewrite app_nil_r. destruct w. split; reflexivity.
  - unfold bind at 1.
    destruct (callBridge_run E (get_prop action "tool") (get_prop action "args") w)
      as [res ->].
    set (r := {| ar_tool := get_prop action "tool"; ar_args := get_prop action "args";
                 ar_result := result_text res; ar_success := success res;
                 ar_image := image res |}).
    destruct (IH (results ++ [r])
                 (after_event (EvBridge (get_prop action "tool") (get_prop action "args")) w))
      as (rs & Hrun & Hmap).
    exists (r :: rs). split.
    + rewrite Ha. cbn [andb].
      assert (run_actions E message rest (results ++ [r])
                (after_event (EvBridge (get_prop action "tool") (get_prop action "args")) w)
              = (Return (inr (results ++ r :: rs)),
                 {| state := state w; connections := connections w;
                    trace := rev (map (fun a => EvBridge (get_prop a "tool")
                                                  (get_prop a "args"))
                                      (action :: rest)) ++ trace w |})) as Hgo.
      { rewrite Hrun. cbn [after_event state connections trace map rev].
        rewrite <- !app_assoc. reflexivity. }
      destruct (result res) as [[|c found]|]; exact Hgo.
    + cbn [map]. rewrite Hmap. reflexivity.
Qed.

Lemma filter_bridge_calls (actions : list json) (tr : list Event) :
  filter is_bridge_call
    (rev (map (fun a => EvBridge (get_prop a "tool") (get_prop a "args")) actions) ++ tr)
  = rev (map (fun a => EvBridge (get_prop a "tool") (get_prop a "args")) actions)
    ++ filter is_bridge_call tr.
Proof.
  rewrite filter_app. f_equal.
  induction actions as [|a actions IH]; [reflexivity|].
  cbn [map rev]. rewrite filter_app, IH. reflexivity.
Qed.

Lemma wp_run_actions_in_order (message : jsstring) (actions : list json)
    (results : list ActionResult) (w : World) Q :
  Forall (fun a => strict_eq E (get_prop a "tool") (Some (JStr (js "search_contacts")))
                   = false) actions ->
  (forall rs,
      map (fun r => (ar_tool r, ar_args r)) rs
      = map (fun a => (get_prop a "tool", get_prop a "args")) actions ->
      Q (Return (inr (results ++ rs)))
        {| state := state w; connections := connections w;
           trace := rev (map (fun a => EvBridge (get_prop a "tool") (get_prop a "args"))
                             actions) ++ trace w |}) ->
  wp (run_actions E message actions results) w Q.
Proof.
  intros Hplain HQ. unfold wp.
  destruct (run_actions_in_order message actions Hplain results w) as (rs & -> & Hmap).
  apply HQ. exact Hmap.
Qed.

(** X26.  A chat turn whose completion holds action blocks, no schedule
    block and no contact search runs every well-formed action exactly once,
    in the order of the text -- a failing call does not stop the later
    ones -- and reports one result per action; the reply shown is the
    display text; the history gains the user's message and the completion
    as it came.  This is for a turn that reaches the completion service:
    the system prompt builds and the service replies. *)
Theorem actions_run_in_order (w : World) (message prompt : jsstring) (d : list Seg) :
  reaches_completion E (state w) message = true ->
  buildSystemPrompt E (listed_tools (fetch_tools E (trace w))) (preferences (state w))
  = inr prompt ->
  claude E (EvFetchTools :: trace w) prompt
    (slice_last 40 (history (state w)) ++ [user_msg message])
  = ClaudeReply (Some (render d)) ->
  render d <> [] -> wf_doc d = true ->
  first_body KSchedule d = None ->
  Forall (fun a => strict_eq E (get_prop a "tool") (Some (JStr (js "search_contacts")))
                   = false) (actions_of d) ->
  exists results,
    fst (processChat E message w)
    = Return {| cr_message := or_done (trim (render (displayed d)));
                cr_action := hd_error results;
                cr_actions := Some results;
                cr_scheduled := None |}
    /\ map (fun r => (ar_tool r, ar_args r)) results
       = map (fun a => (get_prop a "tool", get_prop a "args")) (actions_of d)
    /\ filter is_bridge_call (trace (snd (processChat E message w)))
       = rev (map (fun a => EvBridge (get_prop a "tool") (get_prop a "args"))
                  (actions_of d))
         ++ filter is_bridge_call (trace w)
    /\ history (state (snd (processChat E message w)))
       = slice_last 50
           (history (state w) ++ [user_msg message; assistant_msg (render d)])
    /\ pendingAction (state (snd (processChat E message w))) = None.
Proof.
  intros Hreach Hprompt Hc Hne Hwf Hns Hplain.
  rewrite (processChat_reaches_main E w message Hreach).
  set (w0 := {| state := with_pendingAction None (state w);
                connections := connections w; trace := trace w |}).
  assert (wp (processChat_main E message) w0
            (fun o w' =>
               exists results,
                 o = Return {| cr_message := or_done (trim (render (displayed d)));
                               cr_action := hd_error results;
                               cr_actions := Some results;
                               cr_scheduled := None |}
                 /\ map (fun r => (ar_tool r, ar_args r)) results
                    = map (fun a => (get_prop a "tool", get_prop a "args"))
                          (actions_of d)
                 /\ filter is_bridge_call (trace w')
                    = rev (map (fun a => EvBridge (get_prop a "tool")
                                           (get_prop a "args")) (actions_of d))
                      ++ filter is_bridge_call (trace w)
                 /\ history (state w')
                    = slice_last 50
                        (history (state w)
                         ++ [user_msg message; assistant_msg (render d)])
                 /\ pendingAction (state w') = None))
    as Hmain.
  { unfold processChat_main.
    eapply wp_processChat_main_reply; [exact Hprompt|exact Hc|exact Hne|].
    apply wp_bind. apply wp_parseResponse_doc; [exact Hwf|].
    cbn [pr_schedule pr_actions pr_text].
    unfold first_directive. rewrite Hns. cbn [truthy].
    apply wp_bind. apply wp_ret.
    apply wp_bind. apply wp_run_actions_in_order; [exact Hplain|].
    intros rs Hmap. cbn [app].
    wp_steps. world_simpl. exists rs.
    split; [reflexivity|]. split; [exact Hmap|].
    split.
    { cbn [filter is_bridge_call]. rewrite filter_bridge_calls. reflexivity. }
    unfold learn_preference.
    destruct (first_directive KPreference d) as [pref|]; [|split; reflexivity].
    destruct (truthy (Some pref)); [|split; reflexivity].
    destruct (ToString E (get_prop pref "key")); split; reflexivity. }
  exact Hmain.
Qed.

(** X27.  A schedule block that parses but whose [when] is not a string
    fails the whole turn: over HTTP the answer has status 500, no action
    of the completion is run, nothing is scheduled or registered, and the
    history is left as it was -- the user's message is not recorded. *)
Theorem schedule_without_when_fails_the_turn (w : World) (message : jsstring)
    (d : list Seg) (v : json) :
  reaches_completion E (state w) message = true ->
  (forall tr p ms, claude E tr p ms = ClaudeReply (Some (render d))) ->
  render d <> [] -> wf_doc d = true ->
  first_directive KSchedule d = Some v -> truthy (Some v) = true ->
  (forall text, get_prop v "when" <> Some (JStr text)) ->
  exists msg,
    fst (handleChat E (chat_request message) w) = Return (error_response 500 msg)
    /\ filter is_bridge_call (trace (snd (handleChat E (chat_request message) w)))
       = filter is_bridge_call (trace w)
    /\ scheduleRegistry (state (snd (handleChat E (chat_request message) w)))
       = scheduleRegistry (state w)
    /\ history (state (snd (handleChat E (chat_request message) w)))
       = history (state w).
Proof.
  intros Hreach Hc Hne Hwf Hs Htruthy Hwhen.
  assert (forall w0,
             wp (processChat_main E message) w0
                (fun o w' =>
                   (exists e, o = Throw e)
                   /\ filter is_bridge_call (trace w') = filter is_bridge_call (trace w0)
                   /\ scheduleRegistry (state w') = scheduleRegistry (state w0)
                   /\ history (state w') = history (state w0))) as Hmain.
  { intros w0. unfold processChat_main.
    apply wp_bind. apply wp_fetchTools_exact.
    apply wp_bind. apply wp_getState. world_simpl.
    apply wp_bind. apply wp_lift; [intros prompt _|intros e _; eauto].
    apply wp_bind. eapply wp_callClaude_reply; [apply Hc|exact Hne|].
    apply wp_bind. apply wp_parseResponse_doc; [exact Hwf|].
    cbn [pr_schedule pr_actions pr_text]. rewrite Hs, Htruthy.
    apply wp_bind. apply wp_bind.
    unfold scheduleAction. apply wp_bind. apply wp_Date_now.
    destruct (get_prop v "when") as [[| | |text| |]|] eqn:Hw;
      try (exfalso; apply (Hwhen text); reflexivity);
      apply wp_throw; world_simpl;
      (split; [eexists; reflexivity|]);
      (split; [reflexivity|]);
      unfold learn_preference;
      destruct (first_directive KPreference d) as [pref|]; try (split; reflexivity);
      destruct (truthy (Some pref)); try (split; reflexivity);
      destruct (ToString E (get_prop pref "key")); split; reflexivity. }
  assert (wp (processChat E message) w
            (fun o w' =>
               (exists e, o = Throw e)
               /\ filter is_bridge_call (trace w') = filter is_bridge_call (trace w)
               /\ scheduleRegistry (state w') = scheduleRegistry (state w)
               /\ history (state w') = history (state w))) as Hchat.
  { unfold wp. rewrite (processChat_reaches_main E w message Hreach).
    apply (Hmain {| state := with_pendingAction None (state w);
                    connections := connections w; trace := trace w |}). }
  unfold wp in Hchat. destruct Hchat as ((e & He) & H2 & H3 & H4).
  exists (exn_message e).
  unfold handleChat, chat_request, try_catch, bind. cbn [req_body].
  rewrite (surjective_pairing (processChat E message w)), He.
  cbn [fst snd ret]. auto.
Qed.

End Directives.

Lemma actions_run_in_order_witness :
  exists results,
    map (fun r => (ar_tool r, ar_args r)) results
    = [(Some (JStr (js "music_play")), None);
       (Some (JStr (js "say")), Some (JObj [(js "text", JStr (js "hi"))]))]
    /\ filter is_bridge_call
         (trace (snd (processChat (sample_env (ClaudeReply (Some (render music_reply))))
                        (js "play something") (sample_world (initialState 0)))))
       = [EvBridge (Some (JStr (js "say"))) (Some (JObj [(js "text", JStr (js "hi"))]));
          EvBridge (Some (JStr (js "music_play"))) None].
Proof.
  destruct (actions_run_in_order
              (sample_env (ClaudeReply (Some (render music_reply))))
              (sample_world (initialState 0)) (js "play something") sample_prompt
              music_reply eq_refl eq_refl eq_refl
              ltac:(vm_compute; discriminate) eq_refl eq_refl
              ltac:(vm_compute; repeat constructor))
    as (results & _ & Hmap & Hcalls & _).
  exists results. split; [exact Hmap|exact Hcalls].
Defined.

Lemma schedule_without_when_fails_the_turn_witness :
  exists msg,
    fst (handleChat (sample_env (ClaudeReply (Some (render untimed_reply))))
           (chat_request (js "remind me")) (sample_world (initialState 0)))
    = Return (error_response 500 msg)
    /\ filter is_bridge_call
         (trace (snd (handleChat (sample_env (ClaudeReply (Some (render untimed_reply))))
                        (chat_request (js "remind me")) (sample_world (initialState 0)))))
       = [].
Proof.
  destruct (schedule_without_when_fails_the_turn
              (sample_env (ClaudeReply (Some (render untimed_reply))))
              (sample_world (initialState 0)) (js "remind me") untimed_reply
              (JObj [(js "tool", JStr (js "notify"))])
              eq_refl (fun _ _ _ => eq_refl)
              ltac:(vm_compute; discriminate) eq_refl eq_refl eq_refl
              ltac:(intros text; vm_compute; discriminate))
    as (msg & Hr & Hcalls & _).
  exists msg. split; [exact Hr|exact Hcalls].
Defined.
